(** * Keyset pagination of the video platform's tRPC routers

    Shallow embedding of the list procedures of [videosRouter]
    (modules/videos/server/procedures.ts) and [playlistsRouter]
    (src/modules/playlists/server/procedures.ts), together with
    [playlists.addVideo], and the properties of the cursor/limit pattern
    they share (Parts I and II); Part III adds the other procedures of the
    two routers that touch the store only: [playlists.create],
    [removeVideo], [getOne], [remove], [videos.getOne] and [videos.update].

    Conventions of the embedding.
    - A [Date], and the timestamp column it is read from or compared with,
      is a number of milliseconds since the epoch, a [Z].
    - A JavaScript [number] that can pass [z.number().min(1).max(100)] is
      finite; it is a rational [Q].  The one addition the handlers perform,
      [limit + 1], is exact on integers and on 5/2; the properties stated
      for an arbitrary limit do not depend on its value.
    - Text columns are compared bytewise ([String.compare]); the proofs use
      only that this is a strict total order.
    - A procedure runs in a small state-and-error monad over the store and
      the trace of the statements sent to it; a procedure is one call at a
      time, nothing runs between its statements.
    - [ctx.user] is resolved by [protectedProcedure] in '@/trpc/init'; the
      caller's id reaches a procedure as its parameter [userId].
    - [z.string().cuid2()] is a parameter [cuid2] of the procedures: the
      check belongs to the zod version in use. *)

From Stdlib Require Import ZArith QArith Qround List String Ascii Bool Lia.
From Stdlib Require Import Sorting.Sorted Sorting.Permutation.
Import ListNotations.

Set Implicit Arguments.

Local Open Scope Z_scope.

(* ================================================================== *)
(** * Part I: the program *)

(* ------------------------------------------------------------------ *)
(** ** Values *)

Module Text.
(** [lt] and [eq] of the store on text columns. *)
Definition ltb (a b : string) : bool := String.ltb a b.
Definition eqb (a b : string) : bool := String.eqb a b.
(** JavaScript truthiness of a string: only the empty string is falsy. *)
Definition truthy (s : string) : bool := negb (String.eqb s EmptyString).
End Text.

Module Number.
(** Comparisons of JavaScript numbers. *)
Definition leb (a b : Q) : bool := Qle_bool a b.
Definition ltb (a b : Q) : bool := negb (Qle_bool b a).
Definition eqb (a b : Q) : bool := Qeq_bool a b.
Definition ofLength {A} (l : list A) : Q := inject_Z (Z.of_nat (List.length l)).
Definition isInteger (a : Q) : bool := Qeq_bool a (inject_Z (Qfloor a)).
End Number.

(* ------------------------------------------------------------------ *)
(** ** The tables of '@/db/schema' that the procedures read *)

Inductive visibility := Public | Private.
Inductive reactionType := Like | Dislike.

Definition visibility_eqb (a b : visibility) : bool :=
  match a, b with Public, Public | Private, Private => true | _, _ => false end.

Definition reactionType_eqb (a b : reactionType) : bool :=
  match a, b with Like, Like | Dislike, Dislike => true | _, _ => false end.

Record userRow := mkUser {
  users_id : string;
  users_clerkId : string }.

Record videoRow := mkVideo {
  videos_id : string;
  videos_userId : string;
  videos_categoryId : option string;
  videos_visibility : visibility;
  videos_updatedAt : Z }.

Record playlistRow := mkPlaylist {
  playlists_id : string;
  playlists_userId : string;
  playlists_name : string;
  playlists_updatedAt : Z }.

Record playlistVideoRow := mkPlaylistVideo {
  playlistVideos_playlistId : string;
  playlistVideos_videoId : string }.

Record videoViewRow := mkVideoView {
  videoViews_userId : string;
  videoViews_videoId : string;
  videoViews_updatedAt : Z }.

Record videoReactionRow := mkVideoReaction {
  videoReactions_userId : string;
  videoReactions_videoId : string;
  videoReactions_type : reactionType;
  videoReactions_createdAt : Z }.

Record subscriptionRow := mkSubscription {
  subscriptions_viewerId : string;
  subscriptions_creatorId : string }.

Record database := mkDb {
  videos : list videoRow;
  users : list userRow;
  playlists : list playlistRow;
  playlistVideos : list playlistVideoRow;
  videoViews : list videoViewRow;
  videoReactions : list videoReactionRow;
  subscriptions : list subscriptionRow }.

Inductive table :=
  Tvideos | Tusers | Tplaylists | TplaylistVideos | TvideoViews
| TvideoReactions | Tsubscriptions.

(* ------------------------------------------------------------------ *)
(** ** Procedures: store, trace of store operations, thrown errors *)

(** One entry per statement sent to the store: a read with its row cap
    ([None] when the read has no [.limit]) or an insert. *)
Inductive storeOp :=
| Select (from : table) (cap : option Q)
| InsertInto (into : table).

Record world := mkWorld {
  store : database;
  trace : list storeOp }.

Inductive code := BAD_REQUEST | NOT_FOUND | CONFLICT | INTERNAL_SERVER_ERROR.

(** What a procedure can throw: a [TRPCError] (the input parser throws
    BAD_REQUEST), an error of the store, or a JavaScript [TypeError]. *)
Inductive failure :=
| TRPCError (c : code)
| StoreError
| TypeError.

Inductive outcome (A : Type) :=
| Return (a : A)
| Throw (e : failure).
Arguments Return {A} a.
Arguments Throw {A} e.

Definition M (A : Type) : Type := world -> outcome A * world.

Definition ret {A} (a : A) : M A := fun w => (Return a, w).
Definition throw {A} (e : failure) : M A := fun w => (Throw e, w).
Definition bind {A B} (m : M A) (k : A -> M B) : M B :=
  fun w => match m w with
           | (Return a, w') => k a w'
           | (Throw e, w') => (Throw e, w')
           end.

Notation "x <- m ;; k" := (bind m (fun x => k))
  (at level 61, m at next level, right associativity).

Definition logOp (op : storeOp) (w : world) : world :=
  {| store := store w; trace := trace w ++ [op] |}.

(** [LIMIT n]: a cap that is a non-negative integer keeps the first [n]
    rows.  The store takes a row count; what it does with any other cap is
    not decided by these sources, the embedding has it refuse the
    statement, and no property below rests on that choice. *)
Definition sql_limit {R} (n : Q) (rows : list R) : option (list R) :=
  if Number.isInteger n && Number.leb 0 n
  then Some (firstn (Z.to_nat (Qfloor n)) rows)
  else None.

(** [await db.select(..).from(t)...] without [.limit]. *)
Definition select {R} (from : table) (q : database -> list R) : M (list R) :=
  fun w => (Return (q (store w)), logOp (Select from None) w).

(** [await db.select(..).from(t)....limit(n)]. *)
Definition select_limit {R} (from : table) (q : database -> list R) (n : Q)
  : M (list R) :=
  fun w => match sql_limit n (q (store w)) with
           | Some rows => (Return rows, logOp (Select from (Some n)) w)
           | None => (Throw StoreError, logOp (Select from (Some n)) w)
           end.

(** [await db.insert(playlistVideos).values(row).returning()]. *)
Definition insert_playlistVideos (row : playlistVideoRow)
  : M (list playlistVideoRow) :=
  fun w =>
    let db := store w in
    (Return [row],
     {| store := mkDb (videos db) (users db) (playlists db)
                      (playlistVideos db ++ [row]) (videoViews db)
                      (videoReactions db) (subscriptions db);
        trace := trace w ++ [InsertInto TplaylistVideos] |}).

(* ------------------------------------------------------------------ *)
(** ** Query combinators (drizzle-orm) *)

Section Query.
Context {R : Type}.

Definition cond := R -> bool.

(** [eq(col, v)] and [lt(col, v)] on text, on dates and integer counts,
      and between an integer count and a JavaScript number. *)
Definition eqT (col : R -> string) (v : string) : cond :=
    fun r => Text.eqb (col r) v.
Definition ltT (col : R -> string) (v : string) : cond :=
    fun r => Text.ltb (col r) v.
(** [eq] on a nullable text column: NULL equals nothing. *)
Definition eqTnull (col : R -> option string) (v : string) : cond :=
    fun r => match col r with Some x => Text.eqb x v | None => false end.
Definition eqD (col : R -> Z) (v : Z) : cond := fun r => col r =? v.
Definition ltD (col : R -> Z) (v : Z) : cond := fun r => col r <? v.
Definition eqN (col : R -> Z) (v : Q) : cond :=
    fun r => Number.eqb (inject_Z (col r)) v.
Definition ltN (col : R -> Z) (v : Q) : cond :=
    fun r => Number.ltb (inject_Z (col r)) v.
Definition eqV (col : R -> visibility) (v : visibility) : cond :=
    fun r => visibility_eqb (col r) v.

(** [or(p, q)]. *)
Definition or_ (p q : cond) : cond := fun r => p r || q r.

(** [and(c1, .., cn)]: an [undefined] conjunct is dropped. *)
Definition and_ (cs : list (option cond)) : cond :=
    fun r => forallb (fun c => match c with Some p => p r | None => true end) cs.

(** [.where(p)]. *)
Definition where_ (p : cond) (rows : list R) : list R := filter p rows.

(** [.orderBy(desc(k1), desc(k2))]: [a] comes no later than [b]. *)
Definition desc2 (k1 : R -> Z) (k2 : R -> string) (a b : R) : bool :=
    (k1 b <? k1 a) || ((k1 b =? k1 a) && negb (Text.ltb (k2 a) (k2 b))).

Fixpoint insert_desc (k1 : R -> Z) (k2 : R -> string) (x : R) (l : list R)
    : list R :=
    match l with
    | [] => [x]
    | y :: l' => if desc2 k1 k2 x y then x :: l
                 else y :: insert_desc k1 k2 x l'
    end.

Definition orderBy (k1 : R -> Z) (k2 : R -> string) (rows : list R)
    : list R :=
    fold_right (insert_desc k1 k2) [] rows.
End Query.

(** [a.innerJoin(b, on)]. *)
Definition innerJoin {A B} (a : list A) (b : list B) (on : A -> B -> bool)
  : list (A * B) :=
  flat_map (fun x => map (pair x) (filter (on x) b)) a.

(** [db.$count(t, p)]. *)
Definition count {A} (t : list A) (p : A -> bool) : Z :=
  Z.of_nat (List.length (filter p t)).

(** [a.leftJoin(b, on)]: a row of [a] without a partner is kept, with
    NULL columns for [b]. *)
Definition leftJoin {A B} (a : list A) (b : list B) (on : A -> B -> bool)
  : list (A * option B) :=
  flat_map (fun x => match filter (on x) b with
                     | [] => [(x, None)]
                     | ys => map (fun y => (x, Some y)) ys
                     end) a.

(** [inArray(col, v ? [v] : [])]: no row when [v] is undefined or falsy. *)
Definition inArrayOf {R} (col : R -> string) (v : option string)
  : cond (R := R) :=
  fun r => match v with
           | Some s => if Text.truthy s then Text.eqb (col r) s else false
           | None => false
           end.

(* ------------------------------------------------------------------ *)
(** ** Writes of the other procedures

    The trace keeps the reads and the inserts; a delete or an update
    changes the store and leaves the trace as it is.  What the foreign
    keys of the schema do to other tables when a row goes is outside these
    sources: a statement changes the table it names. *)

(** [await db.insert(playlists).values(row).returning()]. *)
Definition insert_playlists (row : playlistRow) : M (list playlistRow) :=
  fun w =>
    let db := store w in
    (Return [row],
     {| store := mkDb (videos db) (users db) (playlists db ++ [row])
                      (playlistVideos db) (videoViews db)
                      (videoReactions db) (subscriptions db);
        trace := trace w ++ [InsertInto Tplaylists] |}).

(** [await db.delete(playlists).where(p).returning()]. *)
Definition delete_playlists (p : playlistRow -> bool) : M (list playlistRow) :=
  fun w =>
    let db := store w in
    (Return (filter p (playlists db)),
     {| store := mkDb (videos db) (users db)
                      (filter (fun r => negb (p r)) (playlists db))
                      (playlistVideos db) (videoViews db)
                      (videoReactions db) (subscriptions db);
        trace := trace w |}).

(** [await db.delete(playlistVideos).where(p).returning()]. *)
Definition delete_playlistVideos (p : playlistVideoRow -> bool)
  : M (list playlistVideoRow) :=
  fun w =>
    let db := store w in
    (Return (filter p (playlistVideos db)),
     {| store := mkDb (videos db) (users db) (playlists db)
                      (filter (fun r => negb (p r)) (playlistVideos db))
                      (videoViews db) (videoReactions db) (subscriptions db);
        trace := trace w |}).

(** [await db.update(videos).set(..).where(p).returning()]; [assign] is
    what the assignment makes of a row. *)
Definition update_videos (p : videoRow -> bool) (assign : videoRow -> videoRow)
  : M (list videoRow) :=
  fun w =>
    let db := store w in
    (Return (map assign (filter p (videos db))),
     {| store := mkDb (map (fun v => if p v then assign v else v) (videos db))
                      (users db) (playlists db) (playlistVideos db)
                      (videoViews db) (videoReactions db) (subscriptions db);
        trace := trace w |}).

(* ------------------------------------------------------------------ *)
(** ** Cursors, pages and the trimming of a read *)

(** [{ id, updatedAt }], [{ id, viewedAt }], [{ id, likedAt }] with
    [K := Z]; [{ id, viewCount }] with [K := Q]. *)
Record Cursor (K : Type) := mkCursor {
  id : string;
  sortKey : K }.

Record Page (R K : Type) := mkPage {
  items : list R;
  nextCursor : option (Cursor K) }.

(** The tail of every list handler:
<<
    const hasMore = data.length > limit
    const items = hasMore ? data.slice(0, -1) : data
    const lastItem = items[items.length - 1]
    const nextCursor = hasMore ? { id: lastItem.id, .. } : null
    return { items, nextCursor }
>>
    Reading [lastItem.id] when [lastItem] is undefined is a [TypeError]. *)
Definition trim {R K} (cursorOf : R -> Cursor K) (limit : Q) (data : list R)
  : M (Page R K) :=
  let hasMore := Number.ltb limit (Number.ofLength data) in
  let items := if hasMore then removelast data else data in
  let lastItem := nth_error items (List.length items - 1) in
  if hasMore
  then match lastItem with
       | Some last => ret (mkPage items (Some (cursorOf last)))
       | None => throw TypeError
       end
  else ret (mkPage items None).

(** The chain of calls of the enumeration guarantee: start from a cursor,
    call, and call again with the [nextCursor] of the page just received,
    until a page carries [null]; the pages are returned in the order
    received.  [None] when [fuel] calls did not reach a null cursor. *)
Fixpoint enumerate {R K} (call : option (Cursor K) -> M (Page R K))
  (fuel : nat) (c : option (Cursor K)) : M (option (list (Page R K))) :=
  match fuel with
  | O => ret None
  | S fuel' =>
      p <- call c ;;
      match nextCursor p with
      | None => ret (Some [p])
      | Some c' =>
          rest <- enumerate call fuel' (Some c') ;;
          ret (option_map (cons p) rest)
      end
  end.

(* ------------------------------------------------------------------ *)
(** ** Input schemas (zod) *)

(** [z.number().min(1).max(100)]. *)
Definition limitSchema (limit : Q) : bool :=
  Number.leb 1 limit && Number.leb limit 100.

Section Schemas.
(** [z.string().cuid2()]: the check of the zod version in use. *)
Variable cuid2 : string -> bool.

(** [z.string().cuid2().nullish()]. *)
Definition cuid2Nullish (s : option string) : bool :=
  match s with Some s => cuid2 s | None => true end.

(** [z.object({ id: z.string().cuid2(), <key>: .. }).nullish()]; the key is
    a [z.date()] or a [z.number()], which the type of [K] carries. *)
Definition cursorSchema {K} (c : option (Cursor K)) : bool :=
  match c with Some c => cuid2 (id c) | None => true end.
End Schemas.

(* ------------------------------------------------------------------ *)
(** ** The columns selected for a video by every video listing *)

Record videoItem := mkVideoItem {
  video : videoRow;
  user : userRow;
  viewCount : Z;
  likeCount : Z;
  dislikeCount : Z }.

(** [db.$count(videoViews, eq(videoViews.videoId, videos.id))]. *)
Definition viewCountSubquery (db : database) (v : videoRow) : Z :=
  count (videoViews db) (eqT videoViews_videoId (videos_id v)).

(** [{ ...getTableColumns(videos), user: users, viewCount, likeCount,
    dislikeCount }] on a row of [videos] joined with [users]. *)
Definition videoColumns (db : database) (vu : videoRow * userRow) : videoItem :=
  let (v, u) := vu in
  {| video := v;
     user := u;
     viewCount := viewCountSubquery db v;
     likeCount :=
       count (videoReactions db)
         (and_ [Some (eqT videoReactions_videoId (videos_id v));
                Some (fun r => reactionType_eqb (videoReactions_type r) Like)]);
     dislikeCount :=
       count (videoReactions db)
         (and_ [Some (eqT videoReactions_videoId (videos_id v));
                Some (fun r => reactionType_eqb (videoReactions_type r) Dislike)]) |}.

(** [.from(videos).innerJoin(users, eq(videos.userId, users.id))]. *)
Definition videosWithUsers (db : database) : list (videoRow * userRow) :=
  innerJoin (videos db) (users db)
    (fun v u => Text.eqb (videos_userId v) (users_id u)).

Definition item_id (i : videoItem) : string := videos_id (video i).
Definition item_updatedAt (i : videoItem) : Z := videos_updatedAt (video i).
Definition item_visibility (i : videoItem) : visibility :=
  videos_visibility (video i).

(** The row of [videos.getOne]: the columns of a listing, and for the
    viewer [viewerSubscribed] and [subscriberCount] (nested under [user] in
    the source) and [viewerReaction]. *)
Record videoDetail := mkVideoDetail {
  detail : videoItem;
  viewerSubscribed : bool;
  subscriberCount : Z;
  viewerReaction : option reactionType }.

(* ------------------------------------------------------------------ *)
(** ** videosRouter

    Each list procedure is split the way its builder chain reads:
    [<name>_where] is the argument of [.where], [<name>_rows] the statement
    up to [.orderBy], and the procedure parses its input, sends the
    statement with [.limit(limit + 1)] and trims. *)

Module videosRouter.

Definition getMany_where (userId categoryId : option string)
  (cursor : option (Cursor Z)) : cond (R := videoItem) :=
  and_ [Some (eqV item_visibility Public);
        match userId with
        | Some u => if Text.truthy u
                    then Some (eqT (fun i => videos_userId (video i)) u)
                    else None
        | None => None
        end;
        match categoryId with
        | Some c => if Text.truthy c
                    then Some (eqTnull (fun i => videos_categoryId (video i)) c)
                    else None
        | None => None
        end;
        match cursor with
        | Some c =>
            Some (or_ (ltD item_updatedAt (sortKey c))
                    (and_ [Some (eqD item_updatedAt (sortKey c));
                           Some (ltT item_id (id c))]))
        | None => None
        end].

Definition getMany_rows (userId categoryId : option string)
  (cursor : option (Cursor Z)) (db : database) : list videoItem :=
  orderBy item_updatedAt item_id
    (where_ (getMany_where userId categoryId cursor)
       (map (videoColumns db) (videosWithUsers db))).

Definition getManyTrending_where (cursor : option (Cursor Q))
  : cond (R := videoItem) :=
  and_ [Some (eqV item_visibility Public);
        match cursor with
        | Some c =>
            Some (or_ (ltN viewCount (sortKey c))
                    (and_ [Some (eqN viewCount (sortKey c));
                           Some (ltT item_id (id c))]))
        | None => None
        end].

Definition getManyTrending_rows (cursor : option (Cursor Q)) (db : database)
  : list videoItem :=
  orderBy viewCount item_id
    (where_ (getManyTrending_where cursor)
       (map (videoColumns db) (videosWithUsers db))).

(** [db.$with('viewer_subscriptions')]: [{ userId: subscriptions.creatorId }]
    of the viewer's subscriptions. *)
Definition viewerSubscriptions (userId : string) (db : database)
  : list string :=
  map subscriptions_creatorId
    (where_ (eqT subscriptions_viewerId userId) (subscriptions db)).

Definition getManySubscribed_where (cursor : option (Cursor Z))
  : cond (R := videoItem) :=
  and_ [Some (eqV item_visibility Public);
        match cursor with
        | Some c =>
            Some (or_ (ltD item_updatedAt (sortKey c))
                    (and_ [Some (eqD item_updatedAt (sortKey c));
                           Some (ltT item_id (id c))]))
        | None => None
        end].

Definition getManySubscribed_rows (userId : string)
  (cursor : option (Cursor Z)) (db : database) : list videoItem :=
  orderBy item_updatedAt item_id
    (where_ (getManySubscribed_where cursor)
       (map (fun vus => videoColumns db (fst vus))
          (innerJoin (videosWithUsers db) (viewerSubscriptions userId db)
             (fun vu s => Text.eqb (users_id (snd vu)) s)))).

Section Procedures.
Variable cuid2 : string -> bool.

(** [getMany] (baseProcedure). *)
Definition getMany (userId categoryId : option string)
  (cursor : option (Cursor Z)) (limit : Q) : M (Page videoItem Z) :=
  if cuid2Nullish cuid2 categoryId && cursorSchema cuid2 cursor
     && limitSchema limit
  then
    data <- select_limit Tvideos (getMany_rows userId categoryId cursor)
              (limit + 1)%Q ;;
    trim (fun lastItem => mkCursor (item_id lastItem) (item_updatedAt lastItem))
      limit data
  else throw (TRPCError BAD_REQUEST).

(** [getManyTrending] (baseProcedure); the cursor key is [viewCount], a
    [z.number()]. *)
Definition getManyTrending (cursor : option (Cursor Q)) (limit : Q)
  : M (Page videoItem Q) :=
  if cursorSchema cuid2 cursor && limitSchema limit
  then
    data <- select_limit Tvideos (getManyTrending_rows cursor) (limit + 1)%Q ;;
    trim (fun lastItem => mkCursor (item_id lastItem)
                            (inject_Z (viewCount lastItem)))
      limit data
  else throw (TRPCError BAD_REQUEST).

(** [getManySubscribed] (protectedProcedure). *)
Definition getManySubscribed (userId : string) (cursor : option (Cursor Z))
  (limit : Q) : M (Page videoItem Z) :=
  if cursorSchema cuid2 cursor && limitSchema limit
  then
    data <- select_limit Tvideos (getManySubscribed_rows userId cursor)
              (limit + 1)%Q ;;
    trim (fun lastItem => mkCursor (item_id lastItem) (item_updatedAt lastItem))
      limit data
  else throw (TRPCError BAD_REQUEST).

(** [getOne] (baseProcedure): the lookup of the viewer by [clerkUserId]. *)
Definition getOne_user (clerkUserId : option string) (db : database)
  : list userRow :=
  where_ (inArrayOf users_clerkId clerkUserId) (users db).

(** [db.$with('viewer_reactions')]: [{ videoId, type }] of the viewer. *)
Definition viewerReactions (userId : option string) (db : database)
  : list (string * reactionType) :=
  map (fun r => (videoReactions_videoId r, videoReactions_type r))
    (where_ (inArrayOf videoReactions_userId userId) (videoReactions db)).

(** [db.$with('viewer_subscriptions')] of [getOne]: the viewer's rows of
    [subscriptions]. *)
Definition getOne_viewerSubscriptions (userId : option string) (db : database)
  : list subscriptionRow :=
  where_ (inArrayOf subscriptions_viewerId userId) (subscriptions db).

(** The statement of [getOne]: [videos] joined with [users], left-joined
    with the viewer's reactions and subscriptions, for one video id. *)
Definition getOne_rows (userId : option string) (id : string) (db : database)
  : list videoDetail :=
  map (fun row =>
         {| detail := videoColumns db (fst (fst row));
            viewerSubscribed :=
              match snd row with Some _ => true | None => false end;
            subscriberCount :=
              count (subscriptions db)
                (eqT subscriptions_creatorId (users_id (snd (fst (fst row)))));
            viewerReaction := option_map snd (snd (fst row)) |})
    (where_ (eqT (fun row => videos_id (fst (fst (fst row)))) id)
       (leftJoin
          (leftJoin (videosWithUsers db) (viewerReactions userId db)
             (fun vu r => Text.eqb (videos_id (fst vu)) (fst r)))
          (getOne_viewerSubscriptions userId db)
          (fun vur s =>
             Text.eqb (subscriptions_creatorId s) (users_id (snd (fst vur)))))).

(** [getOne] (baseProcedure); [clerkUserId] comes from the context and is
    null for an anonymous caller. *)
Definition getOne (clerkUserId : option string) (id : string) : M videoDetail :=
  if cuid2 id
  then
    user <- select Tusers (getOne_user clerkUserId) ;;
    let userId := match user with
                  | u :: _ => Some (users_id u)
                  | [] => None
                  end in
    video <- select Tvideos (getOne_rows userId id) ;;
    match video with
    | [] => throw (TRPCError NOT_FOUND)
    | v :: _ => ret v
    end
  else throw (TRPCError BAD_REQUEST).

(** [update] (protectedProcedure, mutation), on an input that
    [videoUpdateSchema] has parsed: [inputId] is [input.id], and [assign]
    is what [.set({ title, description, categoryId, visibility })] makes of
    a row. *)
Definition update (userId : string) (inputId : option string)
  (assign : videoRow -> videoRow) : M videoRow :=
  match inputId with
  | Some id =>
      if Text.truthy id
      then
        updatedVideo <- update_videos
          (and_ [Some (eqT videos_id id); Some (eqT videos_userId userId)])
          assign ;;
        match updatedVideo with
        | [] => throw (TRPCError NOT_FOUND)
        | v :: _ => ret v
        end
      else throw (TRPCError BAD_REQUEST)
  | None => throw (TRPCError BAD_REQUEST)
  end.

End Procedures.
End videosRouter.

(* ------------------------------------------------------------------ *)
(** ** playlistsRouter *)

(** A row of [playlists.getMany] and [getManyForVideo]: the playlist's
    columns, [videoCount], [user] and [containsVideo].  The [thumbnailUrl]
    that [getMany] selects (a scalar subquery over [playlistVideos] and
    [videos]) takes no part in filtering, ordering or trimming and is left
    out. *)
Record playlistItem := mkPlaylistItem {
  playlist : playlistRow;
  videoCount : Z;
  playlistUser : userRow;
  containsVideo : bool }.

Definition playlist_id (i : playlistItem) : string := playlists_id (playlist i).
Definition playlist_userId (i : playlistItem) : string :=
  playlists_userId (playlist i).
Definition playlist_updatedAt (i : playlistItem) : Z :=
  playlists_updatedAt (playlist i).

(** A video of the watch history with its [viewedAt], of the liked videos
    with its [likedAt]. *)
Record datedItem := mkDatedItem {
  dated : videoItem;
  datedAt : Z }.

Definition dated_id (i : datedItem) : string := item_id (dated i).
Definition dated_updatedAt (i : datedItem) : Z := item_updatedAt (dated i).
Definition dated_visibility (i : datedItem) : visibility :=
  item_visibility (dated i).

Module playlistsRouter.

(** [.from(playlists).innerJoin(users, eq(playlists.userId, users.id))] with
    the selected columns; [contains p] is the [containsVideo] column
    ([false] where the procedure selects none). *)
Definition playlistsWithUsers (db : database) (contains : playlistRow -> bool)
  : list playlistItem :=
  map (fun pu =>
         {| playlist := fst pu;
            videoCount :=
              count (playlistVideos db)
                (eqT playlistVideos_playlistId (playlists_id (fst pu)));
            playlistUser := snd pu;
            containsVideo := contains (fst pu) |})
    (innerJoin (playlists db) (users db)
       (fun p u => Text.eqb (playlists_userId p) (users_id u))).

(** The lookup shared by [addVideo], [removeVideo], [getVideos], [getOne]:
    [db.select().from(playlists).where(and(eq(playlists.id, playlistId),
    eq(playlists.userId, userId)))]. *)
Definition existingPlaylistQuery (playlistId userId : string) (db : database)
  : list playlistRow :=
  where_ (and_ [Some (eqT playlists_id playlistId);
                Some (eqT playlists_userId userId)])
    (playlists db).

Definition existingVideoQuery (videoId : string) (db : database)
  : list videoRow :=
  where_ (eqT videos_id videoId) (videos db).

Definition existingPlaylistVideoQuery (playlistId videoId : string)
  (db : database) : list playlistVideoRow :=
  where_ (and_ [Some (eqT playlistVideos_playlistId playlistId);
                Some (eqT playlistVideos_videoId videoId)])
    (playlistVideos db).

(** The [.where] of [getMany] and of [getManyForVideo]. *)
Definition getMany_where (userId : string) (cursor : option (Cursor Z))
  : cond (R := playlistItem) :=
  and_ [Some (eqT playlist_userId userId);
        match cursor with
        | Some c =>
            Some (or_ (ltD playlist_updatedAt (sortKey c))
                    (and_ [Some (eqD playlist_updatedAt (sortKey c));
                           Some (ltT playlist_id (id c))]))
        | None => None
        end].

Definition getMany_rows (userId : string) (cursor : option (Cursor Z))
  (db : database) : list playlistItem :=
  orderBy playlist_updatedAt playlist_id
    (where_ (getMany_where userId cursor)
       (playlistsWithUsers db (fun _ => false))).

(** [containsVideo] of [getManyForVideo]:
    [videoId ? sql`(SELECT EXISTS (..))` : sql`false`]. *)
Definition containsVideoColumn (videoId : string) (db : database)
  (p : playlistRow) : bool :=
  if Text.truthy videoId
  then existsb
         (and_ [Some (eqT playlistVideos_playlistId (playlists_id p));
                Some (eqT playlistVideos_videoId videoId)])
         (playlistVideos db)
  else false.

Definition getManyForVideo_rows (userId videoId : string)
  (cursor : option (Cursor Z)) (db : database) : list playlistItem :=
  orderBy playlist_updatedAt playlist_id
    (where_ (getMany_where userId cursor)
       (playlistsWithUsers db (containsVideoColumn videoId db))).

(** [db.$with('viewer_video_views')]: [{ videoId, viewedAt: updatedAt }] of
    the viewer's views. *)
Definition viewerVideoViews (userId : string) (db : database)
  : list (string * Z) :=
  map (fun vv => (videoViews_videoId vv, videoViews_updatedAt vv))
    (where_ (eqT videoViews_userId userId) (videoViews db)).

(** The [.where] of [getHistory] and of [getLiked]: the cursor is compared
    with [viewedAt], respectively [likedAt]. *)
Definition dated_where (cursor : option (Cursor Z)) : cond (R := datedItem) :=
  and_ [Some (eqV dated_visibility Public);
        match cursor with
        | Some c =>
            Some (or_ (ltD datedAt (sortKey c))
                    (and_ [Some (eqD datedAt (sortKey c));
                           Some (ltT dated_id (id c))]))
        | None => None
        end].

(** [getHistory]: [.orderBy(desc(videos.updatedAt), desc(videos.id))]. *)
Definition getHistory_rows (userId : string) (cursor : option (Cursor Z))
  (db : database) : list datedItem :=
  orderBy dated_updatedAt dated_id
    (where_ (dated_where cursor)
       (map (fun vuw => {| dated := videoColumns db (fst vuw);
                           datedAt := snd (snd vuw) |})
          (innerJoin (videosWithUsers db) (viewerVideoViews userId db)
             (fun vu w => Text.eqb (videos_id (fst vu)) (fst w))))).

(** [db.$with('viewer_video_reactions')]: [{ videoId, likedAt: createdAt }]
    of the viewer's likes. *)
Definition viewerVideoReactions (userId : string) (db : database)
  : list (string * Z) :=
  map (fun r => (videoReactions_videoId r, videoReactions_createdAt r))
    (where_
       (and_ [Some (eqT videoReactions_userId userId);
              Some (fun r => reactionType_eqb (videoReactions_type r) Like)])
       (videoReactions db)).

(** [getLiked]: [.orderBy(desc(viewerVideoReactions.likedAt),
    desc(videos.id))]. *)
Definition getLiked_rows (userId : string) (cursor : option (Cursor Z))
  (db : database) : list datedItem :=
  orderBy datedAt dated_id
    (where_ (dated_where cursor)
       (map (fun vur => {| dated := videoColumns db (fst vur);
                           datedAt := snd (snd vur) |})
          (innerJoin (videosWithUsers db) (viewerVideoReactions userId db)
             (fun vu r => Text.eqb (videos_id (fst vu)) (fst r))))).

(** [db.$with('playlist_videos')]: [{ videoId }] of the playlist. *)
Definition videosFromPlaylist (playlistId : string) (db : database)
  : list string :=
  map playlistVideos_videoId
    (where_ (eqT playlistVideos_playlistId playlistId) (playlistVideos db)).

Definition getVideos_where (cursor : option (Cursor Z))
  : cond (R := videoItem) :=
  and_ [Some (eqV item_visibility Public);
        match cursor with
        | Some c =>
            Some (or_ (ltD item_updatedAt (sortKey c))
                    (and_ [Some (eqD item_updatedAt (sortKey c));
                           Some (ltT item_id (id c))]))
        | None => None
        end].

Definition getVideos_rows (playlistId : string) (cursor : option (Cursor Z))
  (db : database) : list videoItem :=
  orderBy item_updatedAt item_id
    (where_ (getVideos_where cursor)
       (map (fun vup => videoColumns db (fst vup))
          (innerJoin (videosWithUsers db) (videosFromPlaylist playlistId db)
             (fun vu p => Text.eqb (videos_id (fst vu)) p)))).

Section Procedures.
Variable cuid2 : string -> bool.

(** [addVideo] (protectedProcedure, mutation). *)
Definition addVideo (userId playlistId videoId : string) : M playlistVideoRow :=
  if cuid2 playlistId && cuid2 videoId
  then
    existingPlaylist <- select Tplaylists
      (existingPlaylistQuery playlistId userId) ;;
    match existingPlaylist with
    | [] => throw (TRPCError NOT_FOUND)
    | _ :: _ =>
        existingVideo <- select Tvideos (existingVideoQuery videoId) ;;
        match existingVideo with
        | [] => throw (TRPCError NOT_FOUND)
        | _ :: _ =>
            existingPlaylistVideo <- select TplaylistVideos
              (existingPlaylistVideoQuery playlistId videoId) ;;
            match existingPlaylistVideo with
            | _ :: _ => throw (TRPCError CONFLICT)
            | [] =>
                newPlaylistVideo <- insert_playlistVideos
                  (mkPlaylistVideo playlistId videoId) ;;
                match newPlaylistVideo with
                | [] => throw (TRPCError INTERNAL_SERVER_ERROR)
                | row :: _ => ret row
                end
            end
        end
    end
  else throw (TRPCError BAD_REQUEST).

(** [getMany] (protectedProcedure). *)
Definition getMany (userId : string) (cursor : option (Cursor Z)) (limit : Q)
  : M (Page playlistItem Z) :=
  if cursorSchema cuid2 cursor && limitSchema limit
  then
    data <- select_limit Tplaylists (getMany_rows userId cursor)
              (limit + 1)%Q ;;
    trim (fun lastItem => mkCursor (playlist_id lastItem)
                            (playlist_updatedAt lastItem))
      limit data
  else throw (TRPCError BAD_REQUEST).

(** [getManyForVideo] (protectedProcedure). *)
Definition getManyForVideo (userId videoId : string)
  (cursor : option (Cursor Z)) (limit : Q) : M (Page playlistItem Z) :=
  if cuid2 videoId && cursorSchema cuid2 cursor && limitSchema limit
  then
    data <- select_limit Tplaylists
              (getManyForVideo_rows userId videoId cursor) (limit + 1)%Q ;;
    trim (fun lastItem => mkCursor (playlist_id lastItem)
                            (playlist_updatedAt lastItem))
      limit data
  else throw (TRPCError BAD_REQUEST).

(** [getHistory] (protectedProcedure). *)
Definition getHistory (userId : string) (cursor : option (Cursor Z))
  (limit : Q) : M (Page datedItem Z) :=
  if cursorSchema cuid2 cursor && limitSchema limit
  then
    data <- select_limit Tvideos (getHistory_rows userId cursor)
              (limit + 1)%Q ;;
    trim (fun lastItem => mkCursor (dated_id lastItem) (datedAt lastItem))
      limit data
  else throw (TRPCError BAD_REQUEST).

(** [getLiked] (protectedProcedure). *)
Definition getLiked (userId : string) (cursor : option (Cursor Z))
  (limit : Q) : M (Page datedItem Z) :=
  if cursorSchema cuid2 cursor && limitSchema limit
  then
    data <- select_limit Tvideos (getLiked_rows userId cursor)
              (limit + 1)%Q ;;
    trim (fun lastItem => mkCursor (dated_id lastItem) (datedAt lastItem))
      limit data
  else throw (TRPCError BAD_REQUEST).

(** [getVideos] (protectedProcedure). *)
Definition getVideos (userId playlistId : string) (cursor : option (Cursor Z))
  (limit : Q) : M (Page videoItem Z) :=
  if cuid2 playlistId && cursorSchema cuid2 cursor && limitSchema limit
  then
    existingPlaylist <- select Tplaylists
      (existingPlaylistQuery playlistId userId) ;;
    match existingPlaylist with
    | [] => throw (TRPCError NOT_FOUND)
    | _ :: _ =>
        data <- select_limit Tvideos (getVideos_rows playlistId cursor)
                  (limit + 1)%Q ;;
        trim (fun lastItem => mkCursor (item_id lastItem)
                                (item_updatedAt lastItem))
          limit data
    end
  else throw (TRPCError BAD_REQUEST).

(** [z.string().min(1).max(100)] on [name]; a character of the model is
    a code unit of the JavaScript string. *)
Definition nameSchema (name : string) : bool :=
  ((1 <=? String.length name) && (String.length name <=? 100))%nat.

(** [create] (protectedProcedure, mutation).  [newId] and [now] are the id
    and the timestamp the defaults of the schema give the new row. *)
Definition create (newId : string) (now : Z) (userId name : string)
  : M playlistRow :=
  if nameSchema name
  then
    newPlaylist <- insert_playlists (mkPlaylist newId userId name now) ;;
    match newPlaylist with
    | [] => throw (TRPCError INTERNAL_SERVER_ERROR)
    | row :: _ => ret row
    end
  else throw (TRPCError BAD_REQUEST).

(** [removeVideo] (protectedProcedure, mutation). *)
Definition removeVideo (userId playlistId videoId : string)
  : M playlistVideoRow :=
  if cuid2 playlistId && cuid2 videoId
  then
    existingPlaylist <- select Tplaylists
      (existingPlaylistQuery playlistId userId) ;;
    match existingPlaylist with
    | [] => throw (TRPCError NOT_FOUND)
    | _ :: _ =>
        existingVideo <- select Tvideos (existingVideoQuery videoId) ;;
        match existingVideo with
        | [] => throw (TRPCError NOT_FOUND)
        | _ :: _ =>
            existingPlaylistVideo <- select TplaylistVideos
              (existingPlaylistVideoQuery playlistId videoId) ;;
            match existingPlaylistVideo with
            | [] => throw (TRPCError NOT_FOUND)
            | _ :: _ =>
                removedPlaylistVideo <- delete_playlistVideos
                  (and_ [Some (eqT playlistVideos_playlistId playlistId);
                         Some (eqT playlistVideos_videoId videoId)]) ;;
                match removedPlaylistVideo with
                | [] => throw (TRPCError INTERNAL_SERVER_ERROR)
                | row :: _ => ret row
                end
            end
        end
    end
  else throw (TRPCError BAD_REQUEST).

(** [getOne] (protectedProcedure). *)
Definition getOne (userId id : string) : M playlistRow :=
  if cuid2 id
  then
    existingPlaylist <- select Tplaylists (existingPlaylistQuery id userId) ;;
    match existingPlaylist with
    | [] => throw (TRPCError NOT_FOUND)
    | row :: _ => ret row
    end
  else throw (TRPCError BAD_REQUEST).

(** [remove] (protectedProcedure, mutation). *)
Definition remove (userId id : string) : M playlistRow :=
  if cuid2 id
  then
    deletedPlaylist <- delete_playlists
      (and_ [Some (eqT playlists_id id); Some (eqT playlists_userId userId)]) ;;
    match deletedPlaylist with
    | [] => throw (TRPCError NOT_FOUND)
    | row :: _ => ret row
    end
  else throw (TRPCError BAD_REQUEST).

End Procedures.
End playlistsRouter.

(* ------------------------------------------------------------------ *)
(** ** Vocabulary of the properties *)

Section Order.
Context {R : Type}.
Variables (key : R -> Z) (rid : R -> string).

(** [a] comes strictly before [b] in descending [(sortKey, id)] order. *)
Definition before (a b : R) : bool :=
  (key b <? key a) || ((key b =? key a) && Text.ltb (rid b) (rid a)).

(** A list is strictly descending by [(sortKey, id)]. *)
Definition descending (l : list R) : Prop :=
  StronglySorted (fun a b => before a b = true) l.

(** The cursor that designates a row. *)
Definition cursorAt (r : R) : Cursor Z := mkCursor (rid r) (key r).

(** The clause every list procedure adds to its [.where] for a cursor [c],
    over the columns [key] and [rid]. *)
Definition keysetClause (c : Cursor Z) : cond (R := R) :=
  or_ (ltD key (sortKey c))
    (and_ [Some (eqD key (sortKey c)); Some (ltT rid (id c))]).

(** The rows of [E] that a call with cursor [c] can return: all of them
    for a null cursor, those the clause keeps otherwise. *)
Definition rowsAt (E : list R) (c : option (Cursor Z)) : list R :=
  match c with
  | None => E
  | Some c => filter (keysetClause c) E
  end.
End Order.

(** The page cut out of the rows a statement selects when it is sent with
    a cap of [L + 1] rows. *)
Definition pageOf {R K} (cursorOf : R -> Cursor K) (L : nat) (rows : list R)
  : Page R K :=
  if (L <? List.length rows)%nat
  then mkPage (firstn L rows) (option_map cursorOf (nth_error rows (L - 1)))
  else mkPage rows None.

(** [pages], the pages received by chaining [nextCursor] with limit [L],
    enumerate [matching]: together they hold the matching rows and nothing
    else, each once, in strictly descending [(sortKey, id)] order; no page
    exceeds the limit; the last page carries a null [nextCursor]. *)
Definition enumerates {R} (key : R -> Z) (rid : R -> string)
  (matching : list R) (L : Z) (pages : list (Page R Z)) : Prop :=
  let all := List.concat (map (@items R Z) pages) in
  descending key rid all /\
  NoDup all /\
  (forall r, In r all <-> In r matching) /\
  Forall (fun p => (List.length (items p) <= Z.to_nat L)%nat) pages /\
  exists ps p, pages = ps ++ [p] /\ nextCursor p = None.

(** Integer limits, as a caller who respects the documented contract
    sends them. *)
Definition ofInt (L : Z) : Q := inject_Z L.

(** [p] is made of [read], the rows a capped read returned, as the limit
    [L] prescribes: more than [L] rows, the first [L] are kept and
    [nextCursor] designates the last kept row; otherwise all rows are kept
    and [nextCursor] is null. *)
Definition trimmedFrom {R K} (cursorOf : R -> Cursor K) (L : Z)
  (read : list R) (p : Page R K) : Prop :=
  (L < Z.of_nat (List.length read) ->
   items p = firstn (Z.to_nat L) read /\
   exists pre last, items p = pre ++ [last] /\
                    nextCursor p = Some (cursorOf last)) /\
  (Z.of_nat (List.length read) <= L ->
   items p = read /\ nextCursor p = None) /\
  Z.of_nat (List.length (items p)) <= L /\
  (nextCursor p <> None -> Z.of_nat (List.length (items p)) = L).

(** The store holds a playlist [playlistId] owned by [userId]. *)
Definition ownsPlaylist (db : database) (userId playlistId : string) : Prop :=
  exists p, In p (playlists db) /\
            playlists_id p = playlistId /\ playlists_userId p = userId.

(** The store holds a video [videoId]. *)
Definition videoExists (db : database) (videoId : string) : Prop :=
  exists v, In v (videos db) /\ videos_id v = videoId.

(** The playlist [playlistId] already lists the video [videoId]. *)
Definition inPlaylist (db : database) (playlistId videoId : string) : Prop :=
  In (mkPlaylistVideo playlistId videoId) (playlistVideos db).

(** [run] is refused by the input parser: it throws BAD_REQUEST and leaves
    the world, trace included, as it found it. *)
Definition rejectedByParser {A} (run : M A) : Prop :=
  forall w, run w = (Throw (TRPCError BAD_REQUEST), w).

(** [run] gets past the input parser: it does not throw BAD_REQUEST, and
    its handler sends at least one statement to the store. *)
Definition reachesStore {A} (run : M A) : Prop :=
  forall w,
    fst (run w) <> Throw (TRPCError BAD_REQUEST) /\
    exists op ops, trace (snd (run w)) = trace w ++ op :: ops.

(** The parser of [proc] accepts exactly the limits in [1, 100]. *)
Definition validatesLimit {A} (proc : Q -> M A) : Prop :=
  forall limit : Q,
    ((1 <= limit /\ limit <= 100)%Q -> reachesStore (proc limit)) /\
    (~ (1 <= limit /\ limit <= 100)%Q -> rejectedByParser (proc limit)).

(** [run], started in [w], sends exactly one statement to the store, the
    read of [rows] from [T] capped at [L + 1] rows, and returns the page
    trimmed from what that read returned. *)
Definition readsAndTrims {R K} (run : M (Page R K)) (T : table)
  (rows : database -> list R) (cursorOf : R -> Cursor K) (L : Z) (w : world)
  : Prop :=
  exists p,
    run w = (Return p, logOp (Select T (Some (ofInt L + 1)%Q)) w) /\
    trimmedFrom cursorOf L (firstn (Z.to_nat (L + 1)) (rows (store w))) p.

(** A cursor of [getManyTrending] carries its count as a JavaScript number:
    the cursor and the page as the procedure returns them. *)
Definition numberCursor (c : Cursor Z) : Cursor Q :=
  mkCursor (id c) (inject_Z (sortKey c)).

Definition numberPage {R} (p : Page R Z) : Page R Q :=
  mkPage (items p) (option_map numberCursor (nextCursor p)).

(** [run] never ends in a JavaScript [TypeError]. *)
Definition neverTypeError {A} (run : M A) : Prop :=
  forall w, fst (run w) <> Throw TypeError.

(** The pages of a chain are packed: every page but the last holds exactly
    [L] rows and a cursor, the last page holds a null cursor, and it is
    empty only when it is the only page. *)
Definition packed {R K} (L : Z) (pages : list (Page R K)) : Prop :=
  exists ps p,
    pages = ps ++ [p] /\
    Forall (fun q => Z.of_nat (List.length (items q)) = L /\
                     nextCursor q <> None) ps /\
    nextCursor p = None /\
    (ps <> [] -> items p <> []).

(** A write changed at most the one table. *)
Definition onlyPlaylistVideosChanged (db db' : database) : Prop :=
  videos db' = videos db /\ users db' = users db /\
  playlists db' = playlists db /\ videoViews db' = videoViews db /\
  videoReactions db' = videoReactions db /\
  subscriptions db' = subscriptions db.

Definition onlyPlaylistsChanged (db db' : database) : Prop :=
  videos db' = videos db /\ users db' = users db /\
  playlistVideos db' = playlistVideos db /\ videoViews db' = videoViews db /\
  videoReactions db' = videoReactions db /\
  subscriptions db' = subscriptions db.

Definition onlyVideosChanged (db db' : database) : Prop :=
  users db' = users db /\ playlists db' = playlists db /\
  playlistVideos db' = playlistVideos db /\ videoViews db' = videoViews db /\
  videoReactions db' = videoReactions db /\
  subscriptions db' = subscriptions db.

(* ------------------------------------------------------------------ *)
(** ** A sample store *)

Local Open Scope string_scope.

(** An id check in the style of zod's: one or more characters among
    [0-9a-z]. *)
Definition cuid2_sample (s : string) : bool :=
  negb (String.eqb s "")
  && forallb (fun a => let n := nat_of_ascii a in
                       ((48 <=? n) && (n <=? 57) || (97 <=? n) && (n <=? 122))%nat)
       (list_ascii_of_string s).

Definition sampleDb : database :=
  {| videos :=
       [mkVideo "va" "usera" (Some "cat1") Public 30;
        mkVideo "vb" "usera" None Public 20;
        mkVideo "vc" "userb" (Some "cat1") Public 20;
        mkVideo "vd" "usera" None Private 40;
        mkVideo "ve" "userb" None Public 10];
     users := [mkUser "usera" "clerka"; mkUser "userb" "clerkb"];
     playlists :=
       [mkPlaylist "pa" "usera" "first" 5;
        mkPlaylist "pb" "usera" "second" 5;
        mkPlaylist "pc" "usera" "third" 3;
        mkPlaylist "pd" "userb" "other" 9];
     playlistVideos :=
       [mkPlaylistVideo "pa" "va"; mkPlaylistVideo "pa" "vb";
        mkPlaylistVideo "pa" "vd"];
     videoViews :=
       [mkVideoView "usera" "va" 100; mkVideoView "usera" "vb" 200;
        mkVideoView "usera" "vd" 300; mkVideoView "userb" "va" 50];
     videoReactions :=
       [mkVideoReaction "usera" "va" Like 7;
        mkVideoReaction "usera" "ve" Like 9;
        mkVideoReaction "usera" "vd" Like 11;
        mkVideoReaction "userb" "va" Dislike 1];
     subscriptions := [mkSubscription "usera" "userb"] |}.

Local Close Scope string_scope.

(* ================================================================== *)
(** * Part II: properties *)

(* ------------------------------------------------------------------ *)
(** ** Bytewise order on text *)

Lemma ascii_compare_refl (a : ascii) : Ascii.compare a a = Eq.
Proof. unfold Ascii.compare. apply N.compare_refl. Qed.

Lemma string_compare_refl (s : string) : String.compare s s = Eq.
Proof.
  induction s as [|a s IH]; simpl; [reflexivity|].
  now rewrite ascii_compare_refl.
Qed.

Lemma ascii_compare_lt_trans (a b c : ascii) :
  Ascii.compare a b = Lt -> Ascii.compare b c = Lt -> Ascii.compare a c = Lt.
Proof.
  unfold Ascii.compare. rewrite !N.compare_lt_iff. apply N.lt_trans.
Qed.

Lemma string_compare_lt_trans (s1 : string) :
  forall s2 s3, String.compare s1 s2 = Lt -> String.compare s2 s3 = Lt ->
                String.compare s1 s3 = Lt.
Proof.
  induction s1 as [|a s1 IH]; intros [|b s2] [|c s3]; simpl; try congruence.
  destruct (Ascii.compare a b) eqn:Eab; try discriminate;
    destruct (Ascii.compare b c) eqn:Ebc; try discriminate; intros H1 H2.
  - apply Ascii.compare_eq_iff in Eab, Ebc. subst.
    rewrite ascii_compare_refl. eauto.
  - apply Ascii.compare_eq_iff in Eab. subst. now rewrite Ebc.
  - apply Ascii.compare_eq_iff in Ebc. subst. now rewrite Eab.
  - now rewrite (ascii_compare_lt_trans _ _ _ Eab Ebc).
Qed.

Lemma text_ltb_irrefl (s : string) : Text.ltb s s = false.
Proof. unfold Text.ltb, String.ltb. now rewrite string_compare_refl. Qed.

Lemma text_ltb_trans (a b c : string) :
  Text.ltb a b = true -> Text.ltb b c = true -> Text.ltb a c = true.
Proof.
  unfold Text.ltb, String.ltb. intros H1 H2.
  destruct (String.compare a b) eqn:E1; try discriminate.
  destruct (String.compare b c) eqn:E2; try discriminate.
  now rewrite (string_compare_lt_trans _ _ _ E1 E2).
Qed.

Lemma text_ltb_asym (a b : string) :
  Text.ltb a b = true -> Text.ltb b a = false.
Proof.
  intros H. destruct (Text.ltb b a) eqn:E; [|reflexivity].
  pose proof (text_ltb_trans _ _ _ H E) as F. now rewrite text_ltb_irrefl in F.
Qed.

Lemma text_ltb_total (a b : string) :
  Text.ltb a b = true \/ a = b \/ Text.ltb b a = true.
Proof.
  unfold Text.ltb, String.ltb. rewrite (String.compare_antisym b a).
  destruct (String.compare a b) eqn:E; simpl; auto.
  right; left. now apply String.compare_eq_iff.
Qed.

Lemma text_eqb_eq (a b : string) : Text.eqb a b = true <-> a = b.
Proof. apply String.eqb_eq. Qed.

(* ------------------------------------------------------------------ *)
(** ** [orderBy]: a stable sort into descending [(sortKey, id)] order *)

Section OrderBy.
Context {R : Type}.
Variables (key : R -> Z) (rid : R -> string).

Local Abbreviation desc := (desc2 key rid).
Local Abbreviation ins := (insert_desc key rid).
Local Abbreviation sort := (orderBy key rid).
Local Abbreviation bef := (before key rid).

Lemma desc2_total a b : desc a b = false -> desc b a = true.
Proof.
  unfold desc2. intros H.
  apply orb_false_iff in H as [H1 H2].
  apply Z.ltb_ge in H1.
  destruct (Z.eqb_spec (key b) (key a)) as [E|E]; simpl in H2.
  - apply negb_false_iff in H2. apply text_ltb_asym in H2.
    rewrite E, Z.eqb_refl, H2. simpl. apply orb_true_r.
  - assert ((key a <? key b) = true) as -> by (apply Z.ltb_lt; lia).
    reflexivity.
Qed.

Lemma desc2_inv a b :
  desc a b = true <->
  key b < key a \/ (key b = key a /\ Text.ltb (rid a) (rid b) = false).
Proof.
  unfold desc2. rewrite orb_true_iff, andb_true_iff, Z.ltb_lt, Z.eqb_eq,
    negb_true_iff. tauto.
Qed.

Lemma before_inv a b :
  bef a b = true <->
  key b < key a \/ (key b = key a /\ Text.ltb (rid b) (rid a) = true).
Proof.
  unfold before. rewrite orb_true_iff, andb_true_iff, Z.ltb_lt, Z.eqb_eq.
  tauto.
Qed.

Lemma desc2_trans a b c : desc a b = true -> desc b c = true -> desc a c = true.
Proof.
  rewrite !desc2_inv. intros [H1|[H1 H1']] [H2|[H2 H2']]; try (left; lia).
  right. split; [lia|].
  destruct (Text.ltb (rid a) (rid c)) eqn:E; [|reflexivity].
  destruct (text_ltb_total (rid b) (rid a)) as [F|[F|F]].
  - pose proof (text_ltb_trans _ _ _ F E). congruence.
  - rewrite <- F in E. congruence.
  - congruence.
Qed.

Lemma before_irrefl a : before key rid a a = false.
Proof.
  unfold before. rewrite Z.ltb_irrefl, text_ltb_irrefl, andb_false_r.
  reflexivity.
Qed.

Lemma before_trans a b c : bef a b = true -> bef b c = true -> bef a c = true.
Proof.
  rewrite !before_inv. intros [H1|[H1 H1']] [H2|[H2 H2']]; try (left; lia).
  right. split; [lia|]. eapply text_ltb_trans; eauto.
Qed.

Lemma before_asym a b : bef a b = true -> before key rid b a = false.
Proof.
  intros H. destruct (before key rid b a) eqn:E; [|reflexivity].
  pose proof (before_trans _ _ _ H E) as F. now rewrite before_irrefl in F.
Qed.

Lemma desc2_before a b : desc a b = true -> rid a <> rid b -> bef a b = true.
Proof.
  rewrite desc2_inv, before_inv. intros [H|[H1 H2]] N; [now left|right].
  split; [assumption|].
  destruct (text_ltb_total (rid a) (rid b)) as [F|[F|F]]; congruence.
Qed.

Lemma insert_desc_perm x l : Permutation (ins x l) (x :: l).
Proof.
  induction l as [|y l IH]; simpl; [reflexivity|].
  destruct (desc x y); [reflexivity|].
  rewrite IH. apply perm_swap.
Qed.

Lemma orderBy_perm l : Permutation (sort l) l.
Proof.
  induction l as [|x l IH]; simpl; [constructor|].
  rewrite insert_desc_perm. now constructor.
Qed.

Lemma orderBy_In l r : In r (sort l) <-> In r l.
Proof.
  split; apply Permutation_in; [|symmetry]; apply orderBy_perm.
Qed.

Lemma orderBy_length l : List.length (sort l) = List.length l.
Proof. apply Permutation_length, orderBy_perm. Qed.

Lemma insert_desc_sorted x l :
  StronglySorted (fun a b => desc a b = true) l ->
  StronglySorted (fun a b => desc a b = true) (ins x l).
Proof.
  induction 1 as [|y l Hs IH Hy]; simpl.
  - constructor; constructor.
  - destruct (desc x y) eqn:E.
    + constructor; [now constructor|].
      constructor; [assumption|].
      eapply Forall_impl; [|exact Hy]. intros z Hz.
      eapply desc2_trans; eauto.
    + constructor; [assumption|].
      apply (@Permutation_Forall _ _ (x :: l)).
      * symmetry. apply insert_desc_perm.
      * constructor; [now apply desc2_total | assumption].
Qed.

Lemma orderBy_sorted l : StronglySorted (fun a b => desc a b = true) (sort l).
Proof.
  induction l as [|x l IH]; simpl; [constructor|].
  now apply insert_desc_sorted.
Qed.

Lemma insert_desc_first x l :
  match l with [] => True | y :: _ => desc x y = true end ->
  ins x l = x :: l.
Proof. destruct l as [|y l]; simpl; [reflexivity|]. now intros ->. Qed.

Lemma filter_insert_desc (p : R -> bool) x l :
  StronglySorted (fun a b => desc a b = true) l ->
  filter p (ins x l) = if p x then ins x (filter p l) else filter p l.
Proof.
  induction 1 as [|y l Hs IH Hy]; simpl.
  - now destruct (p x).
  - destruct (desc x y) eqn:E.
    + simpl. destruct (p x) eqn:Px; [|reflexivity].
      symmetry. apply insert_desc_first.
      destruct (p y) eqn:Py; [assumption|].
      destruct (filter p l) as [|z l'] eqn:F; [exact I|].
      assert (In z (filter p l)) as Hz by (rewrite F; now left).
      apply filter_In in Hz as [Hz _].
      rewrite Forall_forall in Hy. eapply desc2_trans; eauto.
    + simpl. rewrite IH.
      destruct (p y) eqn:Py, (p x) eqn:Px; simpl; rewrite ?E; reflexivity.
Qed.

Lemma filter_orderBy (p : R -> bool) l :
  filter p (sort l) = sort (filter p l).
Proof.
  induction l as [|x l IH]; simpl; [reflexivity|].
  rewrite filter_insert_desc by apply orderBy_sorted.
  rewrite IH. now destruct (p x).
Qed.

Lemma orderBy_descending l :
  NoDup (map rid l) -> descending key rid (sort l).
Proof.
  intros N.
  assert (NoDup (map rid (sort l))) as N'.
  { eapply Permutation_NoDup; [|exact N].
    apply Permutation_map. symmetry. apply orderBy_perm. }
  pose proof (orderBy_sorted l) as S.
  unfold descending. induction S as [|y s Hs IH Hy]; [constructor|].
  simpl in N'. apply NoDup_cons_iff in N' as [Ny N'].
  constructor; [now apply IH|].
  rewrite Forall_forall in *. intros z Hz.
  apply desc2_before; [now apply Hy|].
  intros E. apply Ny. rewrite E. now apply in_map.
Qed.

Lemma descending_NoDup l : descending key rid l -> NoDup l.
Proof.
  induction 1 as [|y l Hs IH Hy]; constructor; [|assumption].
  intros Hin. rewrite Forall_forall in Hy.
  specialize (Hy _ Hin). now rewrite before_irrefl in Hy.
Qed.

Lemma descending_app_inv l1 l2 :
  descending key rid (l1 ++ l2) ->
  descending key rid l1 /\ descending key rid l2 /\
  (forall a b, In a l1 -> In b l2 -> bef a b = true).
Proof.
  unfold descending. induction l1 as [|x l1 IH]; simpl; intros H.
  - repeat split; [constructor | assumption | contradiction].
  - apply StronglySorted_inv in H as [H Hx].
    destruct (IH H) as (S1 & S2 & C).
    rewrite Forall_forall in Hx.
    repeat split; [|assumption|].
    + constructor; [assumption|].
      rewrite Forall_forall. intros z Hz. apply Hx, in_or_app. now left.
    + intros a b [<-|Ha] Hb; [|now apply C].
      apply Hx, in_or_app. now right.
Qed.

(** In a strictly descending list, the rows strictly after [x] are the
    rows that follow [x]. *)
Lemma descending_filter_before l1 x l2 :
  descending key rid (l1 ++ x :: l2) ->
  filter (before key rid x) (l1 ++ x :: l2) = l2.
Proof.
  intros H. apply descending_app_inv in H as (_ & S2 & C).
  apply StronglySorted_inv in S2 as [_ Hx].
  rewrite filter_app. simpl. rewrite before_irrefl.
  assert (filter (before key rid x) l1 = []) as ->.
  { assert (forall a, In a l1 -> bef x a = false) as Hl1
      by (intros a Ha; apply before_asym, C; [assumption | now left]).
    clear -Hl1. induction l1 as [|a l1 IH]; simpl; [reflexivity|].
    rewrite (Hl1 a) by now left. apply IH. intros b Hb. apply Hl1. now right. }
  simpl. apply forallb_filter_id. apply forallb_forall.
  now rewrite <- Forall_forall.
Qed.

End OrderBy.

(* ------------------------------------------------------------------ *)
(** ** Numbers: integer limits *)

Lemma ofInt_succ (L : Z) : (ofInt L + 1)%Q = ofInt (L + 1).
Proof. unfold ofInt. now rewrite inject_Z_plus. Qed.

Lemma number_leb_ofInt (a b : Z) :
  Number.leb (ofInt a) (ofInt b) = (a <=? b).
Proof.
  unfold Number.leb, Qle_bool, ofInt. simpl. now rewrite !Z.mul_1_r.
Qed.

Lemma number_ltb_ofInt (a b : Z) :
  Number.ltb (ofInt a) (ofInt b) = (a <? b).
Proof.
  unfold Number.ltb. change (Qle_bool (ofInt b) (ofInt a))
    with (Number.leb (ofInt b) (ofInt a)).
  rewrite number_leb_ofInt, Z.ltb_antisym. reflexivity.
Qed.

Lemma isInteger_ofInt (n : Z) : Number.isInteger (ofInt n) = true.
Proof.
  unfold Number.isInteger, ofInt. rewrite Qfloor_Z. apply Qeq_bool_refl.
Qed.

Lemma limitSchema_ofInt (L : Z) :
  limitSchema (ofInt L) = true <-> 1 <= L <= 100.
Proof.
  unfold limitSchema. change 1%Q with (ofInt 1). change 100%Q with (ofInt 100).
  rewrite !number_leb_ofInt, andb_true_iff, !Z.leb_le. tauto.
Qed.

Lemma limitSchema_iff (limit : Q) :
  limitSchema limit = true <-> (1 <= limit /\ limit <= 100)%Q.
Proof.
  unfold limitSchema, Number.leb.
  now rewrite andb_true_iff, !Qle_bool_iff.
Qed.

Lemma sql_limit_ofInt {R} (n : Z) (rows : list R) :
  0 <= n -> sql_limit (ofInt n) rows = Some (firstn (Z.to_nat n) rows).
Proof.
  intros H. unfold sql_limit. rewrite isInteger_ofInt.
  change 0%Q with (ofInt 0). rewrite number_leb_ofInt.
  apply Z.leb_le in H. rewrite H. cbn [andb]. unfold ofInt.
  now rewrite Qfloor_Z.
Qed.

(* ------------------------------------------------------------------ *)
(** ** The read capped at [limit + 1] followed by [trim] *)

Lemma trim_firstn {R K} (cursorOf : R -> Cursor K) (L : Z) (rows : list R)
  (w : world) :
  1 <= L ->
  trim cursorOf (ofInt L) (firstn (Z.to_nat (L + 1)) rows) w =
  (Return (pageOf cursorOf (Z.to_nat L) rows), w).
Proof.
  intros HL. unfold trim, pageOf, Number.ofLength.
  fold (ofInt (Z.of_nat (List.length (firstn (Z.to_nat (L + 1)) rows)))).
  rewrite number_ltb_ofInt, length_firstn.
  replace (Z.to_nat (L + 1)) with (S (Z.to_nat L)) by lia.
  destruct (Nat.ltb_spec (Z.to_nat L) (List.length rows)) as [Hlt|Hge].
  - assert ((L <? Z.of_nat (Nat.min (S (Z.to_nat L)) (List.length rows))) = true)
      as -> by (apply Z.ltb_lt; lia).
    rewrite removelast_firstn by assumption.
    rewrite length_firstn, Nat.min_l by lia.
    rewrite nth_error_firstn.
    assert ((Z.to_nat L - 1 <? Z.to_nat L)%nat = true) as ->
      by (apply Nat.ltb_lt; lia).
    destruct (nth_error rows (Z.to_nat L - 1)) as [r|] eqn:E; [reflexivity|].
    apply nth_error_None in E. lia.
  - assert ((L <? Z.of_nat (Nat.min (S (Z.to_nat L)) (List.length rows))) = false)
      as -> by (apply Z.ltb_ge; lia).
    now rewrite firstn_all2 by lia.
Qed.

Lemma select_trim_run {R K} (T : table) (q : database -> list R)
  (cursorOf : R -> Cursor K) (L : Z) (w : world) :
  1 <= L ->
  (data <- select_limit T q (ofInt L + 1)%Q ;; trim cursorOf (ofInt L) data) w =
  (Return (pageOf cursorOf (Z.to_nat L) (q (store w))),
   logOp (Select T (Some (ofInt L + 1)%Q)) w).
Proof.
  intros HL. unfold bind, select_limit.
  rewrite ofInt_succ at 1. rewrite sql_limit_ofInt by lia.
  apply trim_firstn. assumption.
Qed.

(* ------------------------------------------------------------------ *)
(** ** Chaining [nextCursor]: the generic argument *)

Lemma nth_error_cut {A} (l : list A) (n : nat) (x : A) :
  nth_error l n = Some x -> l = firstn n l ++ x :: skipn (S n) l.
Proof.
  revert l. induction n as [|n IH]; intros [|y l] H; simpl in *;
    try discriminate.
  - now inversion H.
  - f_equal. now apply IH.
Qed.

Lemma keysetClause_cursorAt {R} (key : R -> Z) (rid : R -> string) (x r : R) :
  keysetClause key rid (cursorAt key rid x) r = before key rid x r.
Proof.
  unfold keysetClause, cursorAt, before, or_, and_, eqD, ltD, ltT. simpl.
  now rewrite andb_true_r.
Qed.

Section Enumeration.
Context {R : Type}.
Variables (key : R -> Z) (rid : R -> string).
Variable cuid2 : string -> bool.
Variable db : database.
(** [E]: every matching row, in the order of the statement; [L]: the limit
    of each call; [call]: the procedure, its other arguments fixed. *)
Variable E : list R.
Variable L : Z.
Variable call : option (Cursor Z) -> M (Page R Z).

Hypothesis E_descending : descending key rid E.
Hypothesis E_ids : Forall (fun r => cuid2 (rid r) = true) E.
Hypothesis L_pos : 1 <= L.
Hypothesis call_run : forall c w,
  store w = db -> cursorSchema cuid2 c = true ->
  exists w', call c w
             = (Return (pageOf (cursorAt key rid) (Z.to_nat L) (rowsAt key rid E c)), w')
             /\ store w' = db.

Lemma enumerate_suffix (n : nat) :
  forall rest pre c fuel w,
    (List.length rest <= n)%nat -> E = pre ++ rest -> rowsAt key rid E c = rest ->
    cursorSchema cuid2 c = true -> store w = db ->
    (List.length rest < fuel)%nat ->
    exists pages w',
      enumerate call fuel c w = (Return (Some pages), w') /\
      store w' = db /\
      List.concat (map (@items R Z) pages) = rest /\
      Forall (fun p => (List.length (items p) <= Z.to_nat L)%nat) pages /\
      exists ps p, pages = ps ++ [p] /\ nextCursor p = None.
Proof.
  induction n as [|n IH]; intros rest pre c fuel w Hn HE Hrows Hc Hw Hfuel;
    (destruct fuel as [|fuel]; [lia|]);
    destruct (@call_run c w Hw Hc) as (w1 & Hcall & Hw1);
    simpl; unfold bind; rewrite Hcall, Hrows; unfold pageOf.
  - destruct rest; [|simpl in Hn; lia]. simpl.
    exists [mkPage [] None], w1.
    split; [reflexivity|]. split; [assumption|]. split; [reflexivity|].
    split; [constructor; [simpl; lia | constructor]|].
    now exists [], (mkPage [] None).
  - destruct (Nat.ltb_spec (Z.to_nat L) (List.length rest)) as [Hlt|Hge]; simpl.
    + destruct (nth_error rest (Z.to_nat L - 1)) as [x|] eqn:Ex;
        [|apply nth_error_None in Ex; lia].
      simpl. pose proof (nth_error_cut _ _ Ex) as Hcut.
      replace (S (Z.to_nat L - 1)) with (Z.to_nat L) in Hcut by lia.
      assert (E = (pre ++ firstn (Z.to_nat L - 1) rest)
                    ++ x :: skipn (Z.to_nat L) rest) as HE'
        by (rewrite <- app_assoc, <- Hcut; exact HE).
      assert (In x E) as Hx by (rewrite HE'; apply in_elt).
      destruct (IH (skipn (Z.to_nat L) rest)
                  ((pre ++ firstn (Z.to_nat L - 1) rest) ++ [x])
                  (Some (cursorAt key rid x)) fuel w1)
        as (pages & w2 & Hrun & Hw2 & Hcat & Hlen & ps & p & Hps & Hp).
      * rewrite length_skipn. lia.
      * rewrite <- app_assoc. exact HE'.
      * simpl. rewrite (filter_ext _ _ (keysetClause_cursorAt key rid x)).
        rewrite HE' at 1. apply descending_filter_before.
        rewrite <- HE'. exact E_descending.
      * simpl. rewrite Forall_forall in E_ids. now apply E_ids.
      * exact Hw1.
      * rewrite length_skipn. lia.
      * rewrite Hrun. simpl.
        exists (mkPage (firstn (Z.to_nat L) rest) (Some (cursorAt key rid x))
                  :: pages), w2.
        split; [reflexivity|]. split; [assumption|].
        split; [simpl; rewrite Hcat; apply firstn_skipn|].
        split.
        -- constructor; [|assumption]. simpl. rewrite length_firstn. lia.
        -- exists (mkPage (firstn (Z.to_nat L) rest)
                     (Some (cursorAt key rid x)) :: ps), p.
           split; [now rewrite Hps | assumption].
    + exists [mkPage rest None], w1.
      split; [reflexivity|]. split; [assumption|].
      split; [simpl; apply app_nil_r|].
      split; [constructor; [simpl; lia | constructor]|].
      now exists [], (mkPage rest None).
Qed.

(** From a null cursor the chain of calls returns, call after call, every
    row of [E] once and in order, and stops on a page whose [nextCursor] is
    null. *)
Lemma enumerate_all (fuel : nat) (w : world) :
  store w = db -> (List.length E < fuel)%nat ->
  exists pages w',
    enumerate call fuel None w = (Return (Some pages), w') /\
    store w' = db /\
    List.concat (map (@items R Z) pages) = E /\
    Forall (fun p => (List.length (items p) <= Z.to_nat L)%nat) pages /\
    exists ps p, pages = ps ++ [p] /\ nextCursor p = None.
Proof.
  intros Hw Hfuel.
  apply (@enumerate_suffix (List.length E) E [] None fuel w); auto.
Qed.

End Enumeration.

(* ------------------------------------------------------------------ *)
(** ** Joins on a key of the right-hand table *)

Section Join.
Context {A B : Type}.
Variables (fk : A -> string) (kb : B -> string).

Local Abbreviation on := (fun (x : A) (y : B) => Text.eqb (fk x) (kb y)).

Lemma filter_key_length (b : list B) (x : A) :
  NoDup (map kb b) -> (List.length (filter (on x) b) <= 1)%nat.
Proof.
  induction b as [|y b IH]; simpl; intros N; [lia|].
  apply NoDup_cons_iff in N as [Ny N].
  destruct (Text.eqb (fk x) (kb y)) eqn:E; [|now apply IH].
  apply text_eqb_eq in E. simpl.
  destruct (filter (on x) b) as [|z l] eqn:F; [simpl; lia|].
  exfalso. assert (In z (filter (on x) b)) as Hz by (rewrite F; now left).
  apply filter_In in Hz as [Hz Ez]. apply text_eqb_eq in Ez.
  apply Ny. rewrite <- E, Ez. now apply in_map.
Qed.

Lemma innerJoin_In (a : list A) (b : list B) (x : A) (y : B) :
  In (x, y) (innerJoin a b on) <-> In x a /\ In y b /\ on x y = true.
Proof.
  unfold innerJoin. rewrite in_flat_map. split.
  - intros (x' & Hx & H). apply in_map_iff in H as (y' & E & Hy).
    inversion E; subst. apply filter_In in Hy. tauto.
  - intros (Hx & Hy & E). exists x. split; [assumption|].
    apply in_map, filter_In. tauto.
Qed.

Lemma innerJoin_fst (a : list A) (b : list B) (p : A * B) :
  In p (innerJoin a b on) -> In (fst p) a.
Proof. destruct p as [x y]. rewrite innerJoin_In. simpl. tauto. Qed.

Lemma innerJoin_length (a : list A) (b : list B) :
  NoDup (map kb b) ->
  (List.length (innerJoin a b on) <= List.length a)%nat.
Proof.
  intros N. unfold innerJoin.
  induction a as [|x a IH]; simpl; [lia|].
  rewrite length_app, length_map.
  pose proof (filter_key_length b x N). lia.
Qed.

Lemma innerJoin_NoDup (ka : A -> string) (a : list A) (b : list B) :
  NoDup (map kb b) -> NoDup (map ka a) ->
  NoDup (map (fun p => ka (fst p)) (innerJoin a b on)).
Proof.
  intros Nb. induction a as [|x a IH]; simpl; intros Na; [constructor|].
  apply NoDup_cons_iff in Na as [Nx Na].
  change (flat_map (fun x0 => map (pair x0) (filter (on x0) b)) a)
    with (innerJoin a b on).
  rewrite map_app, map_map. simpl.
  pose proof (filter_key_length b x Nb) as Hlen.
  destruct (filter (on x) b) as [|y [|z l]]; simpl in *; try lia.
  - now apply IH.
  - constructor; [|now apply IH].
    intros Hin. apply in_map_iff in Hin as (p & E & Hp).
    apply innerJoin_fst in Hp. apply Nx. rewrite <- E. now apply in_map.
Qed.

End Join.

(** A [.where] keeps the key of a source a key. *)
Lemma where_keeps_key {R K} (rows : list R) (keep : cond) (k : R -> K) :
  NoDup (map k rows) -> NoDup (map k (where_ keep rows)).
Proof.
  unfold where_. induction rows as [|r rows IH]; simpl; intros N;
    [constructor|].
  apply NoDup_cons_iff in N as [Nr N].
  destruct (keep r); simpl; [|now apply IH].
  constructor; [|now apply IH].
  intros Hin. apply Nr. apply in_map_iff in Hin as (r' & E & Hr').
  apply filter_In in Hr' as [Hr' _]. rewrite <- E. now apply in_map.
Qed.

Lemma filter_andb {A} (p q : A -> bool) (l : list A) :
  filter (fun r => p r && q r) l = filter q (filter p l).
Proof.
  induction l as [|x l IH]; simpl; [reflexivity|].
  destruct (p x); simpl; [|assumption].
  destruct (q x); now rewrite IH.
Qed.

(* ------------------------------------------------------------------ *)
(** ** Chaining [nextCursor] over a filtered, ordered source *)

Lemma keyset_enumeration {R} (key : R -> Z) (rid : R -> string)
  (cuid2 : string -> bool) (db : database) (src : list R) (base : cond)
  (L : Z) (call : option (Cursor Z) -> M (Page R Z)) (fuel : nat) (w : world) :
  NoDup (map rid src) ->
  Forall (fun r => cuid2 (rid r) = true) src ->
  1 <= L ->
  (forall c w, store w = db -> cursorSchema cuid2 c = true ->
     exists w', call c w
                = (Return (pageOf (cursorAt key rid) (Z.to_nat L)
                             (rowsAt key rid (orderBy key rid (where_ base src)) c)),
                   w')
                /\ store w' = db) ->
  store w = db -> (List.length src < fuel)%nat ->
  exists pages w',
    enumerate call fuel None w = (Return (Some pages), w') /\
    store w' = db /\
    enumerates key rid (where_ base src) L pages.
Proof.
  intros Nsrc Hids HL Hcall Hw Hfuel.
  set (E := orderBy key rid (where_ base src)) in *.
  assert (descending key rid E) as HE
    by (apply orderBy_descending, where_keeps_key, Nsrc).
  assert (Forall (fun r => cuid2 (rid r) = true) E) as HEids.
  { rewrite Forall_forall in *. intros r Hr.
    apply orderBy_In, filter_In in Hr. now apply Hids. }
  assert (List.length E <= List.length src)%nat as Hlen.
  { unfold E. rewrite orderBy_length. apply filter_length_le. }
  destruct (@enumerate_all R key rid cuid2 db E L call HE HEids HL Hcall fuel w)
    as (pages & w' & Hrun & Hw' & Hcat & Hlim & Hlast); [assumption | lia |].
  exists pages, w'. split; [assumption|]. split; [assumption|].
  unfold enumerates. rewrite Hcat.
  split; [assumption|]. split; [now apply (descending_NoDup HE)|].
  split; [intros r; apply orderBy_In|]. split; assumption.
Qed.

(* ------------------------------------------------------------------ *)
(** ** The list procedures as capped reads of their statements *)

Ltac parse_ok :=
  repeat match goal with
    | H : _ = true |- _ => rewrite H
    end;
  cbn [andb].

Lemma limitSchema_ofInt_true (L : Z) :
  1 <= L <= 100 -> limitSchema (ofInt L) = true.
Proof. apply limitSchema_ofInt. Qed.

Section Runs.
Variable cuid2 : string -> bool.
Variables (c : option (Cursor Z)) (L : Z) (w : world).
Hypothesis c_ok : cursorSchema cuid2 c = true.
Hypothesis L_ok : 1 <= L <= 100.

Lemma videos_getMany_run (userId categoryId : option string) :
  cuid2Nullish cuid2 categoryId = true ->
  videosRouter.getMany cuid2 userId categoryId c (ofInt L) w =
  (Return (pageOf (cursorAt item_updatedAt item_id) (Z.to_nat L)
             (videosRouter.getMany_rows userId categoryId c (store w))),
   logOp (Select Tvideos (Some (ofInt L + 1)%Q)) w).
Proof.
  intros Hcat. pose proof (limitSchema_ofInt_true L_ok) as Hlim.
  unfold videosRouter.getMany. parse_ok. apply select_trim_run. lia.
Qed.

Lemma videos_getManySubscribed_run (userId : string) :
  videosRouter.getManySubscribed cuid2 userId c (ofInt L) w =
  (Return (pageOf (cursorAt item_updatedAt item_id) (Z.to_nat L)
             (videosRouter.getManySubscribed_rows userId c (store w))),
   logOp (Select Tvideos (Some (ofInt L + 1)%Q)) w).
Proof.
  pose proof (limitSchema_ofInt_true L_ok) as Hlim.
  unfold videosRouter.getManySubscribed. parse_ok.
  apply select_trim_run. lia.
Qed.

Lemma playlists_getMany_run (userId : string) :
  playlistsRouter.getMany cuid2 userId c (ofInt L) w =
  (Return (pageOf (cursorAt playlist_updatedAt playlist_id) (Z.to_nat L)
             (playlistsRouter.getMany_rows userId c (store w))),
   logOp (Select Tplaylists (Some (ofInt L + 1)%Q)) w).
Proof.
  pose proof (limitSchema_ofInt_true L_ok) as Hlim.
  unfold playlistsRouter.getMany. parse_ok. apply select_trim_run. lia.
Qed.

Lemma playlists_getManyForVideo_run (userId videoId : string) :
  cuid2 videoId = true ->
  playlistsRouter.getManyForVideo cuid2 userId videoId c (ofInt L) w =
  (Return (pageOf (cursorAt playlist_updatedAt playlist_id) (Z.to_nat L)
             (playlistsRouter.getManyForVideo_rows userId videoId c (store w))),
   logOp (Select Tplaylists (Some (ofInt L + 1)%Q)) w).
Proof.
  intros Hv. pose proof (limitSchema_ofInt_true L_ok) as Hlim.
  unfold playlistsRouter.getManyForVideo. parse_ok.
  apply select_trim_run. lia.
Qed.

Lemma playlists_getHistory_run (userId : string) :
  playlistsRouter.getHistory cuid2 userId c (ofInt L) w =
  (Return (pageOf (cursorAt datedAt dated_id) (Z.to_nat L)
             (playlistsRouter.getHistory_rows userId c (store w))),
   logOp (Select Tvideos (Some (ofInt L + 1)%Q)) w).
Proof.
  pose proof (limitSchema_ofInt_true L_ok) as Hlim.
  unfold playlistsRouter.getHistory. parse_ok. apply select_trim_run. lia.
Qed.

Lemma playlists_getLiked_run (userId : string) :
  playlistsRouter.getLiked cuid2 userId c (ofInt L) w =
  (Return (pageOf (cursorAt datedAt dated_id) (Z.to_nat L)
             (playlistsRouter.getLiked_rows userId c (store w))),
   logOp (Select Tvideos (Some (ofInt L + 1)%Q)) w).
Proof.
  pose proof (limitSchema_ofInt_true L_ok) as Hlim.
  unfold playlistsRouter.getLiked. parse_ok. apply select_trim_run. lia.
Qed.

Lemma playlists_getVideos_run (userId playlistId : string) :
  cuid2 playlistId = true ->
  playlistsRouter.getVideos cuid2 userId playlistId c (ofInt L) w =
  match playlistsRouter.existingPlaylistQuery playlistId userId (store w) with
  | [] => (Throw (TRPCError NOT_FOUND), logOp (Select Tplaylists None) w)
  | _ :: _ =>
      (Return (pageOf (cursorAt item_updatedAt item_id) (Z.to_nat L)
                 (playlistsRouter.getVideos_rows playlistId c (store w))),
       logOp (Select Tvideos (Some (ofInt L + 1)%Q))
         (logOp (Select Tplaylists None) w))
  end.
Proof.
  intros Hp. pose proof (limitSchema_ofInt_true L_ok) as Hlim.
  unfold playlistsRouter.getVideos. parse_ok.
  unfold bind at 1. unfold select at 1.
  destruct (playlistsRouter.existingPlaylistQuery playlistId userId (store w));
    [reflexivity|].
  apply (@select_trim_run _ _ Tvideos _ _ L (logOp (Select Tplaylists None) w)).
  lia.
Qed.

End Runs.

Lemma videos_getManyTrending_run (cuid2 : string -> bool)
  (c : option (Cursor Q)) (L : Z) (w : world) :
  cursorSchema cuid2 c = true -> 1 <= L <= 100 ->
  videosRouter.getManyTrending cuid2 c (ofInt L) w =
  (Return (pageOf (fun i => mkCursor (item_id i) (inject_Z (viewCount i)))
             (Z.to_nat L) (videosRouter.getManyTrending_rows c (store w))),
   logOp (Select Tvideos (Some (ofInt L + 1)%Q)) w).
Proof.
  intros Hc HL. pose proof (limitSchema_ofInt_true HL) as Hlim.
  unfold videosRouter.getManyTrending. parse_ok. apply select_trim_run. lia.
Qed.

(* ------------------------------------------------------------------ *)
(** ** The statements of [videos.getMany] and [playlists.getMany] *)

Lemma item_id_videoColumns (db : database) (vu : videoRow * userRow) :
  item_id (videoColumns db vu) = videos_id (fst vu).
Proof. now destruct vu. Qed.

Lemma videos_source_length (db : database) :
  NoDup (map users_id (users db)) ->
  (List.length (map (videoColumns db) (videosWithUsers db))
   <= List.length (videos db))%nat.
Proof.
  intros N. rewrite length_map.
  apply (innerJoin_length videos_userId users_id _ _ N).
Qed.

Lemma videos_source_NoDup (db : database) :
  NoDup (map users_id (users db)) -> NoDup (map videos_id (videos db)) ->
  NoDup (map item_id (map (videoColumns db) (videosWithUsers db))).
Proof.
  intros Nu Nv. rewrite map_map.
  rewrite (map_ext _ _ (item_id_videoColumns db)).
  apply (innerJoin_NoDup videos_userId users_id videos_id _ _ Nu Nv).
Qed.

Lemma videos_source_ids (P : string -> Prop) (db : database) :
  Forall (fun v => P (videos_id v)) (videos db) ->
  Forall (fun i => P (item_id i)) (map (videoColumns db) (videosWithUsers db)).
Proof.
  rewrite !Forall_forall. intros H i Hi.
  apply in_map_iff in Hi as (vu & <- & Hvu).
  rewrite item_id_videoColumns. apply H.
  eapply innerJoin_fst with (fk := videos_userId) (kb := users_id). exact Hvu.
Qed.

Lemma videos_getMany_where_cursor (userId categoryId : option string)
  (c : Cursor Z) (i : videoItem) :
  videosRouter.getMany_where userId categoryId (Some c) i =
  videosRouter.getMany_where userId categoryId None i
  && keysetClause item_updatedAt item_id c i.
Proof.
  unfold videosRouter.getMany_where, and_ at 1 3. cbn [forallb].
  rewrite !andb_true_r, !andb_assoc. reflexivity.
Qed.

Lemma videos_getMany_rows_cursor (userId categoryId : option string)
  (c : option (Cursor Z)) (db : database) :
  videosRouter.getMany_rows userId categoryId c db =
  rowsAt item_updatedAt item_id
    (orderBy item_updatedAt item_id
       (where_ (videosRouter.getMany_where userId categoryId None)
          (map (videoColumns db) (videosWithUsers db)))) c.
Proof.
  destruct c as [c|]; [|reflexivity].
  unfold videosRouter.getMany_rows, rowsAt, where_.
  rewrite filter_orderBy, <- filter_andb. f_equal.
  apply filter_ext. intros i. apply videos_getMany_where_cursor.
Qed.

Lemma playlists_source_length (db : database) (contains : playlistRow -> bool) :
  NoDup (map users_id (users db)) ->
  (List.length (playlistsRouter.playlistsWithUsers db contains)
   <= List.length (playlists db))%nat.
Proof.
  intros N. unfold playlistsRouter.playlistsWithUsers. rewrite length_map.
  apply (innerJoin_length playlists_userId users_id _ _ N).
Qed.

Lemma playlists_source_NoDup (db : database) (contains : playlistRow -> bool) :
  NoDup (map users_id (users db)) -> NoDup (map playlists_id (playlists db)) ->
  NoDup (map playlist_id (playlistsRouter.playlistsWithUsers db contains)).
Proof.
  intros Nu Np. unfold playlistsRouter.playlistsWithUsers. rewrite map_map.
  apply (innerJoin_NoDup playlists_userId users_id playlists_id _ _ Nu Np).
Qed.

Lemma playlists_source_ids (P : string -> Prop) (db : database)
  (contains : playlistRow -> bool) :
  Forall (fun p => P (playlists_id p)) (playlists db) ->
  Forall (fun i => P (playlist_id i))
    (playlistsRouter.playlistsWithUsers db contains).
Proof.
  rewrite !Forall_forall. intros H i Hi.
  apply in_map_iff in Hi as (pu & <- & Hpu). apply H.
  eapply innerJoin_fst with (fk := playlists_userId) (kb := users_id).
  exact Hpu.
Qed.

Lemma playlists_getMany_where_cursor (userId : string) (c : Cursor Z)
  (i : playlistItem) :
  playlistsRouter.getMany_where userId (Some c) i =
  playlistsRouter.getMany_where userId None i
  && keysetClause playlist_updatedAt playlist_id c i.
Proof.
  unfold playlistsRouter.getMany_where, and_ at 1 3. cbn [forallb].
  rewrite !andb_true_r. reflexivity.
Qed.

Lemma playlists_getMany_rows_cursor (userId : string)
  (c : option (Cursor Z)) (db : database) :
  playlistsRouter.getMany_rows userId c db =
  rowsAt playlist_updatedAt playlist_id
    (orderBy playlist_updatedAt playlist_id
       (where_ (playlistsRouter.getMany_where userId None)
          (playlistsRouter.playlistsWithUsers db (fun _ => false)))) c.
Proof.
  destruct c as [c|]; [|reflexivity].
  unfold playlistsRouter.getMany_rows, rowsAt, where_.
  rewrite filter_orderBy, <- filter_andb. f_equal.
  apply filter_ext. intros i. apply playlists_getMany_where_cursor.
Qed.

(* ------------------------------------------------------------------ *)
(** ** Completeness of the enumeration *)

Ltac concrete_NoDup :=
  repeat (constructor; [simpl; intuition discriminate|]); constructor.

Ltac concrete_Forall :=
  repeat (constructor; [reflexivity|]); constructor.

(** C1.  On a store whose ids are primary keys and well-formed, and for an
    integer limit [L] in [1, 100], chaining [nextCursor] from a null cursor
    through [videos.getMany] (any [userId] and [categoryId] filter) and
    through [playlists.getMany] returns within [fuel] calls, leaves the
    store as it was, and the pages received enumerate the rows matching
    the filter: each once, none missing, in strictly descending
    [(updatedAt, id)] order, the last page carrying a null [nextCursor]. *)
Theorem getMany_enumerates_matching (cuid2 : string -> bool) (db : database)
  (userId categoryId : option string) (viewer : string) (L : Z)
  (fuel : nat) (tr : list storeOp) :
  NoDup (map users_id (users db)) ->
  NoDup (map videos_id (videos db)) ->
  NoDup (map playlists_id (playlists db)) ->
  Forall (fun v => cuid2 (videos_id v) = true) (videos db) ->
  Forall (fun p => cuid2 (playlists_id p) = true) (playlists db) ->
  cuid2Nullish cuid2 categoryId = true ->
  1 <= L <= 100 ->
  (List.length (videos db) < fuel)%nat ->
  (List.length (playlists db) < fuel)%nat ->
  (exists pages w',
      enumerate (fun c => videosRouter.getMany cuid2 userId categoryId c (ofInt L))
        fuel None (mkWorld db tr) = (Return (Some pages), w') /\
      store w' = db /\
      enumerates item_updatedAt item_id
        (where_ (videosRouter.getMany_where userId categoryId None)
           (map (videoColumns db) (videosWithUsers db)))
        L pages) /\
  (exists pages w',
      enumerate (fun c => playlistsRouter.getMany cuid2 viewer c (ofInt L))
        fuel None (mkWorld db tr) = (Return (Some pages), w') /\
      store w' = db /\
      enumerates playlist_updatedAt playlist_id
        (where_ (playlistsRouter.getMany_where viewer None)
           (playlistsRouter.playlistsWithUsers db (fun _ => false)))
        L pages).
Proof.
  intros Nu Nv Np Iv Ip Hcat HL Fv Fp. split.
  - apply keyset_enumeration with (cuid2 := cuid2) (db := db).
    + now apply videos_source_NoDup.
    + now apply (videos_source_ids (fun s => cuid2 s = true)).
    + lia.
    + intros c w Hw Hc. eexists. split.
      * rewrite videos_getMany_run by assumption.
        rewrite videos_getMany_rows_cursor, Hw. reflexivity.
      * exact Hw.
    + reflexivity.
    + pose proof (videos_source_length db Nu). simpl. lia.
  - apply keyset_enumeration with (cuid2 := cuid2) (db := db).
    + now apply playlists_source_NoDup.
    + now apply (playlists_source_ids (fun s => cuid2 s = true)).
    + lia.
    + intros c w Hw Hc. eexists. split.
      * rewrite playlists_getMany_run by assumption.
        rewrite playlists_getMany_rows_cursor, Hw. reflexivity.
      * exact Hw.
    + reflexivity.
    + pose proof (playlists_source_length db (fun _ => false) Nu). simpl. lia.
Qed.

Lemma getMany_enumerates_matching_witness :
  (exists pages w',
      enumerate
        (fun c => videosRouter.getMany cuid2_sample (Some "usera"%string) None
                    c (ofInt 1))
        6 None (mkWorld sampleDb []) = (Return (Some pages), w') /\
      store w' = sampleDb /\
      enumerates item_updatedAt item_id
        (where_ (videosRouter.getMany_where (Some "usera"%string) None None)
           (map (videoColumns sampleDb) (videosWithUsers sampleDb)))
        1 pages) /\
  (exists pages w',
      enumerate
        (fun c => playlistsRouter.getMany cuid2_sample "usera"%string c (ofInt 1))
        6 None (mkWorld sampleDb []) = (Return (Some pages), w') /\
      store w' = sampleDb /\
      enumerates playlist_updatedAt playlist_id
        (where_ (playlistsRouter.getMany_where "usera"%string None)
           (playlistsRouter.playlistsWithUsers sampleDb (fun _ => false)))
        1 pages).
Proof.
  apply (@getMany_enumerates_matching cuid2_sample sampleDb
           (Some "usera"%string) None "usera"%string 1 6 []).
  - concrete_NoDup.
  - concrete_NoDup.
  - concrete_NoDup.
  - concrete_Forall.
  - concrete_Forall.
  - reflexivity.
  - lia.
  - simpl. lia.
  - simpl. lia.
Defined.

(* ------------------------------------------------------------------ *)
(** ** What a returned page says about the read, for any limit *)

Lemma nth_error_last {A} (l : list A) (x : A) :
  nth_error l (List.length l - 1) = Some x -> exists pre, l = pre ++ [x].
Proof.
  intros H. destruct (exists_last (l := l)) as (pre & y & ->).
  - intros ->. discriminate.
  - exists pre. rewrite length_app in H. simpl in H.
    replace (List.length pre + 1 - 1)%nat with (List.length pre) in H by lia.
    rewrite nth_error_app2, Nat.sub_diag in H by lia. simpl in H.
    now inversion H.
Qed.

Lemma incl_removelast {A} (l : list A) : incl (removelast l) l.
Proof.
  destruct l as [|a l]; [intros x []|].
  destruct (exists_last (l := a :: l)) as (pre & y & E); [discriminate|].
  rewrite E, removelast_last. apply incl_appl, incl_refl.
Qed.

Lemma trim_inv {R K} (cursorOf : R -> Cursor K) (limit : Q) (data : list R)
  (w w' : world) (p : Page R K) :
  trim cursorOf limit data w = (Return p, w') ->
  w' = w /\
  incl (items p) data /\
  (forall c, nextCursor p = Some c ->
             exists pre last, items p = pre ++ [last] /\ c = cursorOf last) /\
  (nextCursor p = None -> items p = data).
Proof.
  unfold trim.
  destruct (Number.ltb limit (Number.ofLength data)).
  - destruct (nth_error (removelast data) (List.length (removelast data) - 1))
      as [last|] eqn:E; [|discriminate].
    unfold ret. intros H. inversion H; subst. simpl.
    split; [reflexivity|]. split; [apply incl_removelast|].
    split; [|discriminate].
    intros c Hc. inversion Hc; subst.
    destruct (nth_error_last _ E) as (pre & Hpre). now exists pre, last.
  - unfold ret. intros H. inversion H; subst. simpl.
    split; [reflexivity|]. split; [apply incl_refl|].
    split; [discriminate | reflexivity].
Qed.

Lemma select_limit_inv {R} (T : table) (q : database -> list R) (n : Q)
  (w w' : world) (rows : list R) :
  select_limit T q n w = (Return rows, w') ->
  w' = logOp (Select T (Some n)) w /\
  rows = firstn (Z.to_nat (Qfloor n)) (q (store w)).
Proof.
  unfold select_limit, sql_limit.
  destruct (Number.isInteger n && Number.leb 0 n); intros H; inversion H.
  now split.
Qed.

Lemma select_trim_inv {R K} (T : table) (q : database -> list R) (n limit : Q)
  (cursorOf : R -> Cursor K) (w w' : world) (p : Page R K) :
  (data <- select_limit T q n ;; trim cursorOf limit data) w = (Return p, w') ->
  w' = logOp (Select T (Some n)) w /\
  incl (items p) (q (store w)) /\
  (forall c, nextCursor p = Some c ->
             exists pre last, items p = pre ++ [last] /\ c = cursorOf last).
Proof.
  unfold bind. destruct (select_limit T q n w) as [[rows|e] w1] eqn:S;
    [|discriminate].
  apply select_limit_inv in S as [-> ->]. intros H.
  apply trim_inv in H as (-> & Hincl & Hlast & _).
  split; [reflexivity|]. split; [|assumption].
  intros i Hi. apply Hincl in Hi.
  rewrite <- (firstn_skipn (Z.to_nat (Qfloor n)) (q (store w))).
  apply in_or_app. now left.
Qed.

(* ------------------------------------------------------------------ *)
(** ** The order of the watch history *)

(** C2.  [getHistory] compares its cursor with [viewedAt] but orders the
    read by [videos.updatedAt]: on the sample store the viewer's history
    comes back as va (viewed at 100) before vb (viewed at 200), which is
    not descending by [(viewedAt, id)]; and with limit 1 the chain of
    cursors ends after va, so vb is never returned. *)
Theorem getHistory_order_ignores_viewedAt :
  (exists p w',
      playlistsRouter.getHistory cuid2_sample "usera"%string None (ofInt 2)
        (mkWorld sampleDb []) = (Return p, w') /\
      map (fun i => (dated_id i, datedAt i)) (items p)
      = [("va"%string, 100); ("vb"%string, 200)] /\
      ~ descending datedAt dated_id (items p)) /\
  (exists pages w',
      enumerate
        (fun c => playlistsRouter.getHistory cuid2_sample "usera"%string c
                    (ofInt 1))
        3 None (mkWorld sampleDb []) = (Return (Some pages), w') /\
      map dated_id (List.concat (map (@items datedItem Z) pages))
      = ["va"%string]).
Proof.
  split.
  - eexists. eexists. split; [vm_compute; reflexivity|].
    split; [reflexivity|].
    intros H. apply StronglySorted_inv in H as [_ H].
    apply Forall_inv in H. vm_compute in H. discriminate.
  - eexists. eexists. split; [vm_compute; reflexivity|]. reflexivity.
Qed.

(** The sibling [getLiked] orders its read by the key its cursor compares:
    without a cursor its rows are in descending [(likedAt, id)] order. *)
Lemma getLiked_rows_sorted (userId : string) (db : database) :
  StronglySorted (fun a b => desc2 datedAt dated_id a b = true)
    (playlistsRouter.getLiked_rows userId None db).
Proof. apply orderBy_sorted. Qed.

(* ------------------------------------------------------------------ *)
(** ** The cursor clause is strict *)

Lemma keysetClause_iff {R} (key : R -> Z) (rid : R -> string)
  (c : Cursor Z) (r : R) :
  keysetClause key rid c r = true <->
  key r < sortKey c \/ (key r = sortKey c /\ Text.ltb (rid r) (id c) = true).
Proof.
  unfold keysetClause, or_, and_, eqD, ltD, ltT. cbn [forallb].
  rewrite andb_true_r, orb_true_iff, andb_true_iff, Z.ltb_lt, Z.eqb_eq.
  reflexivity.
Qed.

(** Two playlists of one owner tied on [updatedAt], stored in either
    order: the statement lists [x], the greater id, first. *)
Lemma playlists_tie_rows (u ck x y nx ny : string) (t : Z)
  (pls : list playlistRow) (c : option (Cursor Z)) :
  Text.ltb y x = true ->
  Permutation [mkPlaylist x u nx t; mkPlaylist y u ny t] pls ->
  playlistsRouter.getMany_rows u c (mkDb [] [mkUser u ck] pls [] [] [] []) =
  where_ (playlistsRouter.getMany_where u c)
    [mkPlaylistItem (mkPlaylist x u nx t) 0 (mkUser u ck) false;
     mkPlaylistItem (mkPlaylist y u ny t) 0 (mkUser u ck) false].
Proof.
  intros Hyx Hperm.
  pose proof (text_ltb_asym _ _ Hyx) as Hxy.
  unfold playlistsRouter.getMany_rows. rewrite <- filter_orderBy.
  unfold where_. f_equal.
  apply Permutation_length_2_inv in Hperm as [-> | ->];
    unfold playlistsRouter.playlistsWithUsers, innerJoin; simpl;
    unfold Text.eqb; rewrite !String.eqb_refl; simpl;
    unfold desc2, playlist_updatedAt, playlist_id; simpl;
    rewrite Z.ltb_irrefl, Z.eqb_refl, ?Hyx, ?Hxy; reflexivity.
Qed.

Lemma playlists_getMany_inv (cuid2 : string -> bool) (userId : string)
  (c : option (Cursor Z)) (limit : Q) (w w' : world)
  (p : Page playlistItem Z) :
  playlistsRouter.getMany cuid2 userId c limit w = (Return p, w') ->
  w' = logOp (Select Tplaylists (Some (limit + 1)%Q)) w /\
  incl (items p) (playlistsRouter.getMany_rows userId c (store w)) /\
  (forall c', nextCursor p = Some c' ->
     exists pre last, items p = pre ++ [last] /\
                      c' = cursorAt playlist_updatedAt playlist_id last).
Proof.
  unfold playlistsRouter.getMany.
  destruct (cursorSchema cuid2 c && limitSchema limit); [|discriminate].
  apply select_trim_inv.
Qed.

Lemma playlists_getMany_rows_where (userId : string) (c : option (Cursor Z))
  (db : database) (i : playlistItem) :
  In i (playlistsRouter.getMany_rows userId c db) ->
  playlistsRouter.getMany_where userId c i = true.
Proof.
  unfold playlistsRouter.getMany_rows, where_. rewrite orderBy_In, filter_In.
  tauto.
Qed.

(** C3.  In [playlists.getMany] the clause added for a cursor is
    [updatedAt < cursor.updatedAt OR (updatedAt = cursor.updatedAt AND
    id < cursor.id)], both comparisons strict.  Hence, whatever the store
    and the limits, a page fetched with the [nextCursor] of a page holds
    only rows strictly after that page's last item, so its first item is
    never that last item.  And for a store of two playlists of one owner
    tied on [updatedAt] with ids [y < x], in whichever order they are
    stored: the first page lists [x] before [y] (only [x] when the limit
    is 1), and a fetch with the cursor at [x] returns exactly [y]. *)
Theorem playlists_getMany_cursor_strict (cuid2 : string -> bool) :
  (forall userId c i,
      playlistsRouter.getMany_where userId (Some c) i = true <->
      playlistsRouter.getMany_where userId None i = true /\
      (playlist_updatedAt i < sortKey c \/
       (playlist_updatedAt i = sortKey c /\
        Text.ltb (playlist_id i) (id c) = true))) /\
  (forall userId c0 limit1 w1 p1 w1' c limit2 w2 p2 w2',
      playlistsRouter.getMany cuid2 userId c0 limit1 w1 = (Return p1, w1') ->
      nextCursor p1 = Some c ->
      playlistsRouter.getMany cuid2 userId (Some c) limit2 w2 = (Return p2, w2') ->
      exists pre last,
        items p1 = pre ++ [last] /\
        c = cursorAt playlist_updatedAt playlist_id last /\
        forall i, In i (items p2) ->
                  before playlist_updatedAt playlist_id last i = true /\
                  i <> last) /\
  (forall u ck x y nx ny t pls L tr,
      Text.ltb y x = true -> cuid2 x = true -> 1 <= L <= 100 ->
      Permutation [mkPlaylist x u nx t; mkPlaylist y u ny t] pls ->
      let w := mkWorld (mkDb [] [mkUser u ck] pls [] [] [] []) tr in
      (exists p w',
          playlistsRouter.getMany cuid2 u None (ofInt L) w = (Return p, w') /\
          map playlist_id (items p) = (if L =? 1 then [x] else [x; y]) /\
          nextCursor p = if L =? 1 then Some (mkCursor x t) else None) /\
      (exists p w',
          playlistsRouter.getMany cuid2 u (Some (mkCursor x t)) (ofInt L) w
          = (Return p, w') /\
          map playlist_id (items p) = [y] /\
          nextCursor p = None)).
Proof.
  split; [|split].
  - intros userId c i.
    rewrite playlists_getMany_where_cursor, andb_true_iff, keysetClause_iff.
    reflexivity.
  - intros userId c0 limit1 w1 p1 w1' c limit2 w2 p2 w2' H1 Hc H2.
    apply playlists_getMany_inv in H1 as (_ & _ & Hlast).
    destruct (Hlast c Hc) as (pre & last & Hitems & ->).
    exists pre, last. split; [assumption|]. split; [reflexivity|].
    intros i Hi.
    apply playlists_getMany_inv in H2 as (_ & Hincl & _).
    apply Hincl, playlists_getMany_rows_where in Hi.
    rewrite playlists_getMany_where_cursor, andb_true_iff in Hi.
    destruct Hi as [_ Hi]. rewrite keysetClause_cursorAt in Hi.
    split; [assumption|].
    intros ->. now rewrite before_irrefl in Hi.
  - intros u ck x y nx ny t pls L tr Hyx Hx HL Hperm w. split.
    + eexists. eexists. split.
      * apply playlists_getMany_run; [reflexivity | assumption].
      * unfold w. cbn [store]. rewrite (@playlists_tie_rows u ck x y nx ny t pls _ Hyx Hperm).
        unfold where_, playlistsRouter.getMany_where, and_, eqT,
          playlist_userId, Text.eqb. simpl.
        rewrite String.eqb_refl. simpl. unfold pageOf. simpl.
        destruct (Z.eqb_spec L 1) as [->|NL].
        -- simpl. split; reflexivity.
        -- assert ((Z.to_nat L <? 2)%nat = false) as ->
             by (apply Nat.ltb_ge; lia).
           simpl. split; reflexivity.
    + eexists. eexists. split.
      * apply playlists_getMany_run; [exact Hx | assumption].
      * unfold w. cbn [store]. rewrite (@playlists_tie_rows u ck x y nx ny t pls _ Hyx Hperm).
        unfold where_, playlistsRouter.getMany_where, and_, or_, eqT, eqD,
          ltD, ltT, playlist_userId, playlist_updatedAt, playlist_id, Text.eqb.
        simpl.
        rewrite String.eqb_refl, Z.ltb_irrefl, Z.eqb_refl, Hyx,
          text_ltb_irrefl.
        simpl. unfold pageOf. simpl.
        assert ((Z.to_nat L <? 1)%nat = false) as ->
          by (apply Nat.ltb_ge; lia).
        simpl. split; reflexivity.
Qed.

Lemma playlists_getMany_cursor_strict_witness :
  (exists pre last,
      map playlist_id pre = [] /\ playlist_id last = "pb"%string /\
      forall p2 w2',
        playlistsRouter.getMany cuid2_sample "usera"%string
          (Some (cursorAt playlist_updatedAt playlist_id last)) (ofInt 1)
          (mkWorld sampleDb []) = (Return p2, w2') ->
        forall i, In i (items p2) -> i <> last) /\
  (exists p w',
      playlistsRouter.getMany cuid2_sample "u"%string
        (Some (mkCursor "x"%string 5)) (ofInt 1)
        (mkWorld (mkDb [] [mkUser "u" "k"]
                    [mkPlaylist "w" "u" "n" 5; mkPlaylist "x" "u" "m" 5]
                    [] [] [] []) [])
      = (Return p, w') /\
      map playlist_id (items p) = ["w"%string] /\
      nextCursor p = None).
Proof.
  destruct (playlists_getMany_cursor_strict cuid2_sample) as (_ & B & C).
  split.
  - destruct (B "usera"%string None (ofInt 1) (mkWorld sampleDb []) _ _ _
                (ofInt 1) (mkWorld sampleDb []) _ _
                eq_refl eq_refl eq_refl)
      as (pre & last & Hitems & Hc & Hafter).
    exists pre, last.
    destruct pre as [|a [|b pre]]; inversion Hitems; subst.
    split; [reflexivity|]. split; [reflexivity|].
    intros p2 w2' Hcall i Hi.
    vm_compute in Hcall. inversion Hcall; subst.
    now apply Hafter.
  - apply (C "u" "k" "x" "w" "m" "n" 5
             [mkPlaylist "w" "u" "n" 5; mkPlaylist "x" "u" "m" 5] 1 [])%string;
      [reflexivity | reflexivity | lia | apply perm_swap].
Defined.

(* ------------------------------------------------------------------ *)
(** ** One read capped at [limit + 1], trimmed to [limit] *)

Lemma pageOf_trimmedFrom {R K} (cursorOf : R -> Cursor K) (L : Z)
  (rows : list R) :
  1 <= L ->
  trimmedFrom cursorOf L (firstn (Z.to_nat (L + 1)) rows)
    (pageOf cursorOf (Z.to_nat L) rows).
Proof.
  intros HL. unfold trimmedFrom, pageOf. rewrite length_firstn.
  destruct (Nat.ltb_spec (Z.to_nat L) (List.length rows)) as [Hlt|Hge];
    cbn [items nextCursor].
  - destruct (nth_error rows (Z.to_nat L - 1)) as [last|] eqn:E;
      [|apply nth_error_None in E; lia].
    assert (firstn (Z.to_nat L) rows
            = firstn (Z.to_nat L - 1) rows ++ [last]) as Hsplit.
    { rewrite (nth_error_cut _ _ E) at 1.
      rewrite firstn_app, firstn_firstn, Nat.min_r by lia.
      rewrite length_firstn, Nat.min_l by lia.
      replace (Z.to_nat L - (Z.to_nat L - 1))%nat with 1%nat by lia.
      reflexivity. }
    rewrite length_firstn.
    split; [|split; [|split]].
    + intros _. split.
      * rewrite firstn_firstn. f_equal. lia.
      * exists (firstn (Z.to_nat L - 1) rows), last. now split.
    + lia.
    + lia.
    + lia.
  - split; [|split; [|split]].
    + lia.
    + intros _. split; [|reflexivity]. rewrite firstn_all2; [reflexivity|lia].
    + lia.
    + intros H. now contradiction H.
Qed.

Lemma select_trim_readsAndTrims {R K} (T : table) (q : database -> list R)
  (cursorOf : R -> Cursor K) (L : Z) (w : world) (run : M (Page R K)) :
  1 <= L ->
  run w = (Return (pageOf cursorOf (Z.to_nat L) (q (store w))),
           logOp (Select T (Some (ofInt L + 1)%Q)) w) ->
  readsAndTrims run T q cursorOf L w.
Proof.
  intros HL Hrun. eexists. split; [exact Hrun|].
  now apply pageOf_trimmedFrom.
Qed.

(** C4.  Called with an integer limit [L] in [1, 100] and an input that
    parses, every list procedure sends one read capped at [L + 1] rows
    ([getVideos] after its playlist lookup, when the playlist is found)
    and trims what it returns: more than [L] rows, the first [L] are kept
    and [nextCursor] is the [(id, sortKey)] of the last kept row; otherwise
    every row is kept and [nextCursor] is null.  So a page never has more
    than [L] items and has exactly [L] when [nextCursor] is not null. *)
Theorem list_procedures_read_and_trim (cuid2 : string -> bool)
  (userId categoryId : option string) (viewer videoId playlistId : string)
  (c : option (Cursor Z)) (cq : option (Cursor Q)) (L : Z) (w : world) :
  1 <= L <= 100 ->
  cursorSchema cuid2 c = true -> cursorSchema cuid2 cq = true ->
  cuid2Nullish cuid2 categoryId = true ->
  cuid2 videoId = true -> cuid2 playlistId = true ->
  readsAndTrims (videosRouter.getMany cuid2 userId categoryId c (ofInt L))
    Tvideos (videosRouter.getMany_rows userId categoryId c)
    (cursorAt item_updatedAt item_id) L w /\
  readsAndTrims (videosRouter.getManyTrending cuid2 cq (ofInt L))
    Tvideos (videosRouter.getManyTrending_rows cq)
    (fun i => mkCursor (item_id i) (inject_Z (viewCount i))) L w /\
  readsAndTrims (videosRouter.getManySubscribed cuid2 viewer c (ofInt L))
    Tvideos (videosRouter.getManySubscribed_rows viewer c)
    (cursorAt item_updatedAt item_id) L w /\
  readsAndTrims (playlistsRouter.getMany cuid2 viewer c (ofInt L))
    Tplaylists (playlistsRouter.getMany_rows viewer c)
    (cursorAt playlist_updatedAt playlist_id) L w /\
  readsAndTrims (playlistsRouter.getManyForVideo cuid2 viewer videoId c (ofInt L))
    Tplaylists (playlistsRouter.getManyForVideo_rows viewer videoId c)
    (cursorAt playlist_updatedAt playlist_id) L w /\
  readsAndTrims (playlistsRouter.getHistory cuid2 viewer c (ofInt L))
    Tvideos (playlistsRouter.getHistory_rows viewer c)
    (cursorAt datedAt dated_id) L w /\
  readsAndTrims (playlistsRouter.getLiked cuid2 viewer c (ofInt L))
    Tvideos (playlistsRouter.getLiked_rows viewer c)
    (cursorAt datedAt dated_id) L w /\
  (playlistsRouter.existingPlaylistQuery playlistId viewer (store w) <> [] ->
   exists p,
     playlistsRouter.getVideos cuid2 viewer playlistId c (ofInt L) w
     = (Return p, logOp (Select Tvideos (Some (ofInt L + 1)%Q))
                    (logOp (Select Tplaylists None) w)) /\
     trimmedFrom (cursorAt item_updatedAt item_id) L
       (firstn (Z.to_nat (L + 1))
          (playlistsRouter.getVideos_rows playlistId c (store w))) p).
Proof.
  intros HL Hc Hcq Hcat Hv Hp.
  assert (1 <= L) as HL1 by lia.
  repeat split.
  - apply select_trim_readsAndTrims; [assumption|].
    now apply videos_getMany_run.
  - apply select_trim_readsAndTrims; [assumption|].
    now apply videos_getManyTrending_run.
  - apply select_trim_readsAndTrims; [assumption|].
    now apply videos_getManySubscribed_run.
  - apply select_trim_readsAndTrims; [assumption|].
    now apply playlists_getMany_run.
  - apply select_trim_readsAndTrims; [assumption|].
    now apply playlists_getManyForVideo_run.
  - apply select_trim_readsAndTrims; [assumption|].
    now apply playlists_getHistory_run.
  - apply select_trim_readsAndTrims; [assumption|].
    now apply playlists_getLiked_run.
  - intros Hex. eexists. split.
    + rewrite playlists_getVideos_run by assumption.
      destruct (playlistsRouter.existingPlaylistQuery playlistId viewer (store w));
        [now contradiction Hex | reflexivity].
    + now apply pageOf_trimmedFrom.
Qed.

Lemma list_procedures_read_and_trim_witness :
  readsAndTrims
    (playlistsRouter.getMany cuid2_sample "usera"%string None (ofInt 2))
    Tplaylists (playlistsRouter.getMany_rows "usera"%string None)
    (cursorAt playlist_updatedAt playlist_id) 2 (mkWorld sampleDb []) /\
  exists p,
    playlistsRouter.getVideos cuid2_sample "usera"%string "pa"%string None
      (ofInt 1) (mkWorld sampleDb [])
    = (Return p, logOp (Select Tvideos (Some (ofInt 1 + 1)%Q))
                   (logOp (Select Tplaylists None) (mkWorld sampleDb []))) /\
    trimmedFrom (cursorAt item_updatedAt item_id) 1
      (firstn (Z.to_nat (1 + 1))
         (playlistsRouter.getVideos_rows "pa"%string None sampleDb)) p.
Proof.
  split.
  - apply (@list_procedures_read_and_trim cuid2_sample None None
             "usera"%string "va"%string "pa"%string None None 2
             (mkWorld sampleDb []));
      solve [lia | reflexivity].
  - apply (@list_procedures_read_and_trim cuid2_sample None None
             "usera"%string "va"%string "pa"%string None None 1
             (mkWorld sampleDb []));
      solve [lia | reflexivity | discriminate].
Defined.

(* ------------------------------------------------------------------ *)
(** ** Validation of the limit *)

Lemma limitSchema_false (limit : Q) :
  ~ (1 <= limit /\ limit <= 100)%Q -> limitSchema limit = false.
Proof.
  intros H. destruct (limitSchema limit) eqn:E; [|reflexivity].
  apply limitSchema_iff in E. contradiction.
Qed.

Lemma select_trim_reachesStore {R K} (T : table) (q : database -> list R)
  (n limit : Q) (cursorOf : R -> Cursor K) :
  reachesStore (data <- select_limit T q n ;; trim cursorOf limit data).
Proof.
  intros w. unfold bind, select_limit.
  destruct (sql_limit n (q (store w))) as [rows|].
  - unfold trim.
    destruct (Number.ltb limit (Number.ofLength rows));
      [destruct (nth_error _ _)|]; simpl;
      (split; [discriminate | now exists (Select T (Some n)), []]).
  - simpl. split; [discriminate | now exists (Select T (Some n)), []].
Qed.

Lemma bind_select {R B} (T : table) (q : database -> list R)
  (k : list R -> M B) (w : world) :
  (rows <- select T q ;; k rows) w = k (q (store w)) (logOp (Select T None) w).
Proof. reflexivity. Qed.

Lemma getVideos_reachesStore {K} (userId playlistId : string)
  (n limit : Q) (rows : database -> list videoItem)
  (cursorOf : videoItem -> Cursor K) :
  reachesStore
    (existingPlaylist <- select Tplaylists
       (playlistsRouter.existingPlaylistQuery playlistId userId) ;;
     match existingPlaylist with
     | [] => throw (TRPCError NOT_FOUND)
     | _ :: _ => data <- select_limit Tvideos rows n ;;
                 trim cursorOf limit data
     end).
Proof.
  intros w. rewrite bind_select.
  destruct (playlistsRouter.existingPlaylistQuery playlistId userId (store w)).
  - simpl. split; [discriminate | now exists (Select Tplaylists None), []].
  - destruct (select_trim_reachesStore Tvideos rows n limit cursorOf
                (logOp (Select Tplaylists None) w)) as (Hne & op & ops & Htr).
    split; [assumption|].
    exists (Select Tplaylists None), (op :: ops).
    rewrite Htr. simpl. now rewrite <- app_assoc.
Qed.

Ltac validates_limit :=
  intros limit; split;
  [ intros Hin; apply limitSchema_iff in Hin; parse_ok
  | intros Hout; apply limitSchema_false in Hout; rewrite Hout;
    rewrite ?andb_false_r; intros w; reflexivity ].

(** C5, as the procedures have it.  Every list procedure refuses a limit
    outside [1, 100], 0 and 101 among them, in its input parser, before any
    statement reaches the store; and, the rest of the input parsing, it
    accepts every number within [1, 100], 1 and 100 among them, whole or
    not, and goes on to query the store. *)
Theorem list_procedures_validate_limit (cuid2 : string -> bool)
  (userId categoryId : option string) (viewer videoId playlistId : string)
  (c : option (Cursor Z)) (cq : option (Cursor Q)) :
  cursorSchema cuid2 c = true -> cursorSchema cuid2 cq = true ->
  cuid2Nullish cuid2 categoryId = true ->
  cuid2 videoId = true -> cuid2 playlistId = true ->
  (limitSchema 0 = false /\ limitSchema 101 = false /\
   limitSchema 1 = true /\ limitSchema 100 = true) /\
  validatesLimit (videosRouter.getMany cuid2 userId categoryId c) /\
  validatesLimit (videosRouter.getManyTrending cuid2 cq) /\
  validatesLimit (videosRouter.getManySubscribed cuid2 viewer c) /\
  validatesLimit (playlistsRouter.getMany cuid2 viewer c) /\
  validatesLimit (playlistsRouter.getManyForVideo cuid2 viewer videoId c) /\
  validatesLimit (playlistsRouter.getHistory cuid2 viewer c) /\
  validatesLimit (playlistsRouter.getLiked cuid2 viewer c) /\
  validatesLimit (playlistsRouter.getVideos cuid2 viewer playlistId c).
Proof.
  intros Hc Hcq Hcat Hv Hp.
  split; [repeat split; reflexivity|].
  repeat match goal with |- _ /\ _ => split end.
  - unfold videosRouter.getMany. validates_limit.
    apply select_trim_reachesStore.
  - unfold videosRouter.getManyTrending. validates_limit.
    apply select_trim_reachesStore.
  - unfold videosRouter.getManySubscribed. validates_limit.
    apply select_trim_reachesStore.
  - unfold playlistsRouter.getMany. validates_limit.
    apply select_trim_reachesStore.
  - unfold playlistsRouter.getManyForVideo. validates_limit.
    apply select_trim_reachesStore.
  - unfold playlistsRouter.getHistory. validates_limit.
    apply select_trim_reachesStore.
  - unfold playlistsRouter.getLiked. validates_limit.
    apply select_trim_reachesStore.
  - unfold playlistsRouter.getVideos. validates_limit.
    apply getVideos_reachesStore.
Qed.

Lemma list_procedures_validate_limit_witness :
  rejectedByParser (playlistsRouter.getMany cuid2_sample "usera"%string None 0) /\
  rejectedByParser (videosRouter.getMany cuid2_sample None None None 101) /\
  reachesStore (playlistsRouter.getMany cuid2_sample "usera"%string None 1) /\
  reachesStore (videosRouter.getMany cuid2_sample None None None 100).
Proof.
  destruct (@list_procedures_validate_limit cuid2_sample None None
              "usera"%string "va"%string "pa"%string None None
              eq_refl eq_refl eq_refl eq_refl eq_refl)
    as (_ & Hv & _ & _ & Hp & _).
  repeat match goal with |- _ /\ _ => split end.
  - apply (Hp 0%Q). intros [H _]. now apply H.
  - apply (Hv 101%Q). intros [_ H]. now apply H.
  - apply (Hp 1%Q). split; discriminate.
  - apply (Hv 100%Q). split; discriminate.
Defined.

(** The limit 5/2 gets past the parser of [playlists.getMany] although it
    is not an integer: the accepted limits are not all integers. *)
Lemma accepted_limit_not_integer :
  ~ (forall limit : Q,
        reachesStore
          (playlistsRouter.getMany cuid2_sample "usera"%string None limit) ->
        Number.isInteger limit = true /\ (1 <= limit /\ limit <= 100)%Q).
Proof.
  intros H. destruct (H (5 # 2)) as [Hint _]; [|discriminate Hint].
  unfold playlistsRouter.getMany.
  change (cursorSchema cuid2_sample None && limitSchema (5 # 2)) with true.
  cbv iota. apply select_trim_reachesStore.
Qed.

(* ------------------------------------------------------------------ *)
(** ** A limit that is not an integer *)

(** C9.  The parser checks the limit with [z.number().min(1).max(100)]
    only: 5/2, strictly between 1 and 100 and not an integer, is accepted
    by [videos.getMany] and by [playlists.getMany], and the handler sends
    its read to the store with the cap 5/2 + 1 = 7/2.  (What a store
    answers to such a cap is outside these sources; the theorem records
    only that the read is sent and that the failure, if any, is not a
    validation failure.) *)
Theorem limit_parser_accepts_fraction (cuid2 : string -> bool)
  (userId : option string) (viewer : string) (w : world) :
  (1 < 5 # 2)%Q /\ (5 # 2 < 100)%Q /\
  Number.isInteger (5 # 2) = false /\
  limitSchema (5 # 2) = true /\
  (exists r,
      videosRouter.getMany cuid2 userId None None (5 # 2) w
      = (r, logOp (Select Tvideos (Some (7 # 2))) w) /\
      r <> Throw (TRPCError BAD_REQUEST)) /\
  (exists r,
      playlistsRouter.getMany cuid2 viewer None (5 # 2) w
      = (r, logOp (Select Tplaylists (Some (7 # 2))) w) /\
      r <> Throw (TRPCError BAD_REQUEST)).
Proof.
  repeat match goal with |- _ /\ _ => split end;
    try reflexivity.
  - exists (Throw StoreError). split; [reflexivity | discriminate].
  - exists (Throw StoreError). split; [reflexivity | discriminate].
Qed.

(* ------------------------------------------------------------------ *)
(** ** [getVideos]: the playlist lookup comes first *)

Lemma filter_nil_iff' {A} (f : A -> bool) (l : list A) :
  filter f l = [] <-> forall x, In x l -> f x = false.
Proof.
  induction l as [|a l IH]; simpl.
  - split; [intros _ x [] | reflexivity].
  - destruct (f a) eqn:E.
    + split; [discriminate|]. intros H. specialize (H a (or_introl eq_refl)).
      congruence.
    + rewrite IH. split.
      * intros H x [<-|Hx]; auto.
      * intros H x Hx. apply H. now right.
Qed.

Lemma existingPlaylistQuery_nil (db : database) (userId playlistId : string) :
  playlistsRouter.existingPlaylistQuery playlistId userId db = [] <->
  ~ ownsPlaylist db userId playlistId.
Proof.
  unfold playlistsRouter.existingPlaylistQuery, where_, ownsPlaylist.
  rewrite filter_nil_iff'. split.
  - intros H (p & Hp & E1 & E2). specialize (H p Hp).
    unfold and_, eqT, Text.eqb in H. cbn [forallb] in H.
    rewrite E1, E2, !String.eqb_refl in H. discriminate.
  - intros H p Hp.
    destruct (and_ _ p) eqn:E; [|reflexivity].
    exfalso. apply H. exists p. split; [assumption|].
    unfold and_, eqT, Text.eqb in E. cbn [forallb] in E.
    rewrite andb_true_r in E. apply andb_true_iff in E as [E1 E2].
    now apply String.eqb_eq in E1, E2.
Qed.

(** C6.  On an input that parses (integer limit in [1, 100]),
    [playlists.getVideos] throws NOT_FOUND exactly when the store holds no
    playlist with the given id owned by the caller; it then stops after
    the playlist lookup, the only statement sent to the store, so the page
    read is never sent.  When the owned playlist exists the lookup is
    followed by the page read, capped at [L + 1], and a page is returned. *)
Theorem getVideos_not_found_iff (cuid2 : string -> bool)
  (userId playlistId : string) (c : option (Cursor Z)) (L : Z) (w : world) :
  cuid2 playlistId = true -> cursorSchema cuid2 c = true -> 1 <= L <= 100 ->
  (fst (playlistsRouter.getVideos cuid2 userId playlistId c (ofInt L) w)
   = Throw (TRPCError NOT_FOUND)
   <-> ~ ownsPlaylist (store w) userId playlistId) /\
  (~ ownsPlaylist (store w) userId playlistId ->
   playlistsRouter.getVideos cuid2 userId playlistId c (ofInt L) w
   = (Throw (TRPCError NOT_FOUND), logOp (Select Tplaylists None) w)) /\
  (ownsPlaylist (store w) userId playlistId ->
   exists p,
     playlistsRouter.getVideos cuid2 userId playlistId c (ofInt L) w
     = (Return p, logOp (Select Tvideos (Some (ofInt L + 1)%Q))
                    (logOp (Select Tplaylists None) w))).
Proof.
  intros Hp Hc HL.
  rewrite playlists_getVideos_run by assumption.
  pose proof (existingPlaylistQuery_nil (store w) userId playlistId) as Hnil.
  destruct (playlistsRouter.existingPlaylistQuery playlistId userId (store w))
    as [|pl rest].
  - assert (~ ownsPlaylist (store w) userId playlistId) as Hno
      by now apply Hnil.
    split; [|split].
    + simpl. tauto.
    + reflexivity.
    + intros Hown. contradiction.
  - assert (~ ~ ownsPlaylist (store w) userId playlistId) as Hyes.
    { intros Hno. apply Hnil in Hno. discriminate. }
    split; [|split].
    + simpl. split; [discriminate | intros Hno; contradiction].
    + intros Hno. contradiction.
    + intros _. eexists. reflexivity.
Qed.

Lemma getVideos_not_found_iff_witness :
  (playlistsRouter.getVideos cuid2_sample "userb"%string "pa"%string None
     (ofInt 2) (mkWorld sampleDb [])
   = (Throw (TRPCError NOT_FOUND),
      logOp (Select Tplaylists None) (mkWorld sampleDb []))) /\
  (exists p,
     playlistsRouter.getVideos cuid2_sample "usera"%string "pa"%string None
       (ofInt 2) (mkWorld sampleDb [])
     = (Return p, logOp (Select Tvideos (Some (ofInt 2 + 1)%Q))
                    (logOp (Select Tplaylists None) (mkWorld sampleDb [])))).
Proof.
  split.
  - apply (@getVideos_not_found_iff cuid2_sample "userb"%string "pa"%string
             None 2 (mkWorld sampleDb []));
      [reflexivity | reflexivity | lia |].
    intros (p & Hp & E1 & E2). simpl in Hp.
    repeat (destruct Hp as [<-|Hp]; [discriminate|]). contradiction.
  - apply (@getVideos_not_found_iff cuid2_sample "usera"%string "pa"%string
             None 2 (mkWorld sampleDb []));
      [reflexivity | reflexivity | lia |].
    exists (mkPlaylist "pa" "usera" "first" 5).
    split; [now left | split; reflexivity].
Defined.

(* ------------------------------------------------------------------ *)
(** ** Nothing to list *)

Lemma rowsAt_nil {R} (key : R -> Z) (rid : R -> string)
  (c : option (Cursor Z)) : rowsAt key rid [] c = [].
Proof. now destruct c. Qed.

Lemma pageOf_nil {R K} (cursorOf : R -> Cursor K) (L : nat) :
  pageOf cursorOf L [] = mkPage [] None.
Proof. unfold pageOf. simpl. now destruct L. Qed.

(** C7.  With an integer limit in [1, 100] and an input that parses,
    [videos.getMany] and [playlists.getMany] succeed with
    [{ items: [], nextCursor: null }] when the collection is empty and,
    more generally, when no row matches the filter. *)
Theorem getMany_nothing_matches (cuid2 : string -> bool)
  (userId categoryId : option string) (viewer : string)
  (c : option (Cursor Z)) (L : Z) (w : world) :
  cursorSchema cuid2 c = true -> cuid2Nullish cuid2 categoryId = true ->
  1 <= L <= 100 ->
  ((videos (store w) = [] \/
    forall i, In i (map (videoColumns (store w)) (videosWithUsers (store w))) ->
              videosRouter.getMany_where userId categoryId None i = false) ->
   videosRouter.getMany cuid2 userId categoryId c (ofInt L) w
   = (Return (mkPage [] None), logOp (Select Tvideos (Some (ofInt L + 1)%Q)) w))
  /\
  ((playlists (store w) = [] \/
    forall i, In i (playlistsRouter.playlistsWithUsers (store w) (fun _ => false)) ->
              playlistsRouter.getMany_where viewer None i = false) ->
   playlistsRouter.getMany cuid2 viewer c (ofInt L) w
   = (Return (mkPage [] None),
      logOp (Select Tplaylists (Some (ofInt L + 1)%Q)) w)).
Proof.
  intros Hc Hcat HL. split; intros Hnone.
  - rewrite videos_getMany_run, videos_getMany_rows_cursor by assumption.
    assert (where_ (videosRouter.getMany_where userId categoryId None)
              (map (videoColumns (store w)) (videosWithUsers (store w))) = [])
      as ->.
    { destruct Hnone as [Hempty|Hnone].
      - unfold videosWithUsers. now rewrite Hempty.
      - now apply filter_nil_iff'. }
    simpl. now rewrite rowsAt_nil, pageOf_nil.
  - rewrite playlists_getMany_run, playlists_getMany_rows_cursor by assumption.
    assert (where_ (playlistsRouter.getMany_where viewer None)
              (playlistsRouter.playlistsWithUsers (store w) (fun _ => false))
            = []) as ->.
    { destruct Hnone as [Hempty|Hnone].
      - unfold playlistsRouter.playlistsWithUsers. now rewrite Hempty.
      - now apply filter_nil_iff'. }
    simpl. now rewrite rowsAt_nil, pageOf_nil.
Qed.

Lemma getMany_nothing_matches_witness :
  videosRouter.getMany cuid2_sample (Some "nobody"%string) None None (ofInt 3)
    (mkWorld sampleDb [])
  = (Return (mkPage [] None),
     logOp (Select Tvideos (Some (ofInt 3 + 1)%Q)) (mkWorld sampleDb [])) /\
  playlistsRouter.getMany cuid2_sample "usera"%string None (ofInt 3)
    (mkWorld (mkDb [] [mkUser "usera" "clerka"] [] [] [] [] []) [])
  = (Return (mkPage [] None),
     logOp (Select Tplaylists (Some (ofInt 3 + 1)%Q))
       (mkWorld (mkDb [] [mkUser "usera" "clerka"] [] [] [] [] []) [])).
Proof.
  split.
  - apply (@getMany_nothing_matches cuid2_sample (Some "nobody"%string) None
             "usera"%string None 3 (mkWorld sampleDb []));
      [reflexivity | reflexivity | lia |].
    right. intros i Hi. simpl in Hi.
    repeat (destruct Hi as [<-|Hi]; [reflexivity|]). contradiction.
  - apply (@getMany_nothing_matches cuid2_sample None None "usera"%string
             None 3
             (mkWorld (mkDb [] [mkUser "usera" "clerka"] [] [] [] [] []) []));
      [reflexivity | reflexivity | lia |].
    left. reflexivity.
Defined.

(* ------------------------------------------------------------------ *)
(** ** Only public videos are listed *)

Lemma and_head {R} (p : cond (R := R)) (cs : list (option cond)) (r : R) :
  and_ (Some p :: cs) r = true -> p r = true.
Proof. unfold and_. cbn [forallb]. now intros H%andb_true_iff. Qed.

Lemma visibility_eqb_eq (a b : visibility) :
  visibility_eqb a b = true -> a = b.
Proof. now destruct a, b. Qed.

Lemma orderBy_where_public {R} (k1 : R -> Z) (k2 : R -> string)
  (vis : R -> visibility) (cs : list (option cond)) (src : list R) (i : R) :
  In i (orderBy k1 k2 (where_ (and_ (Some (eqV vis Public) :: cs)) src)) ->
  vis i = Public.
Proof.
  unfold where_. rewrite orderBy_In, filter_In. intros [_ H].
  apply and_head in H. now apply visibility_eqb_eq.
Qed.

Ltac page_public H :=
  match type of H with
  | (if ?b then _ else _) _ = _ =>
      destruct b; [|discriminate H]
  end;
  apply select_trim_inv in H as (_ & Hincl & _);
  apply Forall_forall; intros i Hi; apply Hincl in Hi;
  eapply orderBy_where_public; exact Hi.

(** C8.  Whatever the input and the store, a page returned by a video
    listing ([videos.getMany], [getManyTrending], [getManySubscribed],
    [playlists.getHistory], [getLiked], [getVideos]) holds public videos
    only; the caller's own history and likes are no exception. *)
Theorem video_listings_public_only (cuid2 : string -> bool) :
  (forall userId categoryId c limit w p w',
      videosRouter.getMany cuid2 userId categoryId c limit w = (Return p, w') ->
      Forall (fun i => item_visibility i = Public) (items p)) /\
  (forall c limit w p w',
      videosRouter.getManyTrending cuid2 c limit w = (Return p, w') ->
      Forall (fun i => item_visibility i = Public) (items p)) /\
  (forall userId c limit w p w',
      videosRouter.getManySubscribed cuid2 userId c limit w = (Return p, w') ->
      Forall (fun i => item_visibility i = Public) (items p)) /\
  (forall userId c limit w p w',
      playlistsRouter.getHistory cuid2 userId c limit w = (Return p, w') ->
      Forall (fun i => dated_visibility i = Public) (items p)) /\
  (forall userId c limit w p w',
      playlistsRouter.getLiked cuid2 userId c limit w = (Return p, w') ->
      Forall (fun i => dated_visibility i = Public) (items p)) /\
  (forall userId playlistId c limit w p w',
      playlistsRouter.getVideos cuid2 userId playlistId c limit w
      = (Return p, w') ->
      Forall (fun i => item_visibility i = Public) (items p)).
Proof.
  repeat match goal with |- _ /\ _ => split end.
  - intros userId categoryId c limit w p w' H.
    unfold videosRouter.getMany in H. page_public H.
  - intros c limit w p w' H.
    unfold videosRouter.getManyTrending in H. page_public H.
  - intros userId c limit w p w' H.
    unfold videosRouter.getManySubscribed in H. page_public H.
  - intros userId c limit w p w' H.
    unfold playlistsRouter.getHistory in H. page_public H.
  - intros userId c limit w p w' H.
    unfold playlistsRouter.getLiked in H. page_public H.
  - intros userId playlistId c limit w p w' H.
    unfold playlistsRouter.getVideos in H.
    match type of H with
    | (if ?b then _ else _) _ = _ => destruct b; [|discriminate H]
    end.
    rewrite bind_select in H.
    destruct (playlistsRouter.existingPlaylistQuery _ _ _); [discriminate H|].
    apply select_trim_inv in H as (_ & Hincl & _).
    apply Forall_forall. intros i Hi. apply Hincl in Hi.
    eapply orderBy_where_public. exact Hi.
Qed.

Lemma video_listings_public_only_witness :
  exists p w',
    playlistsRouter.getHistory cuid2_sample "usera"%string None (ofInt 5)
      (mkWorld sampleDb []) = (Return p, w') /\
    map dated_id (items p) = ["va"%string; "vb"%string] /\
    Forall (fun i => dated_visibility i = Public) (items p).
Proof.
  destruct (video_listings_public_only cuid2_sample) as (_ & _ & _ & H & _).
  destruct (playlistsRouter.getHistory cuid2_sample "usera"%string None
              (ofInt 5) (mkWorld sampleDb [])) as [[p|e] w'] eqn:E.
  - exists p, w'. split; [reflexivity|].
    split; [|exact (H _ _ _ _ _ _ E)].
    vm_compute in E. inversion E. reflexivity.
  - vm_compute in E. discriminate E.
Defined.

(* ------------------------------------------------------------------ *)
(** ** [addVideo]: no video twice in a playlist *)

Lemma existingVideoQuery_nil (db : database) (videoId : string) :
  playlistsRouter.existingVideoQuery videoId db = [] <->
  ~ videoExists db videoId.
Proof.
  unfold playlistsRouter.existingVideoQuery, where_, videoExists.
  rewrite filter_nil_iff'. unfold eqT, Text.eqb. split.
  - intros H (v & Hv & E). specialize (H v Hv).
    rewrite E, String.eqb_refl in H. discriminate.
  - intros H v Hv. destruct (String.eqb_spec (videos_id v) videoId) as [E|E];
      [|reflexivity].
    exfalso. apply H. now exists v.
Qed.

Lemma existingPlaylistVideoQuery_nil (db : database)
  (playlistId videoId : string) :
  playlistsRouter.existingPlaylistVideoQuery playlistId videoId db = [] <->
  ~ inPlaylist db playlistId videoId.
Proof.
  unfold playlistsRouter.existingPlaylistVideoQuery, where_, inPlaylist.
  rewrite filter_nil_iff'. unfold and_, eqT, Text.eqb. cbn [forallb]. split.
  - intros H Hin. specialize (H _ Hin). simpl in H.
    rewrite !String.eqb_refl in H. discriminate.
  - intros H [pid vid] Hin. simpl.
    destruct (String.eqb_spec pid playlistId) as [->|E]; [|reflexivity].
    destruct (String.eqb_spec vid videoId) as [->|E]; [|reflexivity].
    contradiction.
Qed.

(** The five ways [addVideo] ends. *)
Lemma addVideo_cases (cuid2 : string -> bool)
  (userId playlistId videoId : string) (w : world) :
  let w1 := logOp (Select Tplaylists None) w in
  let w2 := logOp (Select Tvideos None) w1 in
  let w3 := logOp (Select TplaylistVideos None) w2 in
  playlistsRouter.addVideo cuid2 userId playlistId videoId w =
  if cuid2 playlistId && cuid2 videoId
  then match playlistsRouter.existingPlaylistQuery playlistId userId (store w) with
       | [] => (Throw (TRPCError NOT_FOUND), w1)
       | _ :: _ =>
           match playlistsRouter.existingVideoQuery videoId (store w) with
           | [] => (Throw (TRPCError NOT_FOUND), w2)
           | _ :: _ =>
               match playlistsRouter.existingPlaylistVideoQuery
                       playlistId videoId (store w) with
               | _ :: _ => (Throw (TRPCError CONFLICT), w3)
               | [] =>
                   (Return (mkPlaylistVideo playlistId videoId),
                    snd (insert_playlistVideos
                           (mkPlaylistVideo playlistId videoId) w3))
               end
           end
       end
  else (Throw (TRPCError BAD_REQUEST), w).
Proof.
  intros w1 w2 w3. unfold playlistsRouter.addVideo.
  destruct (cuid2 playlistId && cuid2 videoId); [|reflexivity].
  rewrite bind_select. fold w1.
  destruct (playlistsRouter.existingPlaylistQuery playlistId userId (store w));
    [reflexivity|].
  rewrite bind_select. fold w2. change (store w1) with (store w).
  destruct (playlistsRouter.existingVideoQuery videoId (store w));
    [reflexivity|].
  rewrite bind_select. fold w3. change (store w2) with (store w).
  destruct (playlistsRouter.existingPlaylistVideoQuery playlistId videoId
              (store w)); reflexivity.
Qed.

(** C10.  Called by the owner of the playlist for a video that exists,
    [playlists.addVideo] throws CONFLICT when the playlist already lists
    the video, after its three lookups and without an insert.  Whoever
    calls it and whatever it answers, it leaves the store untouched when
    the pair is already listed; so a [playlistVideos] table without a
    repeated (playlist, video) pair has none after the call. *)
Theorem addVideo_conflict_no_duplicate (cuid2 : string -> bool)
  (userId playlistId videoId : string) (w : world) :
  (cuid2 playlistId = true -> cuid2 videoId = true ->
   ownsPlaylist (store w) userId playlistId ->
   videoExists (store w) videoId ->
   inPlaylist (store w) playlistId videoId ->
   playlistsRouter.addVideo cuid2 userId playlistId videoId w
   = (Throw (TRPCError CONFLICT),
      mkWorld (store w)
        (trace w ++ [Select Tplaylists None; Select Tvideos None;
                     Select TplaylistVideos None]))) /\
  (inPlaylist (store w) playlistId videoId ->
   store (snd (playlistsRouter.addVideo cuid2 userId playlistId videoId w))
   = store w /\
   exists e,
     fst (playlistsRouter.addVideo cuid2 userId playlistId videoId w) = Throw e) /\
  (NoDup (playlistVideos (store w)) ->
   NoDup (playlistVideos
            (store (snd (playlistsRouter.addVideo cuid2 userId playlistId
                           videoId w))))).
Proof.
  pose proof (addVideo_cases cuid2 userId playlistId videoId w) as Hcases.
  cbv zeta in Hcases. rewrite Hcases. clear Hcases.
  pose proof (existingPlaylistQuery_nil (store w) userId playlistId) as HP.
  pose proof (existingVideoQuery_nil (store w) videoId) as HV.
  pose proof (existingPlaylistVideoQuery_nil (store w) playlistId videoId)
    as HPV.
  split; [|split].
  - intros -> -> Hown Hvid Hin. cbn [andb].
    destruct (playlistsRouter.existingPlaylistQuery playlistId userId (store w));
      [exfalso; now apply (proj1 HP)|].
    destruct (playlistsRouter.existingVideoQuery videoId (store w));
      [exfalso; now apply (proj1 HV)|].
    destruct (playlistsRouter.existingPlaylistVideoQuery playlistId videoId
                (store w));
      [exfalso; now apply (proj1 HPV)|].
    unfold logOp. simpl. now rewrite <- !app_assoc.
  - intros Hin.
    destruct (cuid2 playlistId && cuid2 videoId); [|split; [reflexivity | eexists; reflexivity]].
    destruct (playlistsRouter.existingPlaylistQuery playlistId userId (store w));
      [split; [reflexivity | eexists; reflexivity]|].
    destruct (playlistsRouter.existingVideoQuery videoId (store w));
      [split; [reflexivity | eexists; reflexivity]|].
    destruct (playlistsRouter.existingPlaylistVideoQuery playlistId videoId
                (store w));
      [exfalso; now apply (proj1 HPV) | split; [reflexivity | eexists; reflexivity]].
  - intros N.
    destruct (cuid2 playlistId && cuid2 videoId); [|assumption].
    destruct (playlistsRouter.existingPlaylistQuery playlistId userId (store w));
      [assumption|].
    destruct (playlistsRouter.existingVideoQuery videoId (store w));
      [assumption|].
    destruct (playlistsRouter.existingPlaylistVideoQuery playlistId videoId
                (store w)); [|assumption].
    simpl. apply NoDup_app; [assumption | repeat constructor; intros [] |].
    intros row Hrow [<-|[]]. now apply (proj1 HPV).
Qed.

Lemma addVideo_conflict_no_duplicate_witness :
  playlistsRouter.addVideo cuid2_sample "usera"%string "pa"%string "va"%string
    (mkWorld sampleDb [])
  = (Throw (TRPCError CONFLICT),
     mkWorld sampleDb [Select Tplaylists None; Select Tvideos None;
                       Select TplaylistVideos None]) /\
  NoDup (playlistVideos
           (store (snd (playlistsRouter.addVideo cuid2_sample "usera"%string
                          "pa"%string "vc"%string (mkWorld sampleDb []))))).
Proof.
  split.
  - apply (@addVideo_conflict_no_duplicate cuid2_sample "usera"%string
             "pa"%string "va"%string (mkWorld sampleDb []));
      try reflexivity.
    + exists (mkPlaylist "pa" "usera" "first" 5).
      split; [now left | split; reflexivity].
    + exists (mkVideo "va" "usera" (Some "cat1"%string) Public 30).
      split; [now left | reflexivity].
    + now left.
  - apply (@addVideo_conflict_no_duplicate cuid2_sample "usera"%string
             "pa"%string "vc"%string (mkWorld sampleDb [])).
    simpl. concrete_NoDup.
Defined.

(* ================================================================== *)
(** * Part III: the other procedures of the two routers *)

(* ------------------------------------------------------------------ *)
(** ** [removeVideo] and [addVideo] *)

Lemma database_eta (db : database) :
  mkDb (videos db) (users db) (playlists db) (playlistVideos db)
    (videoViews db) (videoReactions db) (subscriptions db) = db.
Proof. now destruct db. Qed.

Lemma pair_clause_iff (playlistId videoId : string) (row : playlistVideoRow) :
  and_ [Some (eqT playlistVideos_playlistId playlistId);
        Some (eqT playlistVideos_videoId videoId)] row = true
  <-> row = mkPlaylistVideo playlistId videoId.
Proof.
  unfold and_, eqT, Text.eqb. cbn [forallb]. destruct row as [pid vid]. simpl.
  rewrite andb_true_r, andb_true_iff, !String.eqb_eq. split.
  - now intros [-> ->].
  - intros E. now inversion E.
Qed.

Lemma owner_clause_iff (id userId : string) (row : playlistRow) :
  and_ [Some (eqT playlists_id id); Some (eqT playlists_userId userId)] row
  = true
  <-> playlists_id row = id /\ playlists_userId row = userId.
Proof.
  unfold and_, eqT, Text.eqb. cbn [forallb].
  now rewrite andb_true_r, andb_true_iff, !String.eqb_eq.
Qed.

Lemma filter_head_In {A} (f : A -> bool) (l rest : list A) (x : A) :
  filter f l = x :: rest -> In x l /\ f x = true.
Proof.
  intros E. apply filter_In. rewrite E. now left.
Qed.

Lemma filter_negb_notin {A} (f : A -> bool) (l : list A) :
  (forall x, In x l -> f x = false) -> filter (fun x => negb (f x)) l = l.
Proof.
  intros H. induction l as [|a l IH]; simpl; [reflexivity|].
  rewrite (H a) by now left. simpl. f_equal. apply IH.
  intros x Hx. apply H. now right.
Qed.

Lemma existingPlaylistQuery_cons (db : database) (userId playlistId : string)
  (row : playlistRow) (rest : list playlistRow) :
  playlistsRouter.existingPlaylistQuery playlistId userId db = row :: rest ->
  In row (playlists db) /\
  playlists_id row = playlistId /\ playlists_userId row = userId.
Proof.
  intros E. apply filter_head_In in E as [Hin E].
  now apply owner_clause_iff in E.
Qed.

Lemma existingVideoQuery_cons (db : database) (videoId : string)
  (row : videoRow) (rest : list videoRow) :
  playlistsRouter.existingVideoQuery videoId db = row :: rest ->
  videoExists db videoId.
Proof.
  intros E. apply filter_head_In in E as [Hin E].
  exists row. split; [assumption|]. now apply String.eqb_eq in E.
Qed.

Lemma existingPlaylistVideoQuery_cons (db : database)
  (playlistId videoId : string) (row : playlistVideoRow)
  (rest : list playlistVideoRow) :
  playlistsRouter.existingPlaylistVideoQuery playlistId videoId db
  = row :: rest ->
  row = mkPlaylistVideo playlistId videoId /\ inPlaylist db playlistId videoId.
Proof.
  intros E. apply filter_head_In in E as [Hin E].
  apply pair_clause_iff in E. split; [assumption|].
  unfold inPlaylist. now rewrite <- E.
Qed.

(** The five ways [removeVideo] ends. *)
Lemma removeVideo_cases (cuid2 : string -> bool)
  (userId playlistId videoId : string) (w : world) :
  let w1 := logOp (Select Tplaylists None) w in
  let w2 := logOp (Select Tvideos None) w1 in
  let w3 := logOp (Select TplaylistVideos None) w2 in
  let db := store w in
  playlistsRouter.removeVideo cuid2 userId playlistId videoId w =
  if cuid2 playlistId && cuid2 videoId
  then match playlistsRouter.existingPlaylistQuery playlistId userId db with
       | [] => (Throw (TRPCError NOT_FOUND), w1)
       | _ :: _ =>
           match playlistsRouter.existingVideoQuery videoId db with
           | [] => (Throw (TRPCError NOT_FOUND), w2)
           | _ :: _ =>
               match playlistsRouter.existingPlaylistVideoQuery
                       playlistId videoId db with
               | [] => (Throw (TRPCError NOT_FOUND), w3)
               | row :: _ =>
                   (Return row,
                    mkWorld
                      (mkDb (videos db) (users db) (playlists db)
                         (filter
                            (fun r =>
                               negb (and_ [Some (eqT playlistVideos_playlistId
                                                   playlistId);
                                           Some (eqT playlistVideos_videoId
                                                   videoId)] r))
                            (playlistVideos db))
                         (videoViews db) (videoReactions db) (subscriptions db))
                      (trace w3))
               end
           end
       end
  else (Throw (TRPCError BAD_REQUEST), w).
Proof.
  intros w1 w2 w3 db. unfold playlistsRouter.removeVideo.
  destruct (cuid2 playlistId && cuid2 videoId); [|reflexivity].
  rewrite bind_select. fold w1. fold db.
  destruct (playlistsRouter.existingPlaylistQuery playlistId userId db);
    [reflexivity|].
  rewrite bind_select. fold w2. change (store w1) with db.
  destruct (playlistsRouter.existingVideoQuery videoId db); [reflexivity|].
  rewrite bind_select. fold w3. change (store w2) with db.
  destruct (playlistsRouter.existingPlaylistVideoQuery playlistId videoId db)
    as [|row rest] eqn:E; [reflexivity|].
  unfold bind, delete_playlistVideos. change (store w3) with db.
  unfold playlistsRouter.existingPlaylistVideoQuery, where_ in E.
  rewrite E. reflexivity.
Qed.

(** X1.  On well-formed ids [removeVideo] answers by the three lookups
    alone: it returns the pair when the caller owns the playlist, the video
    exists and the playlist lists it, and otherwise throws NOT_FOUND and
    leaves the store as it was. *)
Theorem removeVideo_outcome (cuid2 : string -> bool)
  (userId playlistId videoId : string) (w : world) :
  cuid2 playlistId = true -> cuid2 videoId = true ->
  (ownsPlaylist (store w) userId playlistId /\
   videoExists (store w) videoId /\
   inPlaylist (store w) playlistId videoId ->
   fst (playlistsRouter.removeVideo cuid2 userId playlistId videoId w)
   = Return (mkPlaylistVideo playlistId videoId)) /\
  (~ (ownsPlaylist (store w) userId playlistId /\
      videoExists (store w) videoId /\
      inPlaylist (store w) playlistId videoId) ->
   fst (playlistsRouter.removeVideo cuid2 userId playlistId videoId w)
   = Throw (TRPCError NOT_FOUND) /\
   store (snd (playlistsRouter.removeVideo cuid2 userId playlistId videoId w))
   = store w).
Proof.
  intros Hp Hv.
  pose proof (removeVideo_cases cuid2 userId playlistId videoId w) as Hcases.
  cbv zeta in Hcases. rewrite Hcases, Hp, Hv. clear Hcases. cbn [andb].
  pose proof (existingPlaylistQuery_nil (store w) userId playlistId) as HP.
  pose proof (existingVideoQuery_nil (store w) videoId) as HV.
  pose proof (existingPlaylistVideoQuery_nil (store w) playlistId videoId)
    as HPV.
  destruct (playlistsRouter.existingPlaylistQuery playlistId userId (store w))
    as [|pl prest] eqn:EP.
  { split; [intros (Ho & _); exfalso; now apply (proj1 HP) | now split]. }
  destruct (playlistsRouter.existingVideoQuery videoId (store w))
    as [|v vrest] eqn:EV.
  { split; [intros (_ & Ho & _); exfalso; now apply (proj1 HV) | now split]. }
  destruct (playlistsRouter.existingPlaylistVideoQuery playlistId videoId
              (store w)) as [|row rest] eqn:E.
  { split; [intros (_ & _ & Ho); exfalso; now apply (proj1 HPV) | now split]. }
  apply existingPlaylistQuery_cons in EP as (Hin & E1 & E2).
  apply existingVideoQuery_cons in EV.
  apply existingPlaylistVideoQuery_cons in E as [-> Hlisted].
  split.
  - intros _. reflexivity.
  - intros Hno. exfalso. apply Hno. split; [|split]; try assumption.
    now exists pl.
Qed.

Lemma removeVideo_outcome_witness :
  fst (playlistsRouter.removeVideo cuid2_sample "usera"%string "pa"%string
         "vb"%string (mkWorld sampleDb []))
  = Return (mkPlaylistVideo "pa" "vb") /\
  fst (playlistsRouter.removeVideo cuid2_sample "userb"%string "pa"%string
         "vb"%string (mkWorld sampleDb []))
  = Throw (TRPCError NOT_FOUND).
Proof.
  split.
  - apply (@removeVideo_outcome cuid2_sample "usera"%string "pa"%string
             "vb"%string (mkWorld sampleDb []));
      [reflexivity | reflexivity |].
    split; [|split].
    + exists (mkPlaylist "pa" "usera" "first" 5).
      split; [now left | split; reflexivity].
    + exists (mkVideo "vb" "usera" None Public 20).
      split; [right; now left | reflexivity].
    + right. now left.
  - apply (@removeVideo_outcome cuid2_sample "userb"%string "pa"%string
             "vb"%string (mkWorld sampleDb []));
      [reflexivity | reflexivity |].
    intros ((p & Hp & E1 & E2) & _). simpl in Hp.
    repeat (destruct Hp as [<-|Hp]; [discriminate|]). contradiction.
Defined.

(** X2.  A [removeVideo] that returns has taken the pair, every copy of
    it, out of [playlistVideos] and nothing else: the other rows and the
    other tables are as before. *)
Theorem removeVideo_effect (cuid2 : string -> bool)
  (userId playlistId videoId : string) (w w' : world) (row : playlistVideoRow) :
  playlistsRouter.removeVideo cuid2 userId playlistId videoId w
  = (Return row, w') ->
  row = mkPlaylistVideo playlistId videoId /\
  ~ inPlaylist (store w') playlistId videoId /\
  (forall r, In r (playlistVideos (store w')) <->
             In r (playlistVideos (store w)) /\
             r <> mkPlaylistVideo playlistId videoId) /\
  onlyPlaylistVideosChanged (store w) (store w').
Proof.
  pose proof (removeVideo_cases cuid2 userId playlistId videoId w) as Hcases.
  cbv zeta in Hcases. rewrite Hcases. clear Hcases.
  destruct (cuid2 playlistId && cuid2 videoId); [|discriminate].
  destruct (playlistsRouter.existingPlaylistQuery playlistId userId (store w));
    [discriminate|].
  destruct (playlistsRouter.existingVideoQuery videoId (store w));
    [discriminate|].
  destruct (playlistsRouter.existingPlaylistVideoQuery playlistId videoId
              (store w)) as [|row0 rest] eqn:E; [discriminate|].
  intros H. inversion H; subst. clear H.
  apply existingPlaylistVideoQuery_cons in E as [-> _].
  assert (forall r,
             In r (filter
                     (fun r0 =>
                        negb (and_ [Some (eqT playlistVideos_playlistId playlistId);
                                    Some (eqT playlistVideos_videoId videoId)] r0))
                     (playlistVideos (store w))) <->
             In r (playlistVideos (store w)) /\
             r <> mkPlaylistVideo playlistId videoId) as Hin.
  { intros r. rewrite filter_In, negb_true_iff.
    rewrite <- pair_clause_iff, not_true_iff_false. reflexivity. }
  split; [reflexivity|]. split; [|split].
  - unfold inPlaylist. simpl. rewrite Hin. intros [_ N]. now apply N.
  - exact Hin.
  - repeat split.
Qed.

Lemma removeVideo_effect_witness :
  playlistVideos
    (store (snd (playlistsRouter.removeVideo cuid2_sample "usera"%string
                   "pa"%string "vb"%string (mkWorld sampleDb []))))
  = [mkPlaylistVideo "pa" "va"; mkPlaylistVideo "pa" "vd"] /\
  ~ inPlaylist
      (store (snd (playlistsRouter.removeVideo cuid2_sample "usera"%string
                     "pa"%string "vb"%string (mkWorld sampleDb []))))
      "pa"%string "vb"%string.
Proof.
  split; [reflexivity|].
  apply (@removeVideo_effect cuid2_sample "usera"%string "pa"%string
           "vb"%string (mkWorld sampleDb []) _ _ eq_refl).
Defined.

(** The ways [addVideo] ends when its two guards pass. *)
Lemma addVideo_guards_pass (cuid2 : string -> bool)
  (userId playlistId videoId : string) (w : world) :
  cuid2 playlistId = true -> cuid2 videoId = true ->
  ownsPlaylist (store w) userId playlistId -> videoExists (store w) videoId ->
  playlistsRouter.addVideo cuid2 userId playlistId videoId w =
  let w3 := logOp (Select TplaylistVideos None)
              (logOp (Select Tvideos None) (logOp (Select Tplaylists None) w)) in
  match playlistsRouter.existingPlaylistVideoQuery playlistId videoId (store w)
  with
  | _ :: _ => (Throw (TRPCError CONFLICT), w3)
  | [] => (Return (mkPlaylistVideo playlistId videoId),
           snd (insert_playlistVideos (mkPlaylistVideo playlistId videoId) w3))
  end.
Proof.
  intros Hp Hv Hown Hvid.
  pose proof (addVideo_cases cuid2 userId playlistId videoId w) as Hcases.
  cbv zeta in Hcases. rewrite Hcases, Hp, Hv. clear Hcases. cbn [andb].
  pose proof (existingPlaylistQuery_nil (store w) userId playlistId) as HP.
  pose proof (existingVideoQuery_nil (store w) videoId) as HV.
  destruct (playlistsRouter.existingPlaylistQuery playlistId userId (store w));
    [exfalso; now apply (proj1 HP)|].
  destruct (playlistsRouter.existingVideoQuery videoId (store w));
    [exfalso; now apply (proj1 HV)|].
  reflexivity.
Qed.

(** X3.  When the caller owns the playlist, the video exists and the
    playlist does not list it yet, [addVideo] returns the new pair and
    appends it to [playlistVideos], touching nothing else; the same call
    made again then throws CONFLICT and changes nothing. *)
Theorem addVideo_then_conflict (cuid2 : string -> bool)
  (userId playlistId videoId : string) (w : world) :
  cuid2 playlistId = true -> cuid2 videoId = true ->
  ownsPlaylist (store w) userId playlistId -> videoExists (store w) videoId ->
  ~ inPlaylist (store w) playlistId videoId ->
  let first := playlistsRouter.addVideo cuid2 userId playlistId videoId w in
  let second :=
    playlistsRouter.addVideo cuid2 userId playlistId videoId (snd first) in
  fst first = Return (mkPlaylistVideo playlistId videoId) /\
  playlistVideos (store (snd first))
  = playlistVideos (store w) ++ [mkPlaylistVideo playlistId videoId] /\
  onlyPlaylistVideosChanged (store w) (store (snd first)) /\
  fst second = Throw (TRPCError CONFLICT) /\
  store (snd second) = store (snd first).
Proof.
  intros Hp Hv Hown Hvid Hnew first second.
  assert (first =
          (Return (mkPlaylistVideo playlistId videoId),
           snd (insert_playlistVideos (mkPlaylistVideo playlistId videoId)
                  (logOp (Select TplaylistVideos None)
                     (logOp (Select Tvideos None)
                        (logOp (Select Tplaylists None) w)))))) as Hfirst.
  { unfold first. rewrite addVideo_guards_pass by assumption. cbv zeta.
    apply existingPlaylistVideoQuery_nil in Hnew. now rewrite Hnew. }
  assert (inPlaylist (store (snd first)) playlistId videoId) as Hlisted.
  { rewrite Hfirst. unfold inPlaylist. simpl. apply in_or_app. right. now left. }
  split; [now rewrite Hfirst|]. split; [now rewrite Hfirst|].
  split; [rewrite Hfirst; repeat split|].
  unfold second.
  rewrite addVideo_guards_pass; try assumption.
  - cbv zeta.
    destruct (playlistsRouter.existingPlaylistVideoQuery playlistId videoId
                (store (snd first))) eqn:E; [|now split].
    apply existingPlaylistVideoQuery_nil in E. contradiction.
  - rewrite Hfirst. exact Hown.
  - rewrite Hfirst. exact Hvid.
Qed.

Lemma addVideo_then_conflict_witness :
  let first := playlistsRouter.addVideo cuid2_sample "usera"%string
                 "pa"%string "vc"%string (mkWorld sampleDb []) in
  fst first = Return (mkPlaylistVideo "pa" "vc") /\
  fst (playlistsRouter.addVideo cuid2_sample "usera"%string "pa"%string
         "vc"%string (snd first))
  = Throw (TRPCError CONFLICT).
Proof.
  destruct (@addVideo_then_conflict cuid2_sample "usera"%string "pa"%string
              "vc"%string (mkWorld sampleDb []))
    as (H1 & _ & _ & H4 & _); try reflexivity.
  - exists (mkPlaylist "pa" "usera" "first" 5).
    split; [now left | split; reflexivity].
  - exists (mkVideo "vc" "userb" (Some "cat1"%string) Public 20).
    split; [right; right; now left | reflexivity].
  - intros H. simpl in H.
    repeat (destruct H as [H|H]; [discriminate|]). contradiction.
  - split; assumption.
Defined.

Lemma filter_out_appended (db : database) (playlistId videoId : string) :
  ~ inPlaylist db playlistId videoId ->
  let gone r := negb (and_ [Some (eqT playlistVideos_playlistId playlistId);
                            Some (eqT playlistVideos_videoId videoId)] r) in
  filter gone (playlistVideos db)
  ++ filter gone [mkPlaylistVideo playlistId videoId]
  = playlistVideos db.
Proof.
  intros Hnew gone. unfold gone at 2. cbn [filter].
  rewrite (proj2 (pair_clause_iff playlistId videoId _) eq_refl).
  cbn [negb]. rewrite app_nil_r. apply filter_negb_notin.
  intros x Hx.
  destruct (and_ _ x) eqn:E; [|reflexivity].
  apply pair_clause_iff in E. subst x. contradiction.
Qed.

(** X4.  Adding a video to a playlist and removing it again gives back
    the store one started from: when the caller owns the playlist, the
    video exists and the playlist did not list it, [removeVideo] after
    [addVideo] returns the pair and every table is as before. *)
Theorem addVideo_removeVideo_round_trip (cuid2 : string -> bool)
  (userId playlistId videoId : string) (w : world) :
  cuid2 playlistId = true -> cuid2 videoId = true ->
  ownsPlaylist (store w) userId playlistId -> videoExists (store w) videoId ->
  ~ inPlaylist (store w) playlistId videoId ->
  let added := playlistsRouter.addVideo cuid2 userId playlistId videoId w in
  let removed :=
    playlistsRouter.removeVideo cuid2 userId playlistId videoId (snd added) in
  fst added = Return (mkPlaylistVideo playlistId videoId) /\
  fst removed = Return (mkPlaylistVideo playlistId videoId) /\
  store (snd removed) = store w.
Proof.
  intros Hp Hv Hown Hvid Hnew added removed.
  assert (added =
          (Return (mkPlaylistVideo playlistId videoId),
           snd (insert_playlistVideos (mkPlaylistVideo playlistId videoId)
                  (logOp (Select TplaylistVideos None)
                     (logOp (Select Tvideos None)
                        (logOp (Select Tplaylists None) w)))))) as Hadded.
  { unfold added. rewrite addVideo_guards_pass by assumption. cbv zeta.
    apply existingPlaylistVideoQuery_nil in Hnew. now rewrite Hnew. }
  split; [now rewrite Hadded|].
  destruct removed as [r w'] eqn:Hrem. unfold removed in Hrem.
  assert (fst (playlistsRouter.removeVideo cuid2 userId playlistId videoId
                 (snd added))
          = Return (mkPlaylistVideo playlistId videoId)) as Hret.
  { apply removeVideo_outcome; try assumption.
    rewrite Hadded. simpl. split; [exact Hown|]. split; [exact Hvid|].
    unfold inPlaylist. simpl. apply in_or_app. right. now left. }
  rewrite Hrem in Hret. simpl in Hret. subst r.
  split; [reflexivity|].
  pose proof (removeVideo_cases cuid2 userId playlistId videoId (snd added))
    as Hcases.
  cbv zeta in Hcases. rewrite Hrem, Hp, Hv in Hcases. cbn [andb] in Hcases.
  destruct (playlistsRouter.existingPlaylistQuery _ _ _); [discriminate|].
  destruct (playlistsRouter.existingVideoQuery _ _); [discriminate|].
  destruct (playlistsRouter.existingPlaylistVideoQuery _ _ _); [discriminate|].
  inversion Hcases; subst. rewrite Hadded.
  cbn [snd store insert_playlistVideos logOp videos users playlists
       playlistVideos videoViews videoReactions subscriptions].
  etransitivity; [|apply database_eta]. f_equal.
  rewrite filter_app.
  exact (@filter_out_appended (store w) playlistId videoId Hnew).
Qed.

Lemma addVideo_removeVideo_round_trip_witness :
  store
    (snd (playlistsRouter.removeVideo cuid2_sample "usera"%string "pa"%string
            "vc"%string
            (snd (playlistsRouter.addVideo cuid2_sample "usera"%string
                    "pa"%string "vc"%string (mkWorld sampleDb [])))))
  = sampleDb.
Proof.
  apply (@addVideo_removeVideo_round_trip cuid2_sample "usera"%string
           "pa"%string "vc"%string (mkWorld sampleDb [])); try reflexivity.
  - exists (mkPlaylist "pa" "usera" "first" 5).
    split; [now left | split; reflexivity].
  - exists (mkVideo "vc" "userb" (Some "cat1"%string) Public 20).
    split; [right; right; now left | reflexivity].
  - intros H. simpl in H.
    repeat (destruct H as [H|H]; [discriminate|]). contradiction.
Defined.

(* ------------------------------------------------------------------ *)
(** ** [playlists.getOne], [remove] and [create] *)

Lemma playlists_getOne_cases (cuid2 : string -> bool) (userId id : string)
  (w : world) :
  cuid2 id = true ->
  playlistsRouter.getOne cuid2 userId id w =
  match playlistsRouter.existingPlaylistQuery id userId (store w) with
  | [] => (Throw (TRPCError NOT_FOUND), logOp (Select Tplaylists None) w)
  | row :: _ => (Return row, logOp (Select Tplaylists None) w)
  end.
Proof.
  intros Hid. unfold playlistsRouter.getOne. rewrite Hid, bind_select.
  now destruct (playlistsRouter.existingPlaylistQuery id userId (store w)).
Qed.

(** X5.  [playlists.getOne] serves a playlist to its owner only: on a
    well-formed id it returns a stored playlist with that id owned by the
    caller when there is one, throws NOT_FOUND otherwise (so also for a
    playlist of somebody else), and never changes the store. *)
Theorem playlists_getOne_owner_only (cuid2 : string -> bool)
  (userId id : string) (w : world) :
  cuid2 id = true ->
  store (snd (playlistsRouter.getOne cuid2 userId id w)) = store w /\
  (ownsPlaylist (store w) userId id ->
   exists row,
     fst (playlistsRouter.getOne cuid2 userId id w) = Return row /\
     In row (playlists (store w)) /\
     playlists_id row = id /\ playlists_userId row = userId) /\
  (~ ownsPlaylist (store w) userId id ->
   fst (playlistsRouter.getOne cuid2 userId id w)
   = Throw (TRPCError NOT_FOUND)).
Proof.
  intros Hid. rewrite playlists_getOne_cases by assumption.
  pose proof (existingPlaylistQuery_nil (store w) userId id) as HP.
  destruct (playlistsRouter.existingPlaylistQuery id userId (store w))
    as [|row rest] eqn:E.
  - split; [reflexivity|]. split; [|reflexivity].
    intros Hown. exfalso. now apply (proj1 HP).
  - apply existingPlaylistQuery_cons in E as (Hin & E1 & E2).
    split; [reflexivity|]. split.
    + intros _. now exists row.
    + intros Hno. exfalso. apply Hno. now exists row.
Qed.

Lemma playlists_getOne_owner_only_witness :
  (exists row,
      fst (playlistsRouter.getOne cuid2_sample "usera"%string "pa"%string
             (mkWorld sampleDb [])) = Return row /\
      In row (playlists sampleDb) /\
      playlists_id row = "pa"%string /\ playlists_userId row = "usera"%string) /\
  fst (playlistsRouter.getOne cuid2_sample "userb"%string "pa"%string
         (mkWorld sampleDb []))
  = Throw (TRPCError NOT_FOUND).
Proof.
  split.
  - apply (@playlists_getOne_owner_only cuid2_sample "usera"%string
             "pa"%string (mkWorld sampleDb []) eq_refl).
    exists (mkPlaylist "pa" "usera" "first" 5).
    split; [now left | split; reflexivity].
  - apply (@playlists_getOne_owner_only cuid2_sample "userb"%string
             "pa"%string (mkWorld sampleDb []) eq_refl).
    intros (p & Hp & E1 & E2). simpl in Hp.
    repeat (destruct Hp as [<-|Hp]; [discriminate|]). contradiction.
Defined.

Lemma playlists_remove_cases (cuid2 : string -> bool) (userId id : string)
  (w : world) :
  cuid2 id = true ->
  let owned := and_ [Some (eqT playlists_id id);
                     Some (eqT playlists_userId userId)] in
  let db := store w in
  let w' := mkWorld
              (mkDb (videos db) (users db)
                 (filter (fun r => negb (owned r)) (playlists db))
                 (playlistVideos db) (videoViews db) (videoReactions db)
                 (subscriptions db))
              (trace w) in
  playlistsRouter.remove cuid2 userId id w =
  match playlistsRouter.existingPlaylistQuery id userId db with
  | [] => (Throw (TRPCError NOT_FOUND), w')
  | row :: _ => (Return row, w')
  end.
Proof.
  intros Hid owned db w'. unfold playlistsRouter.remove. rewrite Hid.
  unfold bind, delete_playlists, playlistsRouter.existingPlaylistQuery, where_.
  fold owned. fold db.
  now destruct (filter owned (playlists db)).
Qed.

(** X6.  [playlists.remove] deletes what the caller owns and nothing
    else.  On a well-formed id: without a playlist of that id owned by the
    caller it throws NOT_FOUND and the store is as before; with one it
    returns a deleted row.  Either way the playlists left are those that
    were there and are not (that id, that owner), so nobody else's
    playlist goes, and a [getOne] of the id by the caller then throws
    NOT_FOUND. *)
Theorem playlists_remove_owner_only (cuid2 : string -> bool)
  (userId id : string) (w : world) :
  cuid2 id = true ->
  let r := playlistsRouter.remove cuid2 userId id w in
  (~ ownsPlaylist (store w) userId id ->
   fst r = Throw (TRPCError NOT_FOUND) /\ store (snd r) = store w) /\
  (ownsPlaylist (store w) userId id ->
   exists row, fst r = Return row /\ In row (playlists (store w)) /\
               playlists_id row = id /\ playlists_userId row = userId) /\
  (forall p, In p (playlists (store (snd r))) <->
             In p (playlists (store w)) /\
             ~ (playlists_id p = id /\ playlists_userId p = userId)) /\
  fst (playlistsRouter.getOne cuid2 userId id (snd r))
  = Throw (TRPCError NOT_FOUND).
Proof.
  intros Hid r.
  pose proof (@playlists_remove_cases cuid2 userId id w Hid) as Hcases.
  cbv zeta in Hcases. fold r in Hcases.
  pose proof (existingPlaylistQuery_nil (store w) userId id) as HP.
  set (owned := and_ [Some (eqT playlists_id id);
                      Some (eqT playlists_userId userId)]) in *.
  assert (forall p,
             In p (filter (fun r0 => negb (owned r0)) (playlists (store w)))
             <-> In p (playlists (store w)) /\
                 ~ (playlists_id p = id /\ playlists_userId p = userId))
    as Hleft.
  { intros p. rewrite filter_In, negb_true_iff.
    unfold owned. rewrite <- owner_clause_iff, not_true_iff_false.
    reflexivity. }
  assert (playlists (store (snd r))
          = filter (fun r0 => negb (owned r0)) (playlists (store w))) as Hpl.
  { rewrite Hcases.
    now destruct (playlistsRouter.existingPlaylistQuery id userId (store w)). }
  split; [|split; [|split]].
  - intros Hno. pose proof (proj2 HP Hno) as E.
    rewrite Hcases, E. split; [reflexivity|]. simpl.
    rewrite filter_negb_notin; [apply database_eta|].
    unfold playlistsRouter.existingPlaylistQuery, where_ in E.
    now apply filter_nil_iff'.
  - intros Hown. rewrite Hcases.
    destruct (playlistsRouter.existingPlaylistQuery id userId (store w))
      as [|row rest] eqn:E; [exfalso; now apply (proj1 HP)|].
    apply existingPlaylistQuery_cons in E. now exists row.
  - intros p. rewrite Hpl. apply Hleft.
  - apply playlists_getOne_owner_only; [assumption|].
    intros (p & Hp & E1 & E2). rewrite Hpl in Hp. apply Hleft in Hp.
    destruct Hp as [_ N]. now apply N.
Qed.

Lemma playlists_remove_owner_only_witness :
  fst (playlistsRouter.remove cuid2_sample "userb"%string "pa"%string
         (mkWorld sampleDb []))
  = Throw (TRPCError NOT_FOUND) /\
  store (snd (playlistsRouter.remove cuid2_sample "userb"%string "pa"%string
                (mkWorld sampleDb [])))
  = sampleDb /\
  fst (playlistsRouter.getOne cuid2_sample "usera"%string "pa"%string
         (snd (playlistsRouter.remove cuid2_sample "usera"%string "pa"%string
                 (mkWorld sampleDb []))))
  = Throw (TRPCError NOT_FOUND).
Proof.
  destruct (@playlists_remove_owner_only cuid2_sample "userb"%string
              "pa"%string (mkWorld sampleDb []) eq_refl)
    as (Hno & _).
  destruct (@playlists_remove_owner_only cuid2_sample "usera"%string
              "pa"%string (mkWorld sampleDb []) eq_refl)
    as (_ & _ & _ & Hgone).
  split; [|split].
  - apply Hno. intros (p & Hp & E1 & E2). simpl in Hp.
    repeat (destruct Hp as [<-|Hp]; [discriminate|]). contradiction.
  - apply Hno. intros (p & Hp & E1 & E2). simpl in Hp.
    repeat (destruct Hp as [<-|Hp]; [discriminate|]). contradiction.
  - exact Hgone.
Defined.

(** X7.  [playlists.create] refuses an empty name and a name of more than
    100 characters before any statement, and otherwise adds one playlist,
    owned by the caller and carrying the name, after the playlists already
    stored.  When the id the store gave the row is well formed and was not
    in use, [getOne] of that id returns the new row to the caller and
    throws NOT_FOUND for anybody else. *)
Theorem playlists_create_then_getOne (cuid2 : string -> bool)
  (newId : string) (now : Z) (userId name : string) (w : world) :
  let r := playlistsRouter.create newId now userId name w in
  let row := mkPlaylist newId userId name now in
  ((String.length name = 0 \/ 100 < String.length name)%nat ->
   r = (Throw (TRPCError BAD_REQUEST), w)) /\
  ((1 <= String.length name <= 100)%nat ->
   fst r = Return row /\
   playlists (store (snd r)) = playlists (store w) ++ [row] /\
   trace (snd r) = trace w ++ [InsertInto Tplaylists] /\
   onlyPlaylistsChanged (store w) (store (snd r)) /\
   (cuid2 newId = true ->
    (forall p, In p (playlists (store w)) -> playlists_id p <> newId) ->
    fst (playlistsRouter.getOne cuid2 userId newId (snd r)) = Return row /\
    forall other, other <> userId ->
      fst (playlistsRouter.getOne cuid2 other newId (snd r))
      = Throw (TRPCError NOT_FOUND))).
Proof.
  intros r row. unfold r, playlistsRouter.create, playlistsRouter.nameSchema.
  split.
  - intros Hbad.
    assert (((1 <=? String.length name) && (String.length name <=? 100))%nat
            = false) as ->; [|reflexivity].
    apply andb_false_iff. rewrite Nat.leb_gt, Nat.leb_gt. lia.
  - intros Hok.
    assert (((1 <=? String.length name) && (String.length name <=? 100))%nat
            = true) as ->
      by (apply andb_true_iff; rewrite !Nat.leb_le; lia).
    split; [reflexivity|]. split; [reflexivity|]. split; [reflexivity|].
    split; [repeat split|].
    intros Hid Hfresh.
    assert (forall who,
               playlistsRouter.existingPlaylistQuery newId who
                 (store (snd ((newPlaylist <-
                               insert_playlists (mkPlaylist newId userId name now);;
                               match newPlaylist with
                               | [] => throw (TRPCError INTERNAL_SERVER_ERROR)
                               | row0 :: _ => ret row0
                               end) w)))
               = if String.eqb userId who then [row] else []) as Hq.
    { intros who. unfold playlistsRouter.existingPlaylistQuery, where_.
      cbn [bind insert_playlists snd store playlists ret].
      rewrite filter_app.
      assert (filter (and_ [Some (eqT playlists_id newId);
                            Some (eqT playlists_userId who)])
                (playlists (store w)) = []) as ->.
      { apply filter_nil_iff'. intros p Hp.
        destruct (and_ _ p) eqn:E; [|reflexivity].
        apply owner_clause_iff in E as [E _]. now apply Hfresh in Hp. }
      cbn [app filter]. unfold and_, eqT, Text.eqb. cbn [forallb].
      cbn [playlists_id playlists_userId].
      rewrite String.eqb_refl, andb_true_r. reflexivity. }
    split.
    + rewrite playlists_getOne_cases by assumption.
      rewrite Hq, String.eqb_refl. reflexivity.
    + intros other Hother. rewrite playlists_getOne_cases by assumption.
      rewrite Hq. apply not_eq_sym, String.eqb_neq in Hother.
      now rewrite Hother.
Qed.

Lemma playlists_create_then_getOne_witness :
  playlistsRouter.create "pz"%string 77 "userb"%string ""%string
    (mkWorld sampleDb [])
  = (Throw (TRPCError BAD_REQUEST), mkWorld sampleDb []) /\
  fst (playlistsRouter.getOne cuid2_sample "userb"%string "pz"%string
         (snd (playlistsRouter.create "pz"%string 77 "userb"%string
                 "later"%string (mkWorld sampleDb []))))
  = Return (mkPlaylist "pz" "userb" "later" 77).
Proof.
  destruct (@playlists_create_then_getOne cuid2_sample "pz"%string 77
              "userb"%string ""%string (mkWorld sampleDb [])) as [Hbad _].
  destruct (@playlists_create_then_getOne cuid2_sample "pz"%string 77
              "userb"%string "later"%string (mkWorld sampleDb [])) as [_ Hok].
  split.
  - apply Hbad. left. reflexivity.
  - destruct Hok as (_ & _ & _ & _ & Hget); [simpl; lia|].
    apply Hget; [reflexivity|].
    intros p Hp. simpl in Hp.
    repeat (destruct Hp as [<-|Hp]; [discriminate|]). contradiction.
Defined.

(* ------------------------------------------------------------------ *)
(** ** Whose rows a listing returns *)

Lemma rows_of_statement {R} (k1 : R -> Z) (k2 : R -> string)
  (W : cond (R := R)) (src : list R) (i : R) :
  In i (orderBy k1 k2 (where_ W src)) -> In i src /\ W i = true.
Proof. unfold where_. now rewrite orderBy_In, filter_In. Qed.

Ltac returned_rows H Hincl :=
  repeat match type of H with
    | (if ?b then _ else _) _ = _ => destruct b; [|discriminate H]
    end;
  apply select_trim_inv in H as (_ & Hincl & _).

Lemma playlistsWithUsers_In (db : database) (contains : playlistRow -> bool)
  (i : playlistItem) :
  In i (playlistsRouter.playlistsWithUsers db contains) ->
  In (playlist i) (playlists db) /\
  In (playlistUser i) (users db) /\
  playlists_userId (playlist i) = users_id (playlistUser i) /\
  containsVideo i = contains (playlist i).
Proof.
  unfold playlistsRouter.playlistsWithUsers. intros H.
  apply in_map_iff in H as ([p u] & <- & H).
  apply (innerJoin_In playlists_userId users_id) in H as (Hp & Hu & E).
  apply text_eqb_eq in E. simpl. tauto.
Qed.

(** X8.  A page of [playlists.getMany] or [getManyForVideo] holds stored
    playlists of the caller only, each with the caller as its [user],
    whatever the cursor, the limit and the store. *)
Theorem playlist_listings_owner_only (cuid2 : string -> bool) :
  (forall userId c limit w p w',
      playlistsRouter.getMany cuid2 userId c limit w = (Return p, w') ->
      Forall (fun i => In (playlist i) (playlists (store w)) /\
                       playlist_userId i = userId /\
                       users_id (playlistUser i) = userId)
        (items p)) /\
  (forall userId videoId c limit w p w',
      playlistsRouter.getManyForVideo cuid2 userId videoId c limit w
      = (Return p, w') ->
      Forall (fun i => In (playlist i) (playlists (store w)) /\
                       playlist_userId i = userId /\
                       users_id (playlistUser i) = userId)
        (items p)).
Proof.
  split.
  - intros userId c limit w p w' H.
    unfold playlistsRouter.getMany in H. returned_rows H Hincl.
    apply Forall_forall. intros i Hi.
    apply Hincl, rows_of_statement in Hi as [Hsrc HW].
    apply and_head, text_eqb_eq in HW.
    apply playlistsWithUsers_In in Hsrc as (Hp & _ & E & _).
    unfold playlist_userId in *. split; [assumption|]. split; congruence.
  - intros userId videoId c limit w p w' H.
    unfold playlistsRouter.getManyForVideo in H. returned_rows H Hincl.
    apply Forall_forall. intros i Hi.
    apply Hincl, rows_of_statement in Hi as [Hsrc HW].
    apply and_head, text_eqb_eq in HW.
    apply playlistsWithUsers_In in Hsrc as (Hp & _ & E & _).
    unfold playlist_userId in *. split; [assumption|]. split; congruence.
Qed.

Lemma playlist_listings_owner_only_witness :
  exists p w',
    playlistsRouter.getMany cuid2_sample "usera"%string None (ofInt 10)
      (mkWorld sampleDb []) = (Return p, w') /\
    map playlist_id (items p) = ["pb"%string; "pa"%string; "pc"%string] /\
    Forall (fun i => In (playlist i) (playlists sampleDb) /\
                     playlist_userId i = "usera"%string /\
                     users_id (playlistUser i) = "usera"%string)
      (items p).
Proof.
  destruct (playlist_listings_owner_only cuid2_sample) as [H _].
  destruct (playlistsRouter.getMany cuid2_sample "usera"%string None
              (ofInt 10) (mkWorld sampleDb [])) as [[p|e] w'] eqn:E.
  - exists p, w'. split; [reflexivity|].
    split; [|exact (H _ _ _ _ _ _ E)].
    vm_compute in E. inversion E. reflexivity.
  - vm_compute in E. discriminate E.
Defined.

Lemma containsVideoColumn_iff (videoId : string) (db : database)
  (p : playlistRow) :
  playlistsRouter.containsVideoColumn videoId db p = true <->
  videoId <> EmptyString /\ inPlaylist db (playlists_id p) videoId.
Proof.
  unfold playlistsRouter.containsVideoColumn, Text.truthy.
  destruct (String.eqb_spec videoId EmptyString) as [E|E]; simpl.
  - split; [discriminate | intros [N _]; contradiction].
  - rewrite existsb_exists. split.
    + intros (row & Hin & Hrow). apply pair_clause_iff in Hrow. subst row.
      now split.
    + intros [_ Hin]. exists (mkPlaylistVideo (playlists_id p) videoId).
      split; [exact Hin | now apply pair_clause_iff].
Qed.

(** X9.  In a page of [getManyForVideo] the [containsVideo] flag of a
    playlist is true exactly when the playlist lists the video (and the
    video id is not the empty string, for which the flag is always
    false). *)
Theorem getManyForVideo_containsVideo (cuid2 : string -> bool)
  (userId videoId : string) (c : option (Cursor Z)) (limit : Q)
  (w w' : world) (p : Page playlistItem Z) :
  playlistsRouter.getManyForVideo cuid2 userId videoId c limit w
  = (Return p, w') ->
  Forall (fun i => containsVideo i = true <->
                   videoId <> EmptyString /\
                   inPlaylist (store w) (playlist_id i) videoId)
    (items p).
Proof.
  intros H. unfold playlistsRouter.getManyForVideo in H.
  returned_rows H Hincl.
  apply Forall_forall. intros i Hi.
  apply Hincl, rows_of_statement in Hi as [Hsrc _].
  apply playlistsWithUsers_In in Hsrc as (_ & _ & _ & E).
  rewrite E. apply containsVideoColumn_iff.
Qed.

Lemma getManyForVideo_containsVideo_witness :
  exists p w',
    playlistsRouter.getManyForVideo cuid2_sample "usera"%string "va"%string
      None (ofInt 10) (mkWorld sampleDb []) = (Return p, w') /\
    map (fun i => (playlist_id i, containsVideo i)) (items p)
    = [("pb"%string, false); ("pa"%string, true); ("pc"%string, false)] /\
    Forall (fun i => containsVideo i = true <->
                     "va"%string <> EmptyString /\
                     inPlaylist sampleDb (playlist_id i) "va"%string)
      (items p).
Proof.
  destruct (playlistsRouter.getManyForVideo cuid2_sample "usera"%string
              "va"%string None (ofInt 10) (mkWorld sampleDb []))
    as [[p|e] w'] eqn:E.
  - exists p, w'. split; [reflexivity|].
    split; [|exact (getManyForVideo_containsVideo _ _ _ _ _ _ E)].
    vm_compute in E. inversion E. reflexivity.
  - vm_compute in E. discriminate E.
Defined.

Lemma videoColumns_video (db : database) (vu : videoRow * userRow) :
  video (videoColumns db vu) = fst vu /\ user (videoColumns db vu) = snd vu.
Proof. now destruct vu. Qed.

(** X10.  The listings scoped to the viewer return nothing foreign: a
    video of the history was viewed by the caller at its [viewedAt], a
    liked video carries a like of the caller made at its [likedAt], a
    subscribed video belongs to a creator the caller subscribes to, and a
    video of [getVideos] is listed by the requested playlist, which the
    caller owns. *)
Theorem viewer_listings_scope (cuid2 : string -> bool) :
  (forall userId c limit w p w',
      playlistsRouter.getHistory cuid2 userId c limit w = (Return p, w') ->
      Forall (fun i => In (mkVideoView userId (dated_id i) (datedAt i))
                         (videoViews (store w)))
        (items p)) /\
  (forall userId c limit w p w',
      playlistsRouter.getLiked cuid2 userId c limit w = (Return p, w') ->
      Forall (fun i => In (mkVideoReaction userId (dated_id i) Like (datedAt i))
                         (videoReactions (store w)))
        (items p)) /\
  (forall userId c limit w p w',
      videosRouter.getManySubscribed cuid2 userId c limit w = (Return p, w') ->
      Forall (fun i => In (mkSubscription userId (videos_userId (video i)))
                         (subscriptions (store w)))
        (items p)) /\
  (forall userId playlistId c limit w p w',
      playlistsRouter.getVideos cuid2 userId playlistId c limit w
      = (Return p, w') ->
      ownsPlaylist (store w) userId playlistId /\
      Forall (fun i => inPlaylist (store w) playlistId (item_id i)) (items p)).
Proof.
  repeat match goal with |- _ /\ _ => split end.
  - intros userId c limit w p w' H.
    unfold playlistsRouter.getHistory in H. returned_rows H Hincl.
    apply Forall_forall. intros i Hi.
    apply Hincl, rows_of_statement in Hi as [Hsrc _].
    apply in_map_iff in Hsrc as ([vu [vid at_]] & <- & Hj).
    apply (innerJoin_In (fun vu => videos_id (fst vu)) fst) in Hj
      as (_ & Hv & E).
    apply text_eqb_eq in E. simpl in E.
    unfold playlistsRouter.viewerVideoViews, where_ in Hv.
    apply in_map_iff in Hv as ([u v t] & Erow & Hv).
    apply filter_In in Hv as [Hv Eu]. apply text_eqb_eq in Eu.
    simpl in *. inversion Erow; subst.
    unfold dated_id. simpl. rewrite item_id_videoColumns. exact Hv.
  - intros userId c limit w p w' H.
    unfold playlistsRouter.getLiked in H. returned_rows H Hincl.
    apply Forall_forall. intros i Hi.
    apply Hincl, rows_of_statement in Hi as [Hsrc _].
    apply in_map_iff in Hsrc as ([vu [vid at_]] & <- & Hj).
    apply (innerJoin_In (fun vu => videos_id (fst vu)) fst) in Hj
      as (_ & Hv & E).
    apply text_eqb_eq in E. simpl in E.
    unfold playlistsRouter.viewerVideoReactions, where_ in Hv.
    apply in_map_iff in Hv as ([u v ty t] & Erow & Hv).
    apply filter_In in Hv as [Hv Eu].
    unfold and_, eqT in Eu. cbn [forallb] in Eu.
    rewrite andb_true_r in Eu. apply andb_true_iff in Eu as [Eu Ety].
    apply text_eqb_eq in Eu. simpl in *. inversion Erow; subst.
    destruct ty; [|discriminate].
    unfold dated_id. simpl. rewrite item_id_videoColumns. exact Hv.
  - intros userId c limit w p w' H.
    unfold videosRouter.getManySubscribed in H. returned_rows H Hincl.
    apply Forall_forall. intros i Hi.
    apply Hincl, rows_of_statement in Hi as [Hsrc _].
    apply in_map_iff in Hsrc as ([vu s] & <- & Hj).
    apply (innerJoin_In (fun vu => users_id (snd vu)) (fun s => s)) in Hj
      as (Hvu & Hs & E).
    apply text_eqb_eq in E. simpl in E.
    unfold videosRouter.viewerSubscriptions, where_ in Hs.
    apply in_map_iff in Hs as ([viewer creator] & Erow & Hs).
    apply filter_In in Hs as [Hs Eu]. apply text_eqb_eq in Eu.
    simpl in *. subst.
    destruct vu as [v u].
    apply (innerJoin_In videos_userId users_id) in Hvu as (_ & _ & Evu).
    apply text_eqb_eq in Evu. simpl in *. rewrite Evu. exact Hs.
  - intros userId playlistId c limit w p w' H.
    unfold playlistsRouter.getVideos in H.
    match type of H with
    | (if ?b then _ else _) _ = _ => destruct b; [|discriminate H]
    end.
    rewrite bind_select in H.
    destruct (playlistsRouter.existingPlaylistQuery playlistId userId (store w))
      as [|pl rest] eqn:EP; [discriminate H|].
    apply existingPlaylistQuery_cons in EP.
    split; [now exists pl|].
    apply select_trim_inv in H as (_ & Hincl & _).
    apply Forall_forall. intros i Hi.
    apply Hincl, rows_of_statement in Hi as [Hsrc _].
    apply in_map_iff in Hsrc as ([vu vid] & <- & Hj).
    apply (innerJoin_In (fun vu => videos_id (fst vu)) (fun s => s)) in Hj
      as (_ & Hv & E).
    apply text_eqb_eq in E. simpl in E.
    unfold playlistsRouter.videosFromPlaylist, where_ in Hv.
    apply in_map_iff in Hv as ([pid vid'] & Erow & Hv).
    apply filter_In in Hv as [Hv Eu]. apply text_eqb_eq in Eu.
    simpl in *. subst.
    unfold inPlaylist. rewrite item_id_videoColumns. exact Hv.
Qed.

Lemma viewer_listings_scope_witness :
  exists p w',
    playlistsRouter.getLiked cuid2_sample "usera"%string None (ofInt 5)
      (mkWorld sampleDb []) = (Return p, w') /\
    map (fun i => (dated_id i, datedAt i)) (items p)
    = [("ve"%string, 9); ("va"%string, 7)] /\
    Forall (fun i => In (mkVideoReaction "usera" (dated_id i) Like (datedAt i))
                       (videoReactions sampleDb))
      (items p).
Proof.
  destruct (viewer_listings_scope cuid2_sample) as (_ & H & _).
  destruct (playlistsRouter.getLiked cuid2_sample "usera"%string None
              (ofInt 5) (mkWorld sampleDb [])) as [[p|e] w'] eqn:E.
  - exists p, w'. split; [reflexivity|].
    split; [|exact (H _ _ _ _ _ _ E)].
    vm_compute in E. inversion E. reflexivity.
  - vm_compute in E. discriminate E.
Defined.

(* ------------------------------------------------------------------ *)
(** ** The other listings whose order is the order of their cursor *)

Lemma statement_rows_cursor {R} (key : R -> Z) (rid : R -> string)
  (W : option (Cursor Z) -> cond (R := R)) (src : list R)
  (c : option (Cursor Z)) :
  (forall c' i, W (Some c') i = W None i && keysetClause key rid c' i) ->
  orderBy key rid (where_ (W c) src)
  = rowsAt key rid (orderBy key rid (where_ (W None) src)) c.
Proof.
  intros HW. destruct c as [c|]; [|reflexivity].
  unfold rowsAt, where_. rewrite filter_orderBy, <- filter_andb. f_equal.
  apply filter_ext. intros i. apply HW.
Qed.

Lemma public_where_cursor {R} (key : R -> Z) (rid : R -> string)
  (vis : R -> visibility) (c : Cursor Z) (i : R) :
  and_ [Some (eqV vis Public);
        Some (or_ (ltD key (sortKey c))
                (and_ [Some (eqD key (sortKey c)); Some (ltT rid (id c))]))] i
  = and_ [Some (eqV vis Public); None] i && keysetClause key rid c i.
Proof.
  unfold and_ at 1 3. cbn [forallb]. now rewrite !andb_true_r.
Qed.

(** A key of a table stays a key of a projection of some of its rows when
    the projection separates the rows kept. *)
Lemma key_of_projection {A K B} (k : A -> K) (f : A -> B) (p : A -> bool)
  (l : list A) :
  NoDup (map k l) ->
  (forall x y, p x = true -> p y = true -> f x = f y -> k x = k y) ->
  NoDup (map f (filter p l)).
Proof.
  intros N Hsep. induction l as [|a l IH]; simpl; [constructor|].
  apply NoDup_cons_iff in N as [Na N].
  destruct (p a) eqn:Pa; [|now apply IH].
  simpl. constructor; [|now apply IH].
  intros Hin. apply in_map_iff in Hin as (b & E & Hb).
  apply filter_In in Hb as [Hb Pb].
  apply Na. rewrite <- (Hsep b a Pb Pa E). now apply in_map.
Qed.

Lemma videosWithUsers_key (db : database) :
  NoDup (map users_id (users db)) -> NoDup (map videos_id (videos db)) ->
  NoDup (map (fun vu => videos_id (fst vu)) (videosWithUsers db)).
Proof.
  intros Nu Nv.
  apply (innerJoin_NoDup videos_userId users_id videos_id _ _ Nu Nv).
Qed.

Lemma videosWithUsers_length (db : database) :
  NoDup (map users_id (users db)) ->
  (List.length (videosWithUsers db) <= List.length (videos db))%nat.
Proof. intros Nu. apply (innerJoin_length videos_userId users_id _ _ Nu). Qed.

Lemma videosWithUsers_ids (P : string -> Prop) (db : database)
  (vu : videoRow * userRow) :
  Forall (fun v => P (videos_id v)) (videos db) ->
  In vu (videosWithUsers db) -> P (videos_id (fst vu)).
Proof.
  rewrite Forall_forall. intros H Hin. apply H.
  eapply innerJoin_fst with (fk := videos_userId) (kb := users_id). exact Hin.
Qed.

(** The rows of a listing that joins [videos] and [users] with a list [B]
    of the viewer, on a key of [B]. *)
Section ViewerJoin.
Context {B R : Type}.
Variables (db : database) (bs : list B).
Variables (fk : videoRow * userRow -> string) (kb : B -> string).
Variable mk : (videoRow * userRow) * B -> R.
Variable rid : R -> string.
Hypothesis rid_mk : forall row, rid (mk row) = videos_id (fst (fst row)).
Hypothesis users_key : NoDup (map users_id (users db)).
Hypothesis videos_key : NoDup (map videos_id (videos db)).
Hypothesis bs_key : NoDup (map kb bs).

Local Abbreviation joined :=
  (map mk (innerJoin (videosWithUsers db) bs
             (fun vu b => Text.eqb (fk vu) (kb b)))).

Lemma viewerJoin_key : NoDup (map rid joined).
Proof.
  rewrite map_map. rewrite (map_ext _ _ rid_mk).
  apply (innerJoin_NoDup fk kb (fun vu => videos_id (fst vu))).
  - exact bs_key.
  - now apply videosWithUsers_key.
Qed.

Lemma viewerJoin_length :
  (List.length joined <= List.length (videos db))%nat.
Proof.
  rewrite length_map.
  pose proof (innerJoin_length fk kb (videosWithUsers db) bs bs_key).
  pose proof (videosWithUsers_length db users_key). lia.
Qed.

Lemma viewerJoin_ids (P : string -> Prop) :
  Forall (fun v => P (videos_id v)) (videos db) ->
  Forall (fun r => P (rid r)) joined.
Proof.
  intros H. apply Forall_forall. intros r Hr.
  apply in_map_iff in Hr as (row & <- & Hrow). rewrite rid_mk.
  apply (videosWithUsers_ids P db _ H).
  eapply innerJoin_fst with (fk := fk) (kb := kb). exact Hrow.
Qed.

End ViewerJoin.

(** X11.  [getManyForVideo] enumerates like [getMany]: on a store whose
    user and playlist ids are keys and well formed, for a well-formed video
    id and an integer limit in [1, 100], chaining [nextCursor] from null
    returns within [fuel] calls, leaves the store as it was, and the pages
    hold the caller's playlists, each once, in strictly descending
    [(updatedAt, id)] order, the last page with a null [nextCursor]. *)
Theorem getManyForVideo_enumerates (cuid2 : string -> bool) (db : database)
  (userId videoId : string) (L : Z) (fuel : nat) (tr : list storeOp) :
  NoDup (map users_id (users db)) ->
  NoDup (map playlists_id (playlists db)) ->
  Forall (fun p => cuid2 (playlists_id p) = true) (playlists db) ->
  cuid2 videoId = true ->
  1 <= L <= 100 ->
  (List.length (playlists db) < fuel)%nat ->
  exists pages w',
    enumerate
      (fun c => playlistsRouter.getManyForVideo cuid2 userId videoId c (ofInt L))
      fuel None (mkWorld db tr) = (Return (Some pages), w') /\
    store w' = db /\
    enumerates playlist_updatedAt playlist_id
      (where_ (playlistsRouter.getMany_where userId None)
         (playlistsRouter.playlistsWithUsers db
            (playlistsRouter.containsVideoColumn videoId db)))
      L pages.
Proof.
  intros Nu Np Ip Hv HL Hfuel.
  apply keyset_enumeration with (cuid2 := cuid2) (db := db).
  - now apply playlists_source_NoDup.
  - now apply (playlists_source_ids (fun s => cuid2 s = true)).
  - lia.
  - intros c w Hw Hc. eexists. split.
    + rewrite playlists_getManyForVideo_run by assumption.
      unfold playlistsRouter.getManyForVideo_rows.
      rewrite (statement_rows_cursor playlist_updatedAt playlist_id
                 (playlistsRouter.getMany_where userId))
        by apply playlists_getMany_where_cursor.
      rewrite Hw. reflexivity.
    + exact Hw.
  - reflexivity.
  - pose proof (playlists_source_length db
                  (playlistsRouter.containsVideoColumn videoId db) Nu).
    simpl. lia.
Qed.

Lemma getManyForVideo_enumerates_witness :
  exists pages w',
    enumerate
      (fun c => playlistsRouter.getManyForVideo cuid2_sample "usera"%string
                  "va"%string c (ofInt 2))
      5 None (mkWorld sampleDb []) = (Return (Some pages), w') /\
    store w' = sampleDb /\
    enumerates playlist_updatedAt playlist_id
      (where_ (playlistsRouter.getMany_where "usera"%string None)
         (playlistsRouter.playlistsWithUsers sampleDb
            (playlistsRouter.containsVideoColumn "va"%string sampleDb)))
      2 pages.
Proof.
  apply (@getManyForVideo_enumerates cuid2_sample sampleDb "usera"%string
           "va"%string 2 5 []).
  - concrete_NoDup.
  - concrete_NoDup.
  - concrete_Forall.
  - reflexivity.
  - lia.
  - simpl. lia.
Defined.

Lemma viewerSubscriptions_key (userId : string) (db : database) :
  NoDup (subscriptions db) ->
  NoDup (map (fun s : string => s) (videosRouter.viewerSubscriptions userId db)).
Proof.
  intros N. rewrite map_id. unfold videosRouter.viewerSubscriptions, where_.
  apply (key_of_projection (fun s : subscriptionRow => s)).
  - now rewrite map_id.
  - intros [v1 c1] [v2 c2] E1 E2 E. apply text_eqb_eq in E1, E2.
    simpl in *. congruence.
Qed.

(** X12.  [getManySubscribed] enumerates the public videos of the creators
    the caller subscribes to: with user and video ids that are keys, no
    subscription stored twice, well-formed video ids and an integer limit
    in [1, 100], chaining [nextCursor] from null returns every such video
    once, in strictly descending [(updatedAt, id)] order, and ends on a
    null [nextCursor] with the store unchanged. *)
Theorem getManySubscribed_enumerates (cuid2 : string -> bool) (db : database)
  (userId : string) (L : Z) (fuel : nat) (tr : list storeOp) :
  NoDup (map users_id (users db)) ->
  NoDup (map videos_id (videos db)) ->
  NoDup (subscriptions db) ->
  Forall (fun v => cuid2 (videos_id v) = true) (videos db) ->
  1 <= L <= 100 ->
  (List.length (videos db) < fuel)%nat ->
  exists pages w',
    enumerate
      (fun c => videosRouter.getManySubscribed cuid2 userId c (ofInt L))
      fuel None (mkWorld db tr) = (Return (Some pages), w') /\
    store w' = db /\
    enumerates item_updatedAt item_id
      (where_ (videosRouter.getManySubscribed_where None)
         (map (fun vus => videoColumns db (fst vus))
            (innerJoin (videosWithUsers db)
               (videosRouter.viewerSubscriptions userId db)
               (fun vu s => Text.eqb (users_id (snd vu)) s))))
      L pages.
Proof.
  intros Nu Nv Ns Iv HL Hfuel.
  pose proof (viewerSubscriptions_key userId db Ns) as Nb.
  assert (forall row : (videoRow * userRow) * string,
             item_id (videoColumns db (fst row)) = videos_id (fst (fst row)))
    as Hrid by (intros row; apply item_id_videoColumns).
  apply keyset_enumeration with (cuid2 := cuid2) (db := db).
  - exact (viewerJoin_key db _ (fun vu => users_id (snd vu)) (fun s => s)
             _ item_id Hrid Nu Nv Nb).
  - exact (viewerJoin_ids db _ (fun vu => users_id (snd vu)) (fun s => s)
             _ item_id Hrid (fun s => cuid2 s = true) Iv).
  - lia.
  - intros c w Hw Hc. eexists. split.
    + rewrite videos_getManySubscribed_run by assumption.
      unfold videosRouter.getManySubscribed_rows.
      rewrite (statement_rows_cursor item_updatedAt item_id
                 videosRouter.getManySubscribed_where)
        by (intros c' i; apply public_where_cursor).
      rewrite Hw. reflexivity.
    + exact Hw.
  - reflexivity.
  - pose proof (viewerJoin_length db _ (fun vu => users_id (snd vu))
                  (fun s => s)
                  (fun vus : (videoRow * userRow) * string =>
                     videoColumns db (fst vus))
                  Nu Nb).
    simpl. lia.
Qed.

Lemma getManySubscribed_enumerates_witness :
  exists pages w',
    enumerate
      (fun c => videosRouter.getManySubscribed cuid2_sample "usera"%string c
                  (ofInt 1))
      6 None (mkWorld sampleDb []) = (Return (Some pages), w') /\
    store w' = sampleDb /\
    enumerates item_updatedAt item_id
      (where_ (videosRouter.getManySubscribed_where None)
         (map (fun vus => videoColumns sampleDb (fst vus))
            (innerJoin (videosWithUsers sampleDb)
               (videosRouter.viewerSubscriptions "usera"%string sampleDb)
               (fun vu s => Text.eqb (users_id (snd vu)) s))))
      1 pages.
Proof.
  apply (@getManySubscribed_enumerates cuid2_sample sampleDb "usera"%string
           1 6 []).
  - concrete_NoDup.
  - concrete_NoDup.
  - concrete_NoDup.
  - concrete_Forall.
  - lia.
  - simpl. lia.
Defined.

Lemma viewerVideoReactions_key (userId : string) (db : database) :
  NoDup (map (fun r => (videoReactions_userId r, videoReactions_videoId r))
           (videoReactions db)) ->
  NoDup (map (@fst string Z) (playlistsRouter.viewerVideoReactions userId db)).
Proof.
  intros N. unfold playlistsRouter.viewerVideoReactions, where_.
  rewrite map_map. cbn [fst].
  apply (key_of_projection
           (fun r => (videoReactions_userId r, videoReactions_videoId r))).
  - exact N.
  - intros x y Ex Ey E.
    apply and_head, text_eqb_eq in Ex. apply and_head, text_eqb_eq in Ey.
    congruence.
Qed.

(** X13.  [getLiked] enumerates the public videos the caller likes, most
    recently liked first: with user and video ids that are keys, at most
    one reaction per user and video, well-formed video ids and an integer
    limit in [1, 100], chaining [nextCursor] from null returns every such
    video once, in strictly descending [(likedAt, id)] order, and ends on
    a null [nextCursor] with the store unchanged. *)
Theorem getLiked_enumerates (cuid2 : string -> bool) (db : database)
  (userId : string) (L : Z) (fuel : nat) (tr : list storeOp) :
  NoDup (map users_id (users db)) ->
  NoDup (map videos_id (videos db)) ->
  NoDup (map (fun r => (videoReactions_userId r, videoReactions_videoId r))
           (videoReactions db)) ->
  Forall (fun v => cuid2 (videos_id v) = true) (videos db) ->
  1 <= L <= 100 ->
  (List.length (videos db) < fuel)%nat ->
  exists pages w',
    enumerate (fun c => playlistsRouter.getLiked cuid2 userId c (ofInt L))
      fuel None (mkWorld db tr) = (Return (Some pages), w') /\
    store w' = db /\
    enumerates datedAt dated_id
      (where_ (playlistsRouter.dated_where None)
         (map (fun vur => {| dated := videoColumns db (fst vur);
                             datedAt := snd (snd vur) |})
            (innerJoin (videosWithUsers db)
               (playlistsRouter.viewerVideoReactions userId db)
               (fun vu r => Text.eqb (videos_id (fst vu)) (fst r)))))
      L pages.
Proof.
  intros Nu Nv Nr Iv HL Hfuel.
  pose proof (viewerVideoReactions_key userId db Nr) as Nb.
  assert (forall row : (videoRow * userRow) * (string * Z),
             dated_id {| dated := videoColumns db (fst row);
                         datedAt := snd (snd row) |}
             = videos_id (fst (fst row)))
    as Hrid by (intros row; apply item_id_videoColumns).
  apply keyset_enumeration with (cuid2 := cuid2) (db := db).
  - exact (viewerJoin_key db _ (fun vu => videos_id (fst vu)) fst
             _ dated_id Hrid Nu Nv Nb).
  - exact (viewerJoin_ids db _ (fun vu => videos_id (fst vu)) fst
             _ dated_id Hrid (fun s => cuid2 s = true) Iv).
  - lia.
  - intros c w Hw Hc. eexists. split.
    + rewrite playlists_getLiked_run by assumption.
      unfold playlistsRouter.getLiked_rows.
      rewrite (statement_rows_cursor datedAt dated_id
                 playlistsRouter.dated_where)
        by (intros c' i; apply public_where_cursor).
      rewrite Hw. reflexivity.
    + exact Hw.
  - reflexivity.
  - pose proof (viewerJoin_length db _ (fun vu => videos_id (fst vu)) fst
                  (fun vur : (videoRow * userRow) * (string * Z) =>
                     {| dated := videoColumns db (fst vur);
                        datedAt := snd (snd vur) |})
                  Nu Nb).
    simpl. lia.
Qed.

Lemma getLiked_enumerates_witness :
  exists pages w',
    enumerate
      (fun c => playlistsRouter.getLiked cuid2_sample "usera"%string c (ofInt 1))
      6 None (mkWorld sampleDb []) = (Return (Some pages), w') /\
    store w' = sampleDb /\
    enumerates datedAt dated_id
      (where_ (playlistsRouter.dated_where None)
         (map (fun vur => {| dated := videoColumns sampleDb (fst vur);
                             datedAt := snd (snd vur) |})
            (innerJoin (videosWithUsers sampleDb)
               (playlistsRouter.viewerVideoReactions "usera"%string sampleDb)
               (fun vu r => Text.eqb (videos_id (fst vu)) (fst r)))))
      1 pages.
Proof.
  apply (@getLiked_enumerates cuid2_sample sampleDb "usera"%string 1 6 []).
  - concrete_NoDup.
  - concrete_NoDup.
  - concrete_NoDup.
  - concrete_Forall.
  - lia.
  - simpl. lia.
Defined.

Lemma videosFromPlaylist_key (playlistId : string) (db : database) :
  NoDup (playlistVideos db) ->
  NoDup (map (fun s : string => s)
           (playlistsRouter.videosFromPlaylist playlistId db)).
Proof.
  intros N. rewrite map_id. unfold playlistsRouter.videosFromPlaylist, where_.
  apply (key_of_projection (fun r : playlistVideoRow => r)).
  - now rewrite map_id.
  - intros [p1 v1] [p2 v2] E1 E2 E. apply text_eqb_eq in E1, E2.
    simpl in *. congruence.
Qed.

(** X14.  [getVideos] enumerates the public videos of a playlist of the
    caller: with user and video ids that are keys, no (playlist, video)
    pair stored twice (what [addVideo] maintains), well-formed ids and an
    integer limit in [1, 100], chaining [nextCursor] from null returns
    every such video once, in strictly descending [(updatedAt, id)] order,
    and ends on a null [nextCursor] with the store unchanged. *)
Theorem getVideos_enumerates (cuid2 : string -> bool) (db : database)
  (userId playlistId : string) (L : Z) (fuel : nat) (tr : list storeOp) :
  NoDup (map users_id (users db)) ->
  NoDup (map videos_id (videos db)) ->
  NoDup (playlistVideos db) ->
  Forall (fun v => cuid2 (videos_id v) = true) (videos db) ->
  cuid2 playlistId = true ->
  ownsPlaylist db userId playlistId ->
  1 <= L <= 100 ->
  (List.length (videos db) < fuel)%nat ->
  exists pages w',
    enumerate
      (fun c => playlistsRouter.getVideos cuid2 userId playlistId c (ofInt L))
      fuel None (mkWorld db tr) = (Return (Some pages), w') /\
    store w' = db /\
    enumerates item_updatedAt item_id
      (where_ (playlistsRouter.getVideos_where None)
         (map (fun vup => videoColumns db (fst vup))
            (innerJoin (videosWithUsers db)
               (playlistsRouter.videosFromPlaylist playlistId db)
               (fun vu p => Text.eqb (videos_id (fst vu)) p))))
      L pages.
Proof.
  intros Nu Nv Npv Iv Hp Hown HL Hfuel.
  pose proof (videosFromPlaylist_key playlistId db Npv) as Nb.
  assert (forall row : (videoRow * userRow) * string,
             item_id (videoColumns db (fst row)) = videos_id (fst (fst row)))
    as Hrid by (intros row; apply item_id_videoColumns).
  apply keyset_enumeration with (cuid2 := cuid2) (db := db).
  - exact (viewerJoin_key db _ (fun vu => videos_id (fst vu)) (fun s => s)
             _ item_id Hrid Nu Nv Nb).
  - exact (viewerJoin_ids db _ (fun vu => videos_id (fst vu)) (fun s => s)
             _ item_id Hrid (fun s => cuid2 s = true) Iv).
  - lia.
  - intros c w Hw Hc.
    rewrite playlists_getVideos_run by assumption.
    destruct (playlistsRouter.existingPlaylistQuery playlistId userId (store w))
      eqn:E.
    + exfalso. apply existingPlaylistQuery_nil in E. rewrite Hw in E.
      contradiction.
    + eexists. split.
      * unfold playlistsRouter.getVideos_rows.
        rewrite (statement_rows_cursor item_updatedAt item_id
                   playlistsRouter.getVideos_where)
          by (intros c' i; apply public_where_cursor).
        rewrite Hw. reflexivity.
      * exact Hw.
  - reflexivity.
  - pose proof (viewerJoin_length db _ (fun vu => videos_id (fst vu))
                  (fun s => s)
                  (fun vup : (videoRow * userRow) * string =>
                     videoColumns db (fst vup))
                  Nu Nb).
    simpl. lia.
Qed.

Lemma getVideos_enumerates_witness :
  exists pages w',
    enumerate
      (fun c => playlistsRouter.getVideos cuid2_sample "usera"%string
                  "pa"%string c (ofInt 1))
      6 None (mkWorld sampleDb []) = (Return (Some pages), w') /\
    store w' = sampleDb /\
    enumerates item_updatedAt item_id
      (where_ (playlistsRouter.getVideos_where None)
         (map (fun vup => videoColumns sampleDb (fst vup))
            (innerJoin (videosWithUsers sampleDb)
               (playlistsRouter.videosFromPlaylist "pa"%string sampleDb)
               (fun vu p => Text.eqb (videos_id (fst vu)) p))))
      1 pages.
Proof.
  apply (@getVideos_enumerates cuid2_sample sampleDb "usera"%string
           "pa"%string 1 6 []).
  - concrete_NoDup.
  - concrete_NoDup.
  - concrete_NoDup.
  - concrete_Forall.
  - reflexivity.
  - exists (mkPlaylist "pa" "usera" "first" 5).
    split; [now left | split; reflexivity].
  - lia.
  - simpl. lia.
Defined.

(* ------------------------------------------------------------------ *)
(** ** [getManyTrending]: a cursor on the view count *)

Lemma number_eqb_inject_Z (a b : Z) :
  Number.eqb (inject_Z a) (inject_Z b) = (a =? b).
Proof. unfold Number.eqb, Qeq_bool. simpl. now rewrite !Z.mul_1_r. Qed.

Lemma getManyTrending_where_cursor (c : Cursor Z) (i : videoItem) :
  videosRouter.getManyTrending_where (Some (numberCursor c)) i =
  videosRouter.getManyTrending_where None i
  && keysetClause viewCount item_id c i.
Proof.
  unfold videosRouter.getManyTrending_where, keysetClause, and_, or_,
    ltN, eqN, ltD, eqD, ltT, numberCursor.
  cbn [forallb sortKey id].
  change (inject_Z (viewCount i)) with (ofInt (viewCount i)).
  change (inject_Z (sortKey c)) with (ofInt (sortKey c)).
  rewrite number_ltb_ofInt. unfold ofInt. rewrite number_eqb_inject_Z.
  now rewrite !andb_true_r.
Qed.

Lemma pageOf_numberPage {R} (key : R -> Z) (rid : R -> string) (L : nat)
  (rows : list R) :
  pageOf (fun i => mkCursor (rid i) (inject_Z (key i))) L rows
  = numberPage (pageOf (cursorAt key rid) L rows).
Proof.
  unfold pageOf, numberPage.
  destruct (L <? List.length rows)%nat; [|reflexivity].
  now destruct (nth_error rows (L - 1)).
Qed.

(** A chain of calls on number cursors follows, page for page, the chain
    of the same calls on integer cursors. *)
Lemma enumerate_numberPage {R} (callZ : option (Cursor Z) -> M (Page R Z))
  (callQ : option (Cursor Q) -> M (Page R Q)) :
  (forall c w,
      callQ (option_map numberCursor c) w
      = match callZ c w with
        | (Return p, w') => (Return (numberPage p), w')
        | (Throw e, w') => (Throw e, w')
        end) ->
  forall fuel c w,
    enumerate callQ fuel (option_map numberCursor c) w
    = match enumerate callZ fuel c w with
      | (Return ps, w') => (Return (option_map (map numberPage) ps), w')
      | (Throw e, w') => (Throw e, w')
      end.
Proof.
  intros Hsim. induction fuel as [|fuel IH]; intros c w; [reflexivity|].
  simpl. unfold bind at 1 3. rewrite Hsim.
  destruct (callZ c w) as [[p|e] w1]; [|reflexivity].
  destruct (nextCursor p) as [c'|] eqn:Ec; simpl; rewrite Ec; simpl;
    [|reflexivity].
  pose proof (IH (Some c') w1) as IH'. cbn [option_map] in IH'.
  unfold bind. rewrite IH'.
  destruct (enumerate callZ fuel (Some c') w1) as [[[ps|]|e] w2]; reflexivity.
Qed.

(** X15.  [getManyTrending] enumerates the public videos by popularity:
    with user and video ids that are keys, well-formed video ids and an
    integer limit in [1, 100], chaining [nextCursor] from null returns
    within [fuel] calls, leaves the store as it was, and the pages are
    those of an enumeration of the public videos, each once, in strictly
    descending [(viewCount, id)] order, ending on a null [nextCursor]. *)
Theorem getManyTrending_enumerates (cuid2 : string -> bool) (db : database)
  (L : Z) (fuel : nat) (tr : list storeOp) :
  NoDup (map users_id (users db)) ->
  NoDup (map videos_id (videos db)) ->
  Forall (fun v => cuid2 (videos_id v) = true) (videos db) ->
  1 <= L <= 100 ->
  (List.length (videos db) < fuel)%nat ->
  exists pages w',
    enumerate (fun c => videosRouter.getManyTrending cuid2 c (ofInt L))
      fuel None (mkWorld db tr)
    = (Return (Some (map numberPage pages)), w') /\
    store w' = db /\
    enumerates viewCount item_id
      (where_ (videosRouter.getManyTrending_where None)
         (map (videoColumns db) (videosWithUsers db)))
      L pages.
Proof.
  intros Nu Nv Iv HL Hfuel.
  set (callZ := fun (c : option (Cursor Z)) (w : world) =>
         if cursorSchema cuid2 c
         then (Return
                 (pageOf (cursorAt viewCount item_id) (Z.to_nat L)
                    (rowsAt viewCount item_id
                       (orderBy viewCount item_id
                          (where_ (videosRouter.getManyTrending_where None)
                             (map (videoColumns (store w))
                                (videosWithUsers (store w)))))
                       c)),
               logOp (Select Tvideos (Some (ofInt L + 1)%Q)) w)
         else (Throw (TRPCError BAD_REQUEST), w)).
  destruct (@keyset_enumeration videoItem viewCount item_id cuid2 db
              (map (videoColumns db) (videosWithUsers db))
              (videosRouter.getManyTrending_where None) L callZ fuel
              (mkWorld db tr))
    as (pages & w' & Hrun & Hw' & Henum).
  - now apply videos_source_NoDup.
  - now apply (videos_source_ids (fun s => cuid2 s = true)).
  - lia.
  - intros c w Hw Hc. eexists. split.
    + unfold callZ. rewrite Hc, Hw. reflexivity.
    + exact Hw.
  - reflexivity.
  - pose proof (videos_source_length db Nu). lia.
  - exists pages, w'. split; [|split; assumption].
    change (@None (Cursor Q)) with (option_map numberCursor None).
    rewrite (enumerate_numberPage callZ); [now rewrite Hrun|].
    intros c w. unfold callZ.
    destruct (cursorSchema cuid2 c) eqn:Hc.
    + rewrite videos_getManyTrending_run;
        [|destruct c; exact Hc | assumption].
      rewrite pageOf_numberPage. unfold videosRouter.getManyTrending_rows.
      rewrite (statement_rows_cursor viewCount item_id
                 (fun c0 => videosRouter.getManyTrending_where
                              (option_map numberCursor c0)))
        by (intros c' i; apply getManyTrending_where_cursor).
      reflexivity.
    + unfold videosRouter.getManyTrending.
      assert (cursorSchema cuid2 (option_map numberCursor c) = false) as ->
        by (destruct c; exact Hc).
      reflexivity.
Qed.

Lemma getManyTrending_enumerates_witness :
  exists pages w',
    enumerate (fun c => videosRouter.getManyTrending cuid2_sample c (ofInt 1))
      6 None (mkWorld sampleDb [])
    = (Return (Some (map numberPage pages)), w') /\
    store w' = sampleDb /\
    enumerates viewCount item_id
      (where_ (videosRouter.getManyTrending_where None)
         (map (videoColumns sampleDb) (videosWithUsers sampleDb)))
      1 pages.
Proof.
  apply (@getManyTrending_enumerates cuid2_sample sampleDb 1 6 []).
  - concrete_NoDup.
  - concrete_NoDup.
  - concrete_Forall.
  - lia.
  - simpl. lia.
Defined.

(* ------------------------------------------------------------------ *)
(** ** Resuming from a cursor that designates no stored row *)

Lemma keysetClause_below {R} (key : R -> Z) (rid : R -> string)
  (c : Cursor Z) (x y : R) :
  keysetClause key rid c x = true -> before key rid x y = true ->
  keysetClause key rid c y = true.
Proof.
  rewrite !keysetClause_iff, before_inv.
  intros [H1|[H1 H1']] [H2|[H2 H2']]; try (left; lia).
  right. split; [lia|]. eapply text_ltb_trans; eauto.
Qed.

(** In a descending list the rows a cursor clause keeps are a suffix. *)
Lemma keysetClause_suffix {R} (key : R -> Z) (rid : R -> string)
  (c : Cursor Z) (E : list R) :
  descending key rid E ->
  exists pre, E = pre ++ filter (keysetClause key rid c) E.
Proof.
  induction 1 as [|x E HS IH Hx].
  - now exists [].
  - simpl. destruct (keysetClause key rid c x) eqn:Ex.
    + exists []. simpl. f_equal. symmetry. apply forallb_filter_id.
      apply forallb_forall. intros y Hy. rewrite Forall_forall in Hx.
      eapply keysetClause_below; eauto.
    + destruct IH as [pre Hpre]. exists (x :: pre). simpl. now f_equal.
Qed.

Lemma descending_filter {R} (key : R -> Z) (rid : R -> string)
  (f : R -> bool) (E : list R) :
  descending key rid E -> descending key rid (filter f E).
Proof.
  unfold descending. induction 1 as [|x E HS IH Hx]; simpl; [constructor|].
  destruct (f x); [|assumption].
  constructor; [assumption|].
  rewrite Forall_forall in *. intros y Hy. apply filter_In in Hy as [Hy _].
  now apply Hx.
Qed.

Lemma keyset_enumeration_from {R} (key : R -> Z) (rid : R -> string)
  (cuid2 : string -> bool) (db : database) (src : list R) (base : cond)
  (L : Z) (call : option (Cursor Z) -> M (Page R Z)) (fuel : nat) (w : world)
  (c0 : Cursor Z) :
  NoDup (map rid src) ->
  Forall (fun r => cuid2 (rid r) = true) src ->
  1 <= L ->
  (forall c w, store w = db -> cursorSchema cuid2 c = true ->
     exists w', call c w
                = (Return (pageOf (cursorAt key rid) (Z.to_nat L)
                             (rowsAt key rid (orderBy key rid (where_ base src)) c)),
                   w')
                /\ store w' = db) ->
  store w = db -> (List.length src < fuel)%nat ->
  cuid2 (id c0) = true ->
  exists pages w',
    enumerate call fuel (Some c0) w = (Return (Some pages), w') /\
    store w' = db /\
    enumerates key rid (filter (keysetClause key rid c0) (where_ base src))
      L pages.
Proof.
  intros Nsrc Hids HL Hcall Hw Hfuel Hc0.
  set (E := orderBy key rid (where_ base src)) in *.
  assert (descending key rid E) as HE
    by (apply orderBy_descending, where_keeps_key, Nsrc).
  assert (Forall (fun r => cuid2 (rid r) = true) E) as HEids.
  { rewrite Forall_forall in *. intros r Hr.
    apply orderBy_In, filter_In in Hr. now apply Hids. }
  assert (List.length E <= List.length src)%nat as Hlen.
  { unfold E. rewrite orderBy_length. apply filter_length_le. }
  destruct (keysetClause_suffix c0 HE) as [pre Hpre].
  pose proof (filter_length_le (keysetClause key rid c0) E) as Hrest.
  destruct (@enumerate_suffix R key rid cuid2 db E L call HE HEids HL Hcall
              (List.length (filter (keysetClause key rid c0) E))
              (filter (keysetClause key rid c0) E) pre (Some c0) fuel w)
    as (pages & w' & Hrun & Hw' & Hcat & Hlim & Hlast);
    [lia | exact Hpre | reflexivity | exact Hc0 | exact Hw | lia |].
  exists pages, w'. split; [assumption|]. split; [assumption|].
  unfold enumerates. rewrite Hcat.
  split; [now apply descending_filter|].
  split; [apply (descending_NoDup (key := key) (rid := rid));
          now apply descending_filter|].
  split; [|split; assumption].
  intros r. rewrite !filter_In. unfold E. rewrite orderBy_In.
  unfold where_. rewrite filter_In. tauto.
Qed.

(** X16.  A cursor need not designate a stored row.  On a store whose ids
    are keys and well formed, and for an integer limit in [1, 100],
    chaining [nextCursor] through [videos.getMany] or [playlists.getMany]
    from any cursor with a well-formed id returns, once each and in
    strictly descending [(updatedAt, id)] order, exactly the rows that
    match the filter and come strictly after the cursor, and ends on a
    null [nextCursor]. *)
Theorem getMany_resumes_from_any_cursor (cuid2 : string -> bool)
  (db : database) (userId categoryId : option string) (viewer : string)
  (c0 : Cursor Z) (L : Z) (fuel : nat) (tr : list storeOp) :
  NoDup (map users_id (users db)) ->
  NoDup (map videos_id (videos db)) ->
  NoDup (map playlists_id (playlists db)) ->
  Forall (fun v => cuid2 (videos_id v) = true) (videos db) ->
  Forall (fun p => cuid2 (playlists_id p) = true) (playlists db) ->
  cuid2Nullish cuid2 categoryId = true ->
  cuid2 (id c0) = true ->
  1 <= L <= 100 ->
  (List.length (videos db) < fuel)%nat ->
  (List.length (playlists db) < fuel)%nat ->
  (exists pages w',
      enumerate (fun c => videosRouter.getMany cuid2 userId categoryId c (ofInt L))
        fuel (Some c0) (mkWorld db tr) = (Return (Some pages), w') /\
      store w' = db /\
      enumerates item_updatedAt item_id
        (where_ (videosRouter.getMany_where userId categoryId (Some c0))
           (map (videoColumns db) (videosWithUsers db)))
        L pages) /\
  (exists pages w',
      enumerate (fun c => playlistsRouter.getMany cuid2 viewer c (ofInt L))
        fuel (Some c0) (mkWorld db tr) = (Return (Some pages), w') /\
      store w' = db /\
      enumerates playlist_updatedAt playlist_id
        (where_ (playlistsRouter.getMany_where viewer (Some c0))
           (playlistsRouter.playlistsWithUsers db (fun _ => false)))
        L pages).
Proof.
  intros Nu Nv Np Iv Ip Hcat Hc0 HL Fv Fp. split.
  - assert (where_ (videosRouter.getMany_where userId categoryId (Some c0))
              (map (videoColumns db) (videosWithUsers db))
            = filter (keysetClause item_updatedAt item_id c0)
                (where_ (videosRouter.getMany_where userId categoryId None)
                   (map (videoColumns db) (videosWithUsers db)))) as ->.
    { unfold where_. rewrite <- filter_andb. apply filter_ext.
      intros i. apply videos_getMany_where_cursor. }
    apply keyset_enumeration_from with (cuid2 := cuid2) (db := db).
    + now apply videos_source_NoDup.
    + now apply (videos_source_ids (fun s => cuid2 s = true)).
    + lia.
    + intros c w Hw Hc. eexists. split.
      * rewrite videos_getMany_run by assumption.
        rewrite videos_getMany_rows_cursor, Hw. reflexivity.
      * exact Hw.
    + reflexivity.
    + pose proof (videos_source_length db Nu). simpl. lia.
    + exact Hc0.
  - assert (where_ (playlistsRouter.getMany_where viewer (Some c0))
              (playlistsRouter.playlistsWithUsers db (fun _ => false))
            = filter (keysetClause playlist_updatedAt playlist_id c0)
                (where_ (playlistsRouter.getMany_where viewer None)
                   (playlistsRouter.playlistsWithUsers db (fun _ => false))))
      as ->.
    { unfold where_. rewrite <- filter_andb. apply filter_ext.
      intros i. apply playlists_getMany_where_cursor. }
    apply keyset_enumeration_from with (cuid2 := cuid2) (db := db).
    + now apply playlists_source_NoDup.
    + now apply (playlists_source_ids (fun s => cuid2 s = true)).
    + lia.
    + intros c w Hw Hc. eexists. split.
      * rewrite playlists_getMany_run by assumption.
        rewrite playlists_getMany_rows_cursor, Hw. reflexivity.
      * exact Hw.
    + reflexivity.
    + pose proof (playlists_source_length db (fun _ => false) Nu). simpl. lia.
    + exact Hc0.
Qed.

Lemma getMany_resumes_from_any_cursor_witness :
  (exists pages w',
      enumerate
        (fun c => videosRouter.getMany cuid2_sample None None c (ofInt 1))
        6 (Some (mkCursor "vbb"%string 20)) (mkWorld sampleDb [])
      = (Return (Some pages), w') /\
      store w' = sampleDb /\
      enumerates item_updatedAt item_id
        (where_ (videosRouter.getMany_where None None
                   (Some (mkCursor "vbb"%string 20)))
           (map (videoColumns sampleDb) (videosWithUsers sampleDb)))
        1 pages) /\
  (exists pages w',
      enumerate
        (fun c => playlistsRouter.getMany cuid2_sample "usera"%string c (ofInt 1))
        6 (Some (mkCursor "vbb"%string 20)) (mkWorld sampleDb [])
      = (Return (Some pages), w') /\
      store w' = sampleDb /\
      enumerates playlist_updatedAt playlist_id
        (where_ (playlistsRouter.getMany_where "usera"%string
                   (Some (mkCursor "vbb"%string 20)))
           (playlistsRouter.playlistsWithUsers sampleDb (fun _ => false)))
        1 pages).
Proof.
  apply (@getMany_resumes_from_any_cursor cuid2_sample sampleDb None None
           "usera"%string (mkCursor "vbb"%string 20) 1 6 []).
  - concrete_NoDup.
  - concrete_NoDup.
  - concrete_NoDup.
  - concrete_Forall.
  - concrete_Forall.
  - reflexivity.
  - reflexivity.
  - lia.
  - simpl. lia.
  - simpl. lia.
Defined.

(* ------------------------------------------------------------------ *)
(** ** [videos.getOne] *)

Lemma leftJoin_In {A B} (a : list A) (b : list B) (on : A -> B -> bool)
  (x : A) (o : option B) :
  In (x, o) (leftJoin a b on) ->
  In x a /\
  match o with
  | Some y => In y b /\ on x y = true
  | None => filter (on x) b = []
  end.
Proof.
  unfold leftJoin. rewrite in_flat_map. intros (x' & Hx & H).
  destruct (filter (on x') b) as [|y ys] eqn:F.
  - destruct H as [H|[]]. inversion H; subst. now split.
  - apply in_map_iff in H as (y' & E & Hy). inversion E; subst.
    split; [assumption|]. apply filter_In. rewrite F. exact Hy.
Qed.

Lemma leftJoin_covers {A B} (a : list A) (b : list B) (on : A -> B -> bool)
  (x : A) :
  In x a -> exists o, In (x, o) (leftJoin a b on).
Proof.
  intros Hx. unfold leftJoin.
  destruct (filter (on x) b) as [|y ys] eqn:F.
  - exists None. apply in_flat_map. exists x. split; [assumption|].
    rewrite F. now left.
  - exists (Some y). apply in_flat_map. exists x. split; [assumption|].
    rewrite F. now left.
Qed.

Lemma inArrayOf_true {R} (col : R -> string) (v : option string) (r : R) :
  inArrayOf col v r = true -> v = Some (col r).
Proof.
  unfold inArrayOf. destruct v as [s|]; [|discriminate].
  destruct (Text.truthy s); [|discriminate].
  intros E. apply text_eqb_eq in E. now subst.
Qed.

Lemma videos_getOne_cases (cuid2 : string -> bool)
  (clerkUserId : option string) (id : string) (w : world) :
  cuid2 id = true ->
  let userId := match videosRouter.getOne_user clerkUserId (store w) with
                | u :: _ => Some (users_id u)
                | [] => None
                end in
  let w2 := logOp (Select Tvideos None) (logOp (Select Tusers None) w) in
  videosRouter.getOne cuid2 clerkUserId id w =
  match videosRouter.getOne_rows userId id (store w) with
  | [] => (Throw (TRPCError NOT_FOUND), w2)
  | d :: _ => (Return d, w2)
  end.
Proof.
  intros Hid userId w2. unfold videosRouter.getOne. rewrite Hid.
  rewrite bind_select. cbv zeta. rewrite bind_select.
  change (store (logOp (Select Tusers None) w)) with (store w).
  fold userId. fold w2.
  now destruct (videosRouter.getOne_rows userId id (store w)).
Qed.

Lemma getOne_rows_In (userId : option string) (id : string) (db : database)
  (d : videoDetail) :
  In d (videosRouter.getOne_rows userId id db) ->
  exists vu r s,
    In vu (videosWithUsers db) /\ videos_id (fst vu) = id /\
    detail d = videoColumns db vu /\
    viewerReaction d = option_map snd r /\
    viewerSubscribed d = (match s with Some _ => true | None => false end) /\
    match r with
    | Some r => In r (videosRouter.viewerReactions userId db) /\ fst r = id
    | None => True
    end /\
    match s with
    | Some s => In s (videosRouter.getOne_viewerSubscriptions userId db) /\
                subscriptions_creatorId s = users_id (snd vu)
    | None => True
    end.
Proof.
  unfold videosRouter.getOne_rows. intros H.
  apply in_map_iff in H as ([[vu r] s] & <- & H).
  unfold where_ in H. apply filter_In in H as [H E].
  unfold eqT in E. apply text_eqb_eq in E. simpl in E.
  apply leftJoin_In in H as [H Hs]. apply leftJoin_In in H as [H Hr].
  exists vu, r, s. simpl.
  repeat split; try assumption.
  - destruct r as [r|]; [|exact I]. destruct Hr as [Hr Er].
    apply text_eqb_eq in Er. split; [assumption|]. now rewrite <- Er.
  - destruct s as [s|]; [|exact I]. destruct Hs as [Hs Es].
    apply text_eqb_eq in Es. simpl in Es. now split.
Qed.

Lemma getOne_rows_covers (userId : option string) (db : database)
  (vu : videoRow * userRow) :
  In vu (videosWithUsers db) ->
  exists d, In d (videosRouter.getOne_rows userId (videos_id (fst vu)) db) /\
            detail d = videoColumns db vu.
Proof.
  intros Hvu. unfold videosRouter.getOne_rows.
  destruct (leftJoin_covers (videosWithUsers db)
              (videosRouter.viewerReactions userId db)
              (fun vu r => Text.eqb (videos_id (fst vu)) (fst r)) vu Hvu)
    as [r Hr].
  destruct (leftJoin_covers _
              (videosRouter.getOne_viewerSubscriptions userId db)
              (fun vur s =>
                 Text.eqb (subscriptions_creatorId s) (users_id (snd (fst vur))))
              (vu, r) Hr)
    as [s Hs].
  eexists. split.
  - apply in_map_iff. exists ((vu, r), s). split; [reflexivity|].
    unfold where_. apply filter_In. split; [exact Hs|].
    unfold eqT. simpl. apply text_eqb_eq. reflexivity.
  - reflexivity.
Qed.

Lemma key_determines {A K} (k : A -> K) (l : list A) (x y : A) :
  NoDup (map k l) -> In x l -> In y l -> k x = k y -> x = y.
Proof.
  induction l as [|a l IH]; simpl; intros N Hx Hy E; [contradiction|].
  apply NoDup_cons_iff in N as [Na N].
  destruct Hx as [<-|Hx], Hy as [<-|Hy]; auto.
  - exfalso. apply Na. rewrite E. now apply in_map.
  - exfalso. apply Na. rewrite <- E. now apply in_map.
Qed.

(** X17.  [videos.getOne] looks a video up by id and by nothing else: on
    a well-formed id it throws NOT_FOUND exactly when no stored video with
    that id has its owner among the users, and otherwise returns a stored
    video with that id, whoever calls (signed in or not) and whatever the
    visibility of the video; with ids that are keys, a private video is
    returned as any other.  The store is not changed. *)
Theorem videos_getOne_by_id_only (cuid2 : string -> bool)
  (clerkUserId : option string) (id : string) (w : world) :
  cuid2 id = true ->
  let r := videosRouter.getOne cuid2 clerkUserId id w in
  store (snd r) = store w /\
  (fst r = Throw (TRPCError NOT_FOUND) <->
   ~ exists vu, In vu (videosWithUsers (store w)) /\ videos_id (fst vu) = id) /\
  (forall v u,
      In v (videos (store w)) -> In u (users (store w)) ->
      videos_userId v = users_id u -> videos_id v = id ->
      exists d, fst r = Return d /\
                item_id (detail d) = id /\
                In (video (detail d)) (videos (store w)) /\
                (NoDup (map videos_id (videos (store w))) ->
                 video (detail d) = v)).
Proof.
  intros Hid r.
  pose proof (@videos_getOne_cases cuid2 clerkUserId id w Hid) as Hcases.
  cbv zeta in Hcases. fold r in Hcases.
  set (userId := match videosRouter.getOne_user clerkUserId (store w) with
                 | u :: _ => Some (users_id u)
                 | [] => None
                 end) in *.
  split; [|split].
  - rewrite Hcases.
    now destruct (videosRouter.getOne_rows userId id (store w)).
  - rewrite Hcases.
    destruct (videosRouter.getOne_rows userId id (store w)) as [|d rest] eqn:E.
    + split; [|reflexivity]. intros _ (vu & Hvu & Evu).
      destruct (getOne_rows_covers userId (store w) vu Hvu) as (d & Hd & _).
      rewrite Evu, E in Hd. contradiction.
    + split; [discriminate|]. intros Hno. exfalso. apply Hno.
      assert (In d (videosRouter.getOne_rows userId id (store w))) as Hd
        by (rewrite E; now left).
      apply getOne_rows_In in Hd as (vu & _ & _ & Hvu & Evu & _).
      now exists vu.
  - intros v u Hv Hu Eown Ev.
    assert (In (v, u) (videosWithUsers (store w))) as Hvu.
    { apply (innerJoin_In videos_userId users_id). split; [assumption|].
      split; [assumption|]. now apply text_eqb_eq. }
    rewrite Hcases.
    destruct (videosRouter.getOne_rows userId id (store w)) as [|d rest] eqn:E.
    + destruct (getOne_rows_covers userId (store w) (v, u) Hvu) as (d & Hd & _).
      simpl in Hd. rewrite Ev, E in Hd. contradiction.
    + assert (In d (videosRouter.getOne_rows userId id (store w))) as Hd
        by (rewrite E; now left).
      apply getOne_rows_In in Hd as (vu & _ & _ & Hin & Evu & Hdet & _).
      exists d. split; [reflexivity|].
      rewrite Hdet. unfold item_id.
      destruct (videoColumns_video (store w) vu) as [-> _].
      pose proof (innerJoin_fst videos_userId users_id _ _ _ Hin) as Hfst.
      split; [assumption|]. split; [assumption|].
      intros N.
      apply (key_determines videos_id (videos (store w))); try assumption.
      congruence.
Qed.

Lemma videos_getOne_by_id_only_witness :
  exists d,
    fst (videosRouter.getOne cuid2_sample None "vd"%string
           (mkWorld sampleDb [])) = Return d /\
    video (detail d) = mkVideo "vd" "usera" None Private 40.
Proof.
  destruct (@videos_getOne_by_id_only cuid2_sample None "vd"%string
              (mkWorld sampleDb []) eq_refl) as (_ & _ & H).
  destruct (H (mkVideo "vd" "usera" None Private 40)
              (mkUser "usera" "clerka"))
    as (d & Hd & _ & _ & Hv).
  - right; right; right; now left.
  - now left.
  - reflexivity.
  - reflexivity.
  - exists d. split; [exact Hd|]. apply Hv. simpl. concrete_NoDup.
Defined.

Lemma getOne_user_resolved (clerkUserId : option string) (db : database)
  (uid : string) :
  match videosRouter.getOne_user clerkUserId db with
  | u :: _ => Some (users_id u)
  | [] => None
  end = Some uid ->
  exists u, In u (users db) /\ clerkUserId = Some (users_clerkId u) /\
            users_id u = uid.
Proof.
  destruct (videosRouter.getOne_user clerkUserId db) as [|u rest] eqn:E;
    [discriminate|].
  intros H. inversion H; subst.
  unfold videosRouter.getOne_user, where_ in E.
  apply filter_head_In in E as [Hin Hu]. apply inArrayOf_true in Hu.
  now exists u.
Qed.

(** X18.  The viewer's columns of [videos.getOne] come from the viewer's
    own rows.  An anonymous caller gets [viewerReaction = null] and
    [viewerSubscribed = false]; a reaction is reported only when the user
    signed in under [clerkUserId] has a stored reaction of that type on the
    video, and a subscription only when that user subscribes to the owner
    of the video. *)
Theorem videos_getOne_viewer_columns (cuid2 : string -> bool)
  (clerkUserId : option string) (id : string) (w w' : world)
  (d : videoDetail) :
  videosRouter.getOne cuid2 clerkUserId id w = (Return d, w') ->
  (clerkUserId = None ->
   viewerReaction d = None /\ viewerSubscribed d = false) /\
  (forall t, viewerReaction d = Some t ->
     exists u at_,
       In u (users (store w)) /\ clerkUserId = Some (users_clerkId u) /\
       In (mkVideoReaction (users_id u) id t at_) (videoReactions (store w))) /\
  (viewerSubscribed d = true ->
     exists u,
       In u (users (store w)) /\ clerkUserId = Some (users_clerkId u) /\
       In (mkSubscription (users_id u) (users_id (user (detail d))))
         (subscriptions (store w))).
Proof.
  intros H.
  assert (cuid2 id = true) as Hid.
  { unfold videosRouter.getOne in H. now destruct (cuid2 id). }
  pose proof (@videos_getOne_cases cuid2 clerkUserId id w Hid) as Hcases.
  cbv zeta in Hcases. rewrite H in Hcases. clear H.
  pose proof (getOne_user_resolved clerkUserId (store w)) as Hres.
  set (userId := match videosRouter.getOne_user clerkUserId (store w) with
                 | u :: _ => Some (users_id u)
                 | [] => None
                 end) in *.
  destruct (videosRouter.getOne_rows userId id (store w)) as [|d0 rest] eqn:E;
    [discriminate|].
  inversion Hcases; subst d0. clear Hcases.
  assert (In d (videosRouter.getOne_rows userId id (store w))) as Hd
    by (rewrite E; now left).
  apply getOne_rows_In in Hd
    as (vu & r & s & Hvu & Evu & Hdet & Hreact & Hsub & Hr & Hs).
  assert (forall t, viewerReaction d = Some t ->
            exists u at_,
              In u (users (store w)) /\ clerkUserId = Some (users_clerkId u) /\
              In (mkVideoReaction (users_id u) id t at_)
                (videoReactions (store w))) as Hreaction.
  { intros t Ht. rewrite Hreact in Ht.
    destruct r as [[vid ty]|]; [|discriminate]. simpl in Ht.
    inversion Ht; subst ty. destruct Hr as [Hr Er]. simpl in Er. subst vid.
    unfold videosRouter.viewerReactions, where_ in Hr.
    apply in_map_iff in Hr as ([ru rv rt rat] & Erow & Hrow).
    apply filter_In in Hrow as [Hrow Hu]. apply inArrayOf_true in Hu.
    simpl in *. inversion Erow; subst.
    destruct (Hres _ Hu) as (u & Hin & Hclerk & Euid).
    exists u, rat. rewrite Euid. now repeat split. }
  assert (viewerSubscribed d = true ->
            exists u,
              In u (users (store w)) /\ clerkUserId = Some (users_clerkId u) /\
              In (mkSubscription (users_id u) (users_id (user (detail d))))
                (subscriptions (store w))) as Hsubscribed.
  { intros Ht. rewrite Hsub in Ht.
    destruct s as [[sv sc]|]; [|discriminate]. destruct Hs as [Hs Es].
    unfold videosRouter.getOne_viewerSubscriptions, where_ in Hs.
    apply filter_In in Hs as [Hs Hu]. apply inArrayOf_true in Hu.
    simpl in *.
    destruct (Hres _ Hu) as (u & Hin & Hclerk & Euid).
    exists u. rewrite Euid, Hdet.
    destruct (videoColumns_video (store w) vu) as [_ ->].
    rewrite <- Es. now repeat split. }
  split; [|split; assumption].
  intros Hanon. subst clerkUserId. split.
  - destruct (viewerReaction d) as [t|] eqn:Et; [|reflexivity].
    destruct (Hreaction t eq_refl) as (u & _ & _ & Hclerk & _). discriminate.
  - destruct (viewerSubscribed d) eqn:Et; [|reflexivity].
    destruct (Hsubscribed eq_refl) as (u & _ & Hclerk & _). discriminate.
Qed.

Lemma videos_getOne_viewer_columns_witness :
  exists d w',
    videosRouter.getOne cuid2_sample (Some "clerka"%string) "vd"%string
      (mkWorld sampleDb []) = (Return d, w') /\
    viewerReaction d = Some Like /\
    exists u at_,
      In u (users sampleDb) /\
      Some "clerka"%string = Some (users_clerkId u) /\
      In (mkVideoReaction (users_id u) "vd" Like at_) (videoReactions sampleDb).
Proof.
  destruct (videosRouter.getOne cuid2_sample (Some "clerka"%string)
              "vd"%string (mkWorld sampleDb [])) as [[d|e] w'] eqn:E.
  - exists d, w'. split; [reflexivity|].
    assert (viewerReaction d = Some Like) as Hlike
      by (vm_compute in E; inversion E; reflexivity).
    split; [exact Hlike|].
    exact (proj1 (proj2 (videos_getOne_viewer_columns _ _ _ _ E)) Like Hlike).
  - vm_compute in E. discriminate E.
Defined.

(* ------------------------------------------------------------------ *)
(** ** [videos.update] *)

Lemma video_owner_clause_iff (id userId : string) (v : videoRow) :
  and_ [Some (eqT videos_id id); Some (eqT videos_userId userId)] v = true
  <-> videos_id v = id /\ videos_userId v = userId.
Proof.
  unfold and_, eqT, Text.eqb. cbn [forallb].
  now rewrite andb_true_r, andb_true_iff, !String.eqb_eq.
Qed.

(** X19.  [videos.update] changes the caller's own video and nothing
    else.  Without an id (undefined or empty) it throws BAD_REQUEST before
    any statement.  With one, whatever the new values, the videos that are
    not (that id, owned by the caller) are left exactly as they were, in
    place, and so are the other tables; when the caller owns no video of
    that id the answer is NOT_FOUND and the store is as before. *)
Theorem videos_update_owner_only (userId : string) (inputId : option string)
  (assign : videoRow -> videoRow) (w : world) :
  let r := videosRouter.update userId inputId assign w in
  ((inputId = None \/ inputId = Some EmptyString) ->
   r = (Throw (TRPCError BAD_REQUEST), w)) /\
  (forall id, inputId = Some id -> id <> EmptyString ->
     onlyVideosChanged (store w) (store (snd r)) /\
     List.length (videos (store (snd r))) = List.length (videos (store w)) /\
     (forall n v, nth_error (videos (store w)) n = Some v ->
        ~ (videos_id v = id /\ videos_userId v = userId) ->
        nth_error (videos (store (snd r))) n = Some v) /\
     ((forall v, In v (videos (store w)) ->
         ~ (videos_id v = id /\ videos_userId v = userId)) ->
      fst r = Throw (TRPCError NOT_FOUND) /\ store (snd r) = store w) /\
     (forall v, In v (videos (store w)) ->
        videos_id v = id -> videos_userId v = userId ->
        exists v', fst r = Return (assign v') /\ In v' (videos (store w)) /\
                   videos_id v' = id /\ videos_userId v' = userId)).
Proof.
  intros r. split.
  - intros [-> | ->]; reflexivity.
  - intros id -> Hid. unfold r, videosRouter.update.
    assert (Text.truthy id = true) as ->.
    { unfold Text.truthy. apply negb_true_iff. now apply String.eqb_neq. }
    set (owned := and_ [Some (eqT videos_id id);
                        Some (eqT videos_userId userId)]).
    unfold bind, update_videos.
    assert (forall v, ~ (videos_id v = id /\ videos_userId v = userId) ->
                      owned v = false) as Hnot.
    { intros v N. destruct (owned v) eqn:E; [|reflexivity].
      apply video_owner_clause_iff in E. contradiction. }
    assert (forall T (a b : outcome videoRow * world) (l : list T),
               store (snd (match l with [] => a | _ :: _ => b end))
               = match l with [] => store (snd a) | _ :: _ => store (snd b) end)
      as Hmatch by (intros T a b []; reflexivity).
    assert (store
              (snd
                 (match map assign (filter owned (videos (store w))) with
                  | [] => throw (TRPCError NOT_FOUND)
                  | v :: _ => ret v
                  end
                    {| store :=
                         mkDb (map (fun v => if owned v then assign v else v)
                                 (videos (store w)))
                           (users (store w)) (playlists (store w))
                           (playlistVideos (store w)) (videoViews (store w))
                           (videoReactions (store w)) (subscriptions (store w));
                       trace := trace w |}))
            = mkDb (map (fun v => if owned v then assign v else v)
                      (videos (store w)))
                (users (store w)) (playlists (store w))
                (playlistVideos (store w)) (videoViews (store w))
                (videoReactions (store w)) (subscriptions (store w))) as Hstore
      by (now destruct (map assign (filter owned (videos (store w))))).
    rewrite Hstore. cbn [videos users playlists playlistVideos videoViews
                         videoReactions subscriptions].
    split; [repeat split|]. split; [apply length_map|]. split; [|split].
    + intros n v Hn N. rewrite nth_error_map, Hn. simpl.
      now rewrite (Hnot v N).
    + intros Hnone.
      assert (filter owned (videos (store w)) = []) as Hf.
      { apply filter_nil_iff'. intros v Hv. apply Hnot. now apply Hnone. }
      rewrite Hf. split; [reflexivity|].
      rewrite <- (database_eta (store w)) at 8. f_equal.
      rewrite <- (map_id (videos (store w))) at 2. apply map_ext_in.
      intros v Hv. now rewrite (Hnot v (Hnone v Hv)).
    + intros v Hv E1 E2.
      destruct (filter owned (videos (store w))) as [|v' rest] eqn:Hf.
      * exfalso.
        assert (In v (filter owned (videos (store w)))) as Hin.
        { apply filter_In. split; [assumption|].
          now apply video_owner_clause_iff. }
        rewrite Hf in Hin. contradiction.
      * apply filter_head_In in Hf as [Hin Ho].
        apply video_owner_clause_iff in Ho. exists v'. now repeat split.
Qed.

Lemma videos_update_owner_only_witness :
  let hide v := mkVideo (videos_id v) (videos_userId v) (videos_categoryId v)
                  Private (videos_updatedAt v) in
  videosRouter.update "userb"%string (Some "va"%string) hide
    (mkWorld sampleDb [])
  = (Throw (TRPCError NOT_FOUND), mkWorld sampleDb []) /\
  nth_error
    (videos (store (snd (videosRouter.update "usera"%string (Some "va"%string)
                           hide (mkWorld sampleDb [])))))
    2
  = Some (mkVideo "vc" "userb" (Some "cat1"%string) Public 20).
Proof.
  intros hide.
  destruct (@videos_update_owner_only "usera"%string (Some "va"%string) hide
              (mkWorld sampleDb [])) as [_ H].
  destruct (H "va"%string eq_refl) as (_ & _ & Hkeep & _); [discriminate|].
  split; [reflexivity|].
  apply Hkeep; [reflexivity|]. intros [E _]. discriminate E.
Defined.

(* ------------------------------------------------------------------ *)
(** ** [lastItem] is never undefined *)

Lemma trim_safe {R K} (cursorOf : R -> Cursor K) (limit : Q) (data : list R)
  (w : world) :
  (1 <= limit)%Q -> exists p, trim cursorOf limit data w = (Return p, w).
Proof.
  intros Hlim. unfold trim.
  destruct (Number.ltb limit (Number.ofLength data)) eqn:Hmore;
    [|eexists; reflexivity].
  assert (2 <= List.length data)%nat as Hlen.
  { unfold Number.ltb in Hmore. apply negb_true_iff in Hmore.
    destruct (le_lt_dec 2 (List.length data)) as [|Hshort]; [assumption|].
    exfalso. assert (Qle_bool (Number.ofLength data) limit = true) as Hle.
    { apply Qle_bool_iff. eapply Qle_trans; [|exact Hlim].
      unfold Number.ofLength, Qle. simpl. lia. }
    congruence. }
  destruct (exists_last (l := data)) as (pre & x & ->);
    [destruct data; [simpl in Hlen; lia | discriminate]|].
  rewrite removelast_last.
  rewrite length_app in Hlen. simpl in Hlen.
  destruct (nth_error pre (List.length pre - 1)) as [last|] eqn:E;
    [eexists; reflexivity|].
  apply nth_error_None in E. lia.
Qed.

Lemma select_trim_neverTypeError {R K} (T : table) (q : database -> list R)
  (n limit : Q) (cursorOf : R -> Cursor K) :
  (1 <= limit)%Q ->
  neverTypeError (data <- select_limit T q n ;; trim cursorOf limit data).
Proof.
  intros Hlim w. unfold bind, select_limit.
  destruct (sql_limit n (q (store w))) as [rows|]; [|discriminate].
  destruct (trim_safe cursorOf rows (logOp (Select T (Some n)) w) Hlim)
    as [p ->].
  discriminate.
Qed.

Ltac never_TypeError :=
  match goal with
  | |- neverTypeError (if ?b && limitSchema ?limit then _ else _) =>
      let Hb := fresh in let Hl := fresh in
      destruct b; cbn [andb];
      [destruct (limitSchema limit) eqn:Hl;
       [apply limitSchema_iff in Hl as [Hl _] | intros w; discriminate]
      | intros w; discriminate]
  end.

(** X20.  No list procedure reads [lastItem.id] of an undefined
    [lastItem]: whatever the input, the store and the limit, whole or
    not, none of them ends in a [TypeError], because a limit that passes
    the parser is at least 1.  The lower bound is what protects the
    handler: trimming a read of one row for a limit below 1 is a
    [TypeError]. *)
Theorem list_procedures_never_TypeError (cuid2 : string -> bool)
  (userId categoryId : option string) (viewer videoId playlistId : string)
  (c : option (Cursor Z)) (cq : option (Cursor Q)) (limit : Q) :
  neverTypeError (videosRouter.getMany cuid2 userId categoryId c limit) /\
  neverTypeError (videosRouter.getManyTrending cuid2 cq limit) /\
  neverTypeError (videosRouter.getManySubscribed cuid2 viewer c limit) /\
  neverTypeError (playlistsRouter.getMany cuid2 viewer c limit) /\
  neverTypeError (playlistsRouter.getManyForVideo cuid2 viewer videoId c limit) /\
  neverTypeError (playlistsRouter.getHistory cuid2 viewer c limit) /\
  neverTypeError (playlistsRouter.getLiked cuid2 viewer c limit) /\
  neverTypeError (playlistsRouter.getVideos cuid2 viewer playlistId c limit) /\
  (forall (row : playlistItem) (low : Q) (w : world),
      (low < 1)%Q ->
      trim (cursorAt playlist_updatedAt playlist_id) low [row] w
      = (Throw TypeError, w)).
Proof.
  repeat match goal with |- _ /\ _ => split end.
  - unfold videosRouter.getMany. never_TypeError.
    now apply select_trim_neverTypeError.
  - unfold videosRouter.getManyTrending. never_TypeError.
    now apply select_trim_neverTypeError.
  - unfold videosRouter.getManySubscribed. never_TypeError.
    now apply select_trim_neverTypeError.
  - unfold playlistsRouter.getMany. never_TypeError.
    now apply select_trim_neverTypeError.
  - unfold playlistsRouter.getManyForVideo. never_TypeError.
    now apply select_trim_neverTypeError.
  - unfold playlistsRouter.getHistory. never_TypeError.
    now apply select_trim_neverTypeError.
  - unfold playlistsRouter.getLiked. never_TypeError.
    now apply select_trim_neverTypeError.
  - unfold playlistsRouter.getVideos. never_TypeError.
    intros w. rewrite bind_select.
    destruct (playlistsRouter.existingPlaylistQuery playlistId viewer (store w));
      [discriminate|].
    now apply select_trim_neverTypeError.
  - intros row low w Hlow. unfold trim.
    assert (Number.ltb low (Number.ofLength [row]) = true) as ->;
      [|reflexivity].
    unfold Number.ltb. apply negb_true_iff.
    destruct (Qle_bool (Number.ofLength [row]) low) eqn:E; [|reflexivity].
    apply Qle_bool_iff in E. exfalso.
    apply (Qlt_not_le _ _ Hlow). exact E.
Qed.

Lemma list_procedures_never_TypeError_witness :
  trim (cursorAt playlist_updatedAt playlist_id) 0
    [mkPlaylistItem (mkPlaylist "pa" "usera" "first" 5) 3
       (mkUser "usera" "clerka") false]
    (mkWorld sampleDb [])
  = (Throw TypeError, mkWorld sampleDb []).
Proof.
  apply (@list_procedures_never_TypeError cuid2_sample None None
           "usera"%string "va"%string "pa"%string None None 1).
  reflexivity.
Defined.

(* ------------------------------------------------------------------ *)
(** ** No page is wasted *)

Section Packing.
Context {R : Type}.
Variables (key : R -> Z) (rid : R -> string).
Variable cuid2 : string -> bool.
Variable db : database.
Variable E : list R.
Variable L : Z.
Variable call : option (Cursor Z) -> M (Page R Z).

Hypothesis E_descending : descending key rid E.
Hypothesis E_ids : Forall (fun r => cuid2 (rid r) = true) E.
Hypothesis L_pos : 1 <= L.
Hypothesis call_run : forall c w,
  store w = db -> cursorSchema cuid2 c = true ->
  exists w', call c w
             = (Return (pageOf (cursorAt key rid) (Z.to_nat L)
                          (rowsAt key rid E c)), w')
             /\ store w' = db.

Lemma enumerate_packed (n : nat) :
  forall rest pre c fuel w,
    (List.length rest <= n)%nat -> E = pre ++ rest ->
    rowsAt key rid E c = rest ->
    cursorSchema cuid2 c = true -> store w = db ->
    (List.length rest < fuel)%nat ->
    exists pages w',
      enumerate call fuel c w = (Return (Some pages), w') /\
      exists ps p,
        pages = ps ++ [p] /\
        Forall (fun q => Z.of_nat (List.length (items q)) = L /\
                         nextCursor q <> None) ps /\
        nextCursor p = None /\
        (rest <> [] -> items p <> []).
Proof.
  induction n as [|n IH]; intros rest pre c fuel w Hn HE Hrows Hc Hw Hfuel;
    (destruct fuel as [|fuel]; [lia|]);
    destruct (@call_run c w Hw Hc) as (w1 & Hcall & Hw1);
    simpl; unfold bind; rewrite Hcall, Hrows; unfold pageOf.
  - destruct rest; [|simpl in Hn; lia]. simpl.
    exists [mkPage [] None], w1. split; [reflexivity|].
    exists [], (mkPage [] None).
    split; [reflexivity|]. split; [constructor|]. split; [reflexivity|].
    intros N. now contradiction N.
  - destruct (Nat.ltb_spec (Z.to_nat L) (List.length rest)) as [Hlt|Hge]; simpl.
    + destruct (nth_error rest (Z.to_nat L - 1)) as [x|] eqn:Ex;
        [|apply nth_error_None in Ex; lia].
      simpl. pose proof (nth_error_cut _ _ Ex) as Hcut.
      replace (S (Z.to_nat L - 1)) with (Z.to_nat L) in Hcut by lia.
      assert (E = (pre ++ firstn (Z.to_nat L - 1) rest)
                    ++ x :: skipn (Z.to_nat L) rest) as HE'
        by (rewrite <- app_assoc, <- Hcut; exact HE).
      assert (In x E) as Hx by (rewrite HE'; apply in_elt).
      destruct (IH (skipn (Z.to_nat L) rest)
                  ((pre ++ firstn (Z.to_nat L - 1) rest) ++ [x])
                  (Some (cursorAt key rid x)) fuel w1)
        as (pages & w2 & Hrun & ps & p & Hps & Hfull & Hp & Hne).
      * rewrite length_skipn. lia.
      * rewrite <- app_assoc. exact HE'.
      * simpl. rewrite (filter_ext _ _ (keysetClause_cursorAt key rid x)).
        rewrite HE' at 1. apply descending_filter_before.
        rewrite <- HE'. exact E_descending.
      * simpl. rewrite Forall_forall in E_ids. now apply E_ids.
      * exact Hw1.
      * rewrite length_skipn. lia.
      * rewrite Hrun. simpl.
        exists (mkPage (firstn (Z.to_nat L) rest) (Some (cursorAt key rid x))
                  :: pages), w2.
        split; [reflexivity|].
        exists (mkPage (firstn (Z.to_nat L) rest)
                  (Some (cursorAt key rid x)) :: ps), p.
        split; [now rewrite Hps|].
        split; [|split; [assumption|]].
        -- constructor; [|assumption]. simpl. rewrite length_firstn.
           split; [lia | discriminate].
        -- intros _. apply Hne. intros Hnil.
           apply (f_equal (@List.length R)) in Hnil.
           rewrite length_skipn in Hnil. simpl in Hnil. lia.
    + exists [mkPage rest None], w1. split; [reflexivity|].
      exists [], (mkPage rest None).
      split; [reflexivity|]. split; [constructor|]. split; [reflexivity|].
      simpl. auto.
Qed.

End Packing.

Lemma keyset_packed {R} (key : R -> Z) (rid : R -> string)
  (cuid2 : string -> bool) (db : database) (src : list R) (base : cond)
  (L : Z) (call : option (Cursor Z) -> M (Page R Z)) (fuel : nat) (w : world) :
  NoDup (map rid src) ->
  Forall (fun r => cuid2 (rid r) = true) src ->
  1 <= L ->
  (forall c w, store w = db -> cursorSchema cuid2 c = true ->
     exists w', call c w
                = (Return (pageOf (cursorAt key rid) (Z.to_nat L)
                             (rowsAt key rid (orderBy key rid (where_ base src)) c)),
                   w')
                /\ store w' = db) ->
  store w = db -> (List.length src < fuel)%nat ->
  exists pages w',
    enumerate call fuel None w = (Return (Some pages), w') /\
    packed L pages.
Proof.
  intros Nsrc Hids HL Hcall Hw Hfuel.
  set (E := orderBy key rid (where_ base src)) in *.
  assert (descending key rid E) as HE
    by (apply orderBy_descending, where_keeps_key, Nsrc).
  assert (Forall (fun r => cuid2 (rid r) = true) E) as HEids.
  { rewrite Forall_forall in *. intros r Hr.
    apply orderBy_In, filter_In in Hr. now apply Hids. }
  assert (List.length E <= List.length src)%nat as Hlen.
  { unfold E. rewrite orderBy_length. apply filter_length_le. }
  destruct (@enumerate_packed R key rid cuid2 db E L call HE HEids HL Hcall
              (List.length E) E [] None fuel w)
    as (pages & w' & Hrun & ps & p & Hps & Hfull & Hp & Hne);
    [lia | reflexivity | reflexivity | reflexivity | exact Hw | lia |].
  exists pages, w'. split; [assumption|].
  exists ps, p. split; [assumption|]. split; [assumption|].
  split; [assumption|].
  intros Hps'. apply Hne. intros HEnil.
  destruct ps as [|q ps]; [now apply Hps'|].
  apply Forall_inv in Hfull. destruct Hfull as [Hq _].
  assert (List.concat (map (@items R Z) pages) = E) as Hcat.
  { destruct (@enumerate_all R key rid cuid2 db E L call HE HEids HL Hcall
                fuel w Hw) as (pages' & w'' & Hrun' & _ & Hcat & _); [lia|].
    rewrite Hrun in Hrun'. inversion Hrun'; subst. exact Hcat. }
  rewrite Hps, HEnil in Hcat. simpl in Hcat.
  apply (f_equal (@List.length R)) in Hcat. rewrite length_app in Hcat.
  simpl in Hcat. lia.
Qed.

(** X21.  The chain of calls wastes no page.  Under the conditions of the
    enumeration ([videos.getMany] and [playlists.getMany], ids that are
    keys and well formed, integer limit [L] in [1, 100]), every page but
    the last holds exactly [L] rows, and the last page is empty only when
    it is the first, that is when nothing matches: reading [L + 1] rows
    spares the caller a final empty fetch. *)
Theorem getMany_pages_packed (cuid2 : string -> bool) (db : database)
  (userId categoryId : option string) (viewer : string) (L : Z)
  (fuel : nat) (tr : list storeOp) :
  NoDup (map users_id (users db)) ->
  NoDup (map videos_id (videos db)) ->
  NoDup (map playlists_id (playlists db)) ->
  Forall (fun v => cuid2 (videos_id v) = true) (videos db) ->
  Forall (fun p => cuid2 (playlists_id p) = true) (playlists db) ->
  cuid2Nullish cuid2 categoryId = true ->
  1 <= L <= 100 ->
  (List.length (videos db) < fuel)%nat ->
  (List.length (playlists db) < fuel)%nat ->
  (exists pages w',
      enumerate (fun c => videosRouter.getMany cuid2 userId categoryId c (ofInt L))
        fuel None (mkWorld db tr) = (Return (Some pages), w') /\
      packed L pages) /\
  (exists pages w',
      enumerate (fun c => playlistsRouter.getMany cuid2 viewer c (ofInt L))
        fuel None (mkWorld db tr) = (Return (Some pages), w') /\
      packed L pages).
Proof.
  intros Nu Nv Np Iv Ip Hcat HL Fv Fp. split.
  - apply keyset_packed with (key := item_updatedAt) (rid := item_id)
      (cuid2 := cuid2) (db := db)
      (src := map (videoColumns db) (videosWithUsers db))
      (base := videosRouter.getMany_where userId categoryId None).
    + now apply videos_source_NoDup.
    + now apply (videos_source_ids (fun s => cuid2 s = true)).
    + lia.
    + intros c w Hw Hc. eexists. split.
      * rewrite videos_getMany_run by assumption.
        rewrite videos_getMany_rows_cursor, Hw. reflexivity.
      * exact Hw.
    + reflexivity.
    + pose proof (videos_source_length db Nu). simpl. lia.
  - apply keyset_packed with (key := playlist_updatedAt) (rid := playlist_id)
      (cuid2 := cuid2) (db := db)
      (src := playlistsRouter.playlistsWithUsers db (fun _ => false))
      (base := playlistsRouter.getMany_where viewer None).
    + now apply playlists_source_NoDup.
    + now apply (playlists_source_ids (fun s => cuid2 s = true)).
    + lia.
    + intros c w Hw Hc. eexists. split.
      * rewrite playlists_getMany_run by assumption.
        rewrite playlists_getMany_rows_cursor, Hw. reflexivity.
      * exact Hw.
    + reflexivity.
    + pose proof (playlists_source_length db (fun _ => false) Nu). simpl. lia.
Qed.

Lemma getMany_pages_packed_witness :
  (exists pages w',
      enumerate
        (fun c => videosRouter.getMany cuid2_sample None None c (ofInt 2))
        6 None (mkWorld sampleDb []) = (Return (Some pages), w') /\
      packed 2 pages) /\
  (exists pages w',
      enumerate
        (fun c => playlistsRouter.getMany cuid2_sample "usera"%string c (ofInt 2))
        6 None (mkWorld sampleDb []) = (Return (Some pages), w') /\
      packed 2 pages).
Proof.
  apply (@getMany_pages_packed cuid2_sample sampleDb None None "usera"%string
           2 6 []).
  - concrete_NoDup.
  - concrete_NoDup.
  - concrete_NoDup.
  - concrete_Forall.
  - concrete_Forall.
  - reflexivity.
  - lia.
  - simpl. lia.
  - simpl. lia.
Defined.
